(** * The statement line parser of [extract_data_from_pdf.py]

    A shallow embedding of the line classifiers, value parsers, header
    extractor, FX line parser, detail walker, block segmenter and transaction
    assembler, followed by the properties proved about them.

    Data model.
    - A Python [str] is a list of code points ([list N]).  The Unicode
      tables the program reaches through [str] methods, [unicodedata] and
      [re] are written out for U+0000..U+017F (Basic Latin, Latin-1
      Supplement, Latin Extended-A: the alphabet of the statements) and, for
      whitespace, for the whole of Unicode.  Every other code point is taken
      as a caseless symbol: in no class, without case mapping or
      decomposition.
    - A pattern of [re] is a term of type [Re.regex], matched by a
      backtracking matcher that lists the ways a match can end in the
      order in which [re] tries them.
    - A [float] is a double, written as the decimal number it is equal
      to; [float] reads a decimal text and rounds it to the nearest double.
    - A transaction record is a Python [dict] with string keys: a
      [gmap string pyval], whose values are null, strings or numbers.
    - A Python exception is a result [Raise] of type [res]; a function
      that changes its arguments in place returns them. *)

From Stdlib Require Import String Ascii NArith ZArith Bool Lia.
From stdpp Require Import base option list gmap strings.

Local Open Scope N_scope.

(** ** Code points and the Unicode tables *)

(** A string literal of the source, as a list of code points. *)
Definition u (s : string) : list N :=
  N_of_ascii <$> String.list_ascii_of_string s.

Definition in_range (lo hi c : N) : bool := (lo <=? c) && (c <=? hi).

(** [str.isspace], which is also [\s] of [re] and what [strip] and [split]
    cut at. *)
Definition is_space (c : N) : bool :=
  in_range 9 13 c || in_range 28 32 c || (c =? 133) || (c =? 160)
  || (c =? 5760) || in_range 8192 8202 c || (c =? 8232) || (c =? 8233)
  || (c =? 8239) || (c =? 8287) || (c =? 12288).

(** [\d] of [re]: the decimal digits. *)
Definition is_digit (c : N) : bool := in_range 48 57 c.

(** [\w] of [re]: alphanumeric characters and the underscore. *)
Definition is_word (c : N) : bool :=
  in_range 48 57 c || in_range 65 90 c || (c =? 95) || in_range 97 122 c
  || (c =? 170) || in_range 178 179 c || (c =? 181) || in_range 185 186 c
  || in_range 188 190 c || in_range 192 214 c || in_range 216 246 c
  || in_range 248 383 c.

Fixpoint assoc {A} (c : N) (t : list (N * A)) : option A :=
  match t with
  | [] => None
  | (k, v) :: t' => if k =? c then Some v else assoc c t'
  end.

Definition upper_table : list (N * list N) :=
  [ (181, [924]); (223, [83; 83]); (224, [192]); (225, [193]); (226, [194])
  ; (227, [195]); (228, [196]); (229, [197]); (230, [198]); (231, [199])
  ; (232, [200]); (233, [201]); (234, [202]); (235, [203]); (236, [204])
  ; (237, [205]); (238, [206]); (239, [207]); (240, [208]); (241, [209])
  ; (242, [210]); (243, [211]); (244, [212]); (245, [213]); (246, [214])
  ; (248, [216]); (249, [217]); (250, [218]); (251, [219]); (252, [220])
  ; (253, [221]); (254, [222]); (255, [376]); (257, [256]); (259, [258])
  ; (261, [260]); (263, [262]); (265, [264]); (267, [266]); (269, [268])
  ; (271, [270]); (273, [272]); (275, [274]); (277, [276]); (279, [278])
  ; (281, [280]); (283, [282]); (285, [284]); (287, [286]); (289, [288])
  ; (291, [290]); (293, [292]); (295, [294]); (297, [296]); (299, [298])
  ; (301, [300]); (303, [302]); (305, [73]); (307, [306]); (309, [308])
  ; (311, [310]); (314, [313]); (316, [315]); (318, [317]); (320, [319])
  ; (322, [321]); (324, [323]); (326, [325]); (328, [327]); (329, [700; 78])
  ; (331, [330]); (333, [332]); (335, [334]); (337, [336]); (339, [338])
  ; (341, [340]); (343, [342]); (345, [344]); (347, [346]); (349, [348])
  ; (351, [350]); (353, [352]); (355, [354]); (357, [356]); (359, [358])
  ; (361, [360]); (363, [362]); (365, [364]); (367, [366]); (369, [368])
  ; (371, [370]); (373, [372]); (375, [374]); (378, [377]); (380, [379])
  ; (382, [381]); (383, [83]) ].

Definition lower_table : list (N * list N) :=
  [ (192, [224]); (193, [225]); (194, [226]); (195, [227]); (196, [228])
  ; (197, [229]); (198, [230]); (199, [231]); (200, [232]); (201, [233])
  ; (202, [234]); (203, [235]); (204, [236]); (205, [237]); (206, [238])
  ; (207, [239]); (208, [240]); (209, [241]); (210, [242]); (211, [243])
  ; (212, [244]); (213, [245]); (214, [246]); (216, [248]); (217, [249])
  ; (218, [250]); (219, [251]); (220, [252]); (221, [253]); (222, [254])
  ; (256, [257]); (258, [259]); (260, [261]); (262, [263]); (264, [265])
  ; (266, [267]); (268, [269]); (270, [271]); (272, [273]); (274, [275])
  ; (276, [277]); (278, [279]); (280, [281]); (282, [283]); (284, [285])
  ; (286, [287]); (288, [289]); (290, [291]); (292, [293]); (294, [295])
  ; (296, [297]); (298, [299]); (300, [301]); (302, [303]); (304, [105; 775])
  ; (306, [307]); (308, [309]); (310, [311]); (313, [314]); (315, [316])
  ; (317, [318]); (319, [320]); (321, [322]); (323, [324]); (325, [326])
  ; (327, [328]); (330, [331]); (332, [333]); (334, [335]); (336, [337])
  ; (338, [339]); (340, [341]); (342, [343]); (344, [345]); (346, [347])
  ; (348, [349]); (350, [351]); (352, [353]); (354, [355]); (356, [357])
  ; (358, [359]); (360, [361]); (362, [363]); (364, [365]); (366, [367])
  ; (368, [369]); (370, [371]); (372, [373]); (374, [375]); (376, [255])
  ; (377, [378]); (379, [380]); (381, [382]) ].

Definition nfkd_table : list (N * list N) :=
  [ (160, [32]); (168, [32; 776]); (170, [97]); (175, [32; 772]); (178, [50])
  ; (179, [51]); (180, [32; 769]); (181, [956]); (184, [32; 807]); (185, [49])
  ; (186, [111]); (188, [49; 8260; 52]); (189, [49; 8260; 50])
  ; (190, [51; 8260; 52]); (192, [65; 768]); (193, [65; 769])
  ; (194, [65; 770]); (195, [65; 771]); (196, [65; 776]); (197, [65; 778])
  ; (199, [67; 807]); (200, [69; 768]); (201, [69; 769]); (202, [69; 770])
  ; (203, [69; 776]); (204, [73; 768]); (205, [73; 769]); (206, [73; 770])
  ; (207, [73; 776]); (209, [78; 771]); (210, [79; 768]); (211, [79; 769])
  ; (212, [79; 770]); (213, [79; 771]); (214, [79; 776]); (217, [85; 768])
  ; (218, [85; 769]); (219, [85; 770]); (220, [85; 776]); (221, [89; 769])
  ; (224, [97; 768]); (225, [97; 769]); (226, [97; 770]); (227, [97; 771])
  ; (228, [97; 776]); (229, [97; 778]); (231, [99; 807]); (232, [101; 768])
  ; (233, [101; 769]); (234, [101; 770]); (235, [101; 776]); (236, [105; 768])
  ; (237, [105; 769]); (238, [105; 770]); (239, [105; 776]); (241, [110; 771])
  ; (242, [111; 768]); (243, [111; 769]); (244, [111; 770]); (245, [111; 771])
  ; (246, [111; 776]); (249, [117; 768]); (250, [117; 769]); (251, [117; 770])
  ; (252, [117; 776]); (253, [121; 769]); (255, [121; 776]); (256, [65; 772])
  ; (257, [97; 772]); (258, [65; 774]); (259, [97; 774]); (260, [65; 808])
  ; (261, [97; 808]); (262, [67; 769]); (263, [99; 769]); (264, [67; 770])
  ; (265, [99; 770]); (266, [67; 775]); (267, [99; 775]); (268, [67; 780])
  ; (269, [99; 780]); (270, [68; 780]); (271, [100; 780]); (274, [69; 772])
  ; (275, [101; 772]); (276, [69; 774]); (277, [101; 774]); (278, [69; 775])
  ; (279, [101; 775]); (280, [69; 808]); (281, [101; 808]); (282, [69; 780])
  ; (283, [101; 780]); (284, [71; 770]); (285, [103; 770]); (286, [71; 774])
  ; (287, [103; 774]); (288, [71; 775]); (289, [103; 775]); (290, [71; 807])
  ; (291, [103; 807]); (292, [72; 770]); (293, [104; 770]); (296, [73; 771])
  ; (297, [105; 771]); (298, [73; 772]); (299, [105; 772]); (300, [73; 774])
  ; (301, [105; 774]); (302, [73; 808]); (303, [105; 808]); (304, [73; 775])
  ; (306, [73; 74]); (307, [105; 106]); (308, [74; 770]); (309, [106; 770])
  ; (310, [75; 807]); (311, [107; 807]); (313, [76; 769]); (314, [108; 769])
  ; (315, [76; 807]); (316, [108; 807]); (317, [76; 780]); (318, [108; 780])
  ; (319, [76; 183]); (320, [108; 183]); (323, [78; 769]); (324, [110; 769])
  ; (325, [78; 807]); (326, [110; 807]); (327, [78; 780]); (328, [110; 780])
  ; (329, [700; 110]); (332, [79; 772]); (333, [111; 772]); (334, [79; 774])
  ; (335, [111; 774]); (336, [79; 779]); (337, [111; 779]); (340, [82; 769])
  ; (341, [114; 769]); (342, [82; 807]); (343, [114; 807]); (344, [82; 780])
  ; (345, [114; 780]); (346, [83; 769]); (347, [115; 769]); (348, [83; 770])
  ; (349, [115; 770]); (350, [83; 807]); (351, [115; 807]); (352, [83; 780])
  ; (353, [115; 780]); (354, [84; 807]); (355, [116; 807]); (356, [84; 780])
  ; (357, [116; 780]); (360, [85; 771]); (361, [117; 771]); (362, [85; 772])
  ; (363, [117; 772]); (364, [85; 774]); (365, [117; 774]); (366, [85; 778])
  ; (367, [117; 778]); (368, [85; 779]); (369, [117; 779]); (370, [85; 808])
  ; (371, [117; 808]); (372, [87; 770]); (373, [119; 770]); (374, [89; 770])
  ; (375, [121; 770]); (376, [89; 776]); (377, [90; 769]); (378, [122; 769])
  ; (379, [90; 775]); (380, [122; 775]); (381, [90; 780]); (382, [122; 780])
  ; (383, [115]) ].

(** [str.upper], [str.lower] and NFKD decomposition, one code point at a
    time. *)
Definition upper_char (c : N) : list N :=
  if in_range 97 122 c then [c - 32] else default [c] (assoc c upper_table).

Definition lower_char (c : N) : list N :=
  if in_range 65 90 c then [c + 32] else default [c] (assoc c lower_table).

Definition nfkd_char (c : N) : list N := default [c] (assoc c nfkd_table).

(** How [re] compares a character with a letter of the pattern under
    [re.IGNORECASE]: by lower case, with the two extra pairs the engine
    knows (dotless i with i, long s with s). *)
Definition simple_lower (c : N) : N :=
  if c =? 304 then 105 else
  match lower_char c with [l] => l | _ => c end.

Definition ci_eq (p c : N) : bool :=
  let l := simple_lower p in
  (simple_lower c =? l) || ((l =? 105) && (c =? 305))
  || ((l =? 115) && (c =? 383)).

(** ** Python's string methods *)

Module Str.

Definition eqb (a b : list N) : bool := bool_decide (a = b).

Definition upper (s : list N) : list N := s ≫= upper_char.
Definition lower (s : list N) : list N := s ≫= lower_char.

Fixpoint lstrip (s : list N) : list N :=
  match s with
  | c :: t => if is_space c then lstrip t else s
  | [] => []
  end.

Definition rstrip (s : list N) : list N := reverse (lstrip (reverse s)).

Definition strip (s : list N) : list N := rstrip (lstrip s).

Fixpoint startswith (s p : list N) {struct p} : bool :=
  match p, s with
  | [], _ => true
  | a :: p', b :: s' => (a =? b) && startswith s' p'
  | _ :: _, [] => false
  end.

(** [p in s] *)
Fixpoint contains (p s : list N) : bool :=
  startswith s p ||
  match s with
  | [] => false
  | _ :: t => contains p t
  end.

(** [s.replace(old, new)]; [skip] counts the characters of a replaced
    occurrence still to step over. *)
Fixpoint replace_go (old new s : list N) (skip : nat) : list N :=
  match s with
  | [] => []
  | c :: t =>
      match skip with
      | S k => replace_go old new t k
      | O =>
          if startswith s old
          then new ++ replace_go old new t (length old - 1)
          else c :: replace_go old new t 0
      end
  end.

Definition replace (old new s : list N) : list N :=
  match old with
  | [] => new ++ (s ≫= λ c, c :: new)
  | _ :: _ => replace_go old new s 0
  end.

(** [s.split()]: the maximal runs of characters that are not whitespace.
    [cur] is the run being read, reversed. *)
Fixpoint split_go (s cur : list N) : list (list N) :=
  match s with
  | [] => match cur with [] => [] | _ => [reverse cur] end
  | c :: t =>
      if is_space c
      then match cur with
           | [] => split_go t []
           | _ => reverse cur :: split_go t []
           end
      else split_go t (c :: cur)
  end.

Definition split (s : list N) : list (list N) := split_go s [].

(** [s.split(":", 1)[-1]]: what follows the first colon, or all of [s]
    when it has none. *)
Fixpoint after_colon_go (s : list N) : option (list N) :=
  match s with
  | [] => None
  | c :: t => if c =? 58 then Some t else after_colon_go t
  end.

Definition after_first_colon (s : list N) : list N :=
  default s (after_colon_go s).

(** [sep.join(l)] *)
Fixpoint join (sep : list N) (l : list (list N)) : list N :=
  match l with
  | [] => []
  | [x] => x
  | x :: t => x ++ sep ++ join sep t
  end.

End Str.

(** ** The regular expressions of [re]

    A backtracking matcher as a list of successes: [run r st] lists the
    states in which a match of [r] begun in [st] can end, in the order in
    which [re] tries them, so that the match [re] reports is the head of
    the list. *)

Module Re.

Inductive cset : Type :=
| CChar (c : N)                 (* a literal character *)
| CCharI (c : N)                (* a letter under re.IGNORECASE *)
| CDigit                        (* \d *)
| CSpace                        (* \s *)
| CWord                         (* \w *)
| CRange (lo hi : N)            (* lo-hi inside [...] *)
| CAny                          (* . *)
| CUnion (a b : cset).          (* [...] *)

Fixpoint cset_mem (cs : cset) (c : N) : bool :=
  match cs with
  | CChar x => x =? c
  | CCharI x => ci_eq x c
  | CDigit => is_digit c
  | CSpace => is_space c
  | CWord => is_word c
  | CRange lo hi => in_range lo hi c
  | CAny => negb (c =? 10)
  | CUnion a b => cset_mem a c || cset_mem b c
  end.

Inductive regex : Type :=
| REps
| RChar (cs : cset)
| RSeq (a b : regex)
| RAlt (a b : regex)
| RRep (lo : nat) (hi : option nat) (greedy : bool) (a : regex)
| RGroup (name : string) (a : regex)
| RBol                          (* ^ *)
| REol                          (* $ *)
| RWordB                        (* \b *)
| RNotBehind (cs : cset).       (* (?<!c) for a one-character c *)

(** A position in the subject: the character before it, the text after
    it, its index, and the groups captured so far. *)
Record mstate : Type := MState {
  m_prev : option N;
  m_rest : list N;
  m_pos : nat;
  m_groups : list (string * list N)
}.

Definition set_group (name : string) (text : list N) (st : mstate) : mstate :=
  MState (m_prev st) (m_rest st) (m_pos st) ((name, text) :: m_groups st).

Definition word_at (o : option N) : bool :=
  match o with Some c => is_word c | None => false end.

(** Repetition [a{lo,hi}]; every round must consume a character (all
    repeated bodies of this program do), which bounds the rounds by the
    length of the text: [fuel] is that length plus one. *)
Fixpoint rep_loop (step : mstate → list mstate) (greedy : bool)
    (fuel lo : nat) (hi : option nat) (st : mstate) : list mstate :=
  let stop := match lo with O => [st] | S _ => [] end in
  match fuel with
  | O => stop
  | S fuel' =>
      let more :=
        match hi with
        | Some O => []
        | _ =>
            step st ≫= λ st',
              if (m_pos st <? m_pos st')%nat
              then rep_loop step greedy fuel' (pred lo) (pred <$> hi) st'
              else []
        end in
      if greedy then more ++ stop else stop ++ more
  end.

Fixpoint run (r : regex) (st : mstate) : list mstate :=
  match r with
  | REps => [st]
  | RChar cs =>
      match m_rest st with
      | c :: t =>
          if cset_mem cs c
          then [MState (Some c) t (S (m_pos st)) (m_groups st)]
          else []
      | [] => []
      end
  | RSeq a b => run a st ≫= run b
  | RAlt a b => run a st ++ run b st
  | RRep lo hi greedy a =>
      rep_loop (run a) greedy (S (length (m_rest st))) lo hi st
  | RGroup name a =>
      (λ st', set_group name
                (take (m_pos st' - m_pos st)%nat (m_rest st)) st')
      <$> run a st
  | RBol => if (m_pos st =? 0)%nat then [st] else []
  | REol =>
      match m_rest st with
      | [] => [st]
      | [10] => [st]
      | _ => []
      end
  | RWordB =>
      if xorb (word_at (m_prev st)) (word_at (head (m_rest st)))
      then [st] else []
  | RNotBehind cs =>
      match m_prev st with
      | Some c => if cset_mem cs c then [] else [st]
      | None => [st]
      end
  end.

(** A match object: [m.start()], [m.end()], [m.group(0)] and the named
    groups. *)
Record rmatch : Type := RMatch {
  r_start : nat;
  r_end : nat;
  r_text : list N;
  r_groups : list (string * list N)
}.

Fixpoint lookup_group (name : string) (gs : list (string * list N))
    : option (list N) :=
  match gs with
  | [] => None
  | (k, v) :: gs' => if String.eqb k name then Some v else lookup_group name gs'
  end.

(** [m.group(name)]; every named group of the patterns below takes part
    in every match, so the group that did not take part is not
    modelled. *)
Definition group (name : string) (m : rmatch) : list N :=
  default [] (lookup_group name (r_groups m)).

Definition mk_match (st st' : mstate) : rmatch :=
  RMatch (m_pos st) (m_pos st')
         (take (m_pos st' - m_pos st)%nat (m_rest st)) (m_groups st').

Definition match_at (r : regex) (st : mstate) : option rmatch :=
  mk_match st <$> head (run r st).

(** [r.match(s)] *)
Definition rmatch_ (r : regex) (s : list N) : option rmatch :=
  match_at r (MState None s 0 []).

(** [r.fullmatch(s)] *)
Definition fullmatch (r : regex) (s : list N) : option rmatch :=
  let st := MState None s 0 [] in
  mk_match st <$>
    head (List.filter (λ st', bool_decide (m_rest st' = [])) (run r st)).

Fixpoint search_from (r : regex) (prev : option N) (rest : list N)
    (pos : nat) : option rmatch :=
  match match_at r (MState prev rest pos []) with
  | Some m => Some m
  | None =>
      match rest with
      | [] => None
      | c :: t => search_from r (Some c) t (S pos)
      end
  end.

(** [r.search(s)] *)
Definition search (r : regex) (s : list N) : option rmatch :=
  search_from r None s 0.

(** [r.sub(repl, s)] for a pattern that matches no empty text (the two
    patterns substituted in this program match at least one character):
    [skip] counts the characters of a replaced match still to step
    over. *)
Fixpoint sub_go (r : regex) (repl : list N) (prev : option N)
    (rest : list N) (pos skip : nat) : list N :=
  match rest with
  | [] => []
  | c :: t =>
      match skip with
      | S k => sub_go r repl (Some c) t (S pos) k
      | O =>
          match match_at r (MState prev rest pos []) with
          | Some m =>
              match (r_end m - r_start m)%nat with
              | O => c :: sub_go r repl (Some c) t (S pos) 0
              | S k => repl ++ sub_go r repl (Some c) t (S pos) k
              end
          | None => c :: sub_go r repl (Some c) t (S pos) 0
          end
      end
  end.

Definition sub (r : regex) (repl s : list N) : list N :=
  sub_go r repl None s 0 0.

(** Pattern syntax. *)
Definition lit (c : ascii) : regex := RChar (CChar (N_of_ascii c)).
Definition liti (c : ascii) : regex := RChar (CCharI (N_of_ascii c)).
Definition d : regex := RChar CDigit.
Definition s : regex := RChar CSpace.
Definition w : regex := RChar CWord.
Definition AZ : regex := RChar (CRange 65 90).
Definition star (a : regex) : regex := RRep 0 None true a.
Definition plus (a : regex) : regex := RRep 1 None true a.
Definition opt (a : regex) : regex := RRep 0 (Some 1%nat) true a.
Definition lazy_star (a : regex) : regex := RRep 0 None false a.
Definition times (n : nat) (a : regex) : regex := RRep n (Some n) true a.
Definition between (lo hi : nat) (a : regex) : regex :=
  RRep lo (Some hi) true a.
Definition at_least (lo : nat) (a : regex) : regex := RRep lo None true a.

End Re.

Import Re.

Definition cat (l : list regex) : regex := foldr RSeq REps l.

(** ** The patterns of the program *)

(** [^\s*(\d{1,2}\.\s*\d{1,2}\.\s*\d{4})]; the one numbered group is
    named by its number. *)
Definition DATE_RE : regex :=
  cat [RBol; star s;
       RGroup "1" (cat [between 1 2 d; lit "."; star s;
                        between 1 2 d; lit "."; star s; times 4 d])].

(** [\d{1,2}\.\s+\d{1,2}\.\s+\d{4}] *)
Definition HEADER_DATE_RE : regex :=
  cat [between 1 2 d; lit "."; plus s; between 1 2 d; lit "."; plus s;
       times 4 d].

(** [-?\s*(?:\d{1,3}(?:[ .]\d{3})*|\d+),\d{2}] *)
Definition AMOUNT_TOKEN_RE : regex :=
  cat [opt (lit "-"); star s;
       RAlt (cat [between 1 3 d;
                  star (cat [RChar (CUnion (CChar 32) (CChar 46)); times 3 d])])
            (plus d);
       lit ","; times 2 d].

(** [(?:K\w|[A-Z]{3})] *)
Definition CURRENCY_TOKEN_RE : regex :=
  RAlt (cat [lit "K"; w]) (times 3 AZ).

(** [(?<!\d)(?P<amount>AMOUNT)\s+(?P<currency>CURRENCY)\s*$] *)
Definition HEADER_AMOUNT_RE : regex :=
  cat [RNotBehind CDigit; RGroup "amount" AMOUNT_TOKEN_RE; plus s;
       RGroup "currency" CURRENCY_TOKEN_RE; star s; REol].

(** [^\s*HEADER_DATE.*?(?<!\d)AMOUNT\s+CURRENCY\s*$] *)
Definition HEADER_RE : regex :=
  cat [RBol; star s; HEADER_DATE_RE; lazy_star (RChar CAny);
       RNotBehind CDigit; AMOUNT_TOKEN_RE; plus s; CURRENCY_TOKEN_RE;
       star s; REol].

(** [^\d+/\d+$] *)
Definition PAGE_RE : regex :=
  cat [RBol; plus d; lit "/"; plus d; REol].

(** [\d[\d\s\.]*,\d{2}], the amount of the two FX amount patterns. *)
Definition FX_AMOUNT : regex :=
  cat [d; star (RChar (CUnion CDigit (CUnion CSpace (CChar 46))));
       lit ","; times 2 d].

(** [(?P<date>\d{1,2}\.\d{1,2}\.\d{4})\s+(?P<amount>\d[\d\s\.]*,\d{2})\s+(?P<currency>[A-Z]{3})\b] *)
Definition FX_DATE_AMOUNT_RE : regex :=
  cat [RGroup "date" (cat [between 1 2 d; lit "."; between 1 2 d; lit ".";
                           times 4 d]);
       plus s; RGroup "amount" FX_AMOUNT; plus s;
       RGroup "currency" (times 3 AZ); RWordB].

(** [^\s*(?P<amount>\d[\d\s\.]*,\d{2})\s+(?P<currency>[A-Z]{3})\b] *)
Definition FX_AMOUNT_ONLY_RE : regex :=
  cat [RBol; star s; RGroup "amount" FX_AMOUNT; plus s;
       RGroup "currency" (times 3 AZ); RWordB].

(** [^\s*1\s+(?P<currency>[A-Z]{3})\s*=\s*(?P<rate>\d[\d\s]*,\d+)\s*K\w\b] *)
Definition FX_RATE_RE : regex :=
  cat [RBol; star s; lit "1"; plus s; RGroup "currency" (times 3 AZ);
       star s; lit "="; star s;
       RGroup "rate" (cat [d; star (RChar (CUnion CDigit CSpace)); lit ",";
                           plus d]);
       star s; lit "K"; w; RWordB].

(** [\b\d{4}\s\d{2}\*{2}\s\*{4}\s\d{4}\b] *)
Definition CARD_MASK_RE : regex :=
  cat [RWordB; times 4 d; s; times 2 d; times 2 (lit "*"); s;
       times 4 (lit "*"); s; times 4 d; RWordB].

(** [\b\d{6}X{4,6}\d{4}\b] under [re.IGNORECASE] *)
Definition CARD_MASK_X_RE : regex :=
  cat [RWordB; times 6 d; between 4 6 (liti "X"); times 4 d; RWordB].

(** [\b\d{6}\*{4,6}\d{4}\b] *)
Definition CARD_MASK_STAR_RE : regex :=
  cat [RWordB; times 6 d; between 4 6 (lit "*"); times 4 d; RWordB].

(** [\b\d{1,10}-\d{1,10}/\d{4}\b] *)
Definition ACCOUNT_RE : regex :=
  cat [RWordB; between 1 10 d; lit "-"; between 1 10 d; lit "/"; times 4 d;
       RWordB].

(** [\b\d{1,10}/\d{4}\b] *)
Definition ACCOUNT_RE2 : regex :=
  cat [RWordB; between 1 10 d; lit "/"; times 4 d; RWordB].

(** [\bWORD\b] under [re.IGNORECASE], for the two card networks. *)
Definition word_ci (word : string) : regex :=
  cat [RWordB; cat (liti <$> String.list_ascii_of_string word); RWordB].

(** [[A-Za-z0-9]+] *)
Definition ALNUM_RE : regex :=
  plus (RChar (CUnion (CRange 65 90) (CUnion (CRange 97 122) (CRange 48 57)))).

(** [\s{2,}] *)
Definition SPACES_RE : regex := at_least 2 s.

Definition matches (r : regex) (line : list N) : bool :=
  bool_decide (is_Some (rmatch_ r line)).

Definition found (r : regex) (line : list N) : bool :=
  bool_decide (is_Some (search r line)).

(** ** Python values, dictionaries and exceptions *)

(** A [float], that is a double: [FNum neg m e] is the double that is
    equal to [m * 10^e] (every finite double is such a number), negated
    when [neg], with no trailing zero in [m]. *)
Inductive pyfloat : Type :=
| FNum (neg : bool) (m : N) (e : Z)
| FInf (neg : bool)
| FNan.

Inductive pyval : Type :=
| VNone
| VStr (s : list N)
| VFloat (f : pyfloat).

#[global] Instance pyfloat_eq_dec : EqDecision pyfloat.
Proof. solve_decision. Defined.

#[global] Instance pyval_eq_dec : EqDecision pyval.
Proof. solve_decision. Defined.

(** [bool(v)] *)
Definition truthy (v : pyval) : bool :=
  match v with
  | VNone => false
  | VStr s => negb (Str.eqb s [])
  | VFloat (FNum _ m _) => negb (m =? 0)
  | VFloat _ => true
  end.

(** [a or b] *)
Definition py_or (a b : pyval) : pyval := if truthy a then a else b.

(** [tx.get(key)] *)
Definition get (tx : gmap string pyval) (key : string) : pyval :=
  default VNone (tx !! key).

(** [if not tx.get(key): tx[key] = value] *)
Definition set_if_unset (key : string) (value : list N)
    (tx : gmap string pyval) : gmap string pyval :=
  if truthy (get tx key) then tx else <[key := VStr value]> tx.

Inductive exn : Type := IndexError | TypeError.

Inductive res (A : Type) : Type :=
| Ok (a : A)
| Raise (e : exn).
Arguments Ok {A} a.
Arguments Raise {A} e.

#[global] Instance res_ret : MRet res := λ A a, Ok a.
#[global] Instance res_bind : MBind res := λ A B f m,
  match m with
  | Ok a => f a
  | Raise e => Raise e
  end.

(** [v + s] for a string [s]: a [TypeError] unless [v] is a string. *)
Definition str_add (v : pyval) (s : list N) : res (list N) :=
  match v with
  | VStr a => Ok (a ++ s)
  | _ => Raise TypeError
  end.

(** ** [float] *)

(** [digit (["_"] digit)*], read from a text that begins with a digit:
    the digits and what follows them. *)
Fixpoint read_digits_go (s : list N) : list N * list N :=
  match s with
  | c :: t =>
      if is_digit c then
        let '(ds, r) := read_digits_go t in (c :: ds, r)
      else if c =? 95 then
        match t with
        | c2 :: _ => if is_digit c2 then read_digits_go t else ([], s)
        | [] => ([], s)
        end
      else ([], s)
  | [] => ([], [])
  end.

Definition read_digits (s : list N) : list N * list N :=
  match s with
  | c :: _ => if is_digit c then read_digits_go s else ([], s)
  | [] => ([], [])
  end.

Definition digits_value (ds : list N) : N :=
  foldl (λ acc c, acc * 10 + (c - 48)) 0 ds.

Definition read_sign (s : list N) : bool * list N :=
  match s with
  | 45 :: t => (true, t)
  | 43 :: t => (false, t)
  | _ => (false, s)
  end.

(** [e] or [E], a sign and digits; [None] when an exponent begins and is
    malformed. *)
Definition read_exponent (s : list N) : option (Z * list N) :=
  match s with
  | c :: t =>
      if (c =? 101) || (c =? 69) then
        let '(neg, t1) := read_sign t in
        match read_digits t1 with
        | ([], _) => None
        | (ds, r) =>
            let v := Z.of_N (digits_value ds) in
            Some (if neg then (- v)%Z else v, r)
        end
      else Some (0%Z, s)
  | [] => Some (0%Z, [])
  end.

Fixpoint drop_zeros (fuel : nat) (m : N) (e : Z) : N * Z :=
  match fuel with
  | O => (m, e)
  | S fuel' =>
      if (m =? 0) then (0, 0%Z)
      else if (m mod 10 =? 0) then drop_zeros fuel' (m / 10) (e + 1)%Z
      else (m, e)
  end.

(** The blanks that [float] trims: those of [strip] but the four
    separators U+001C..U+001F. *)
Definition is_float_space (c : N) : bool :=
  is_space c && negb (in_range 28 31 c).

Fixpoint lstrip_by (p : N → bool) (s : list N) : list N :=
  match s with
  | c :: t => if p c then lstrip_by p t else s
  | [] => []
  end.

Definition strip_by (p : N → bool) (s : list N) : list N :=
  reverse (lstrip_by p (reverse (lstrip_by p s))).

Definition float_strip (s : list N) : list N := strip_by is_float_space s.

(** The quotient [num / den] rounded to the nearest integer, to the even
    one of two that are as near. *)
Definition round_half_even (num den : Z) : Z :=
  let q := (num / den)%Z in
  let r := (num mod den)%Z in
  if (2 * r <? den)%Z then q
  else if (den <? 2 * r)%Z then (q + 1)%Z
  else if Z.even q then q else (q + 1)%Z.

(** The double nearest to [m * 10^e], as the decimal number it is equal
    to: a significand [M] of at most 53 bits at a binary exponent [E] of
    at least -1074, rounded to even; [None] when the number is beyond the
    doubles ([2^1024] and more after rounding). *)
Definition nearest_double (m : N) (e : Z) : option (N * Z) :=
  if m =? 0 then Some (0, 0%Z)
  else
    let num := (if 0 <=? e then Z.of_N m * 10 ^ e else Z.of_N m)%Z in
    let den := (if 0 <=? e then 1 else 10 ^ (- e))%Z in
    let k := (Z.log2 num - Z.log2 den)%Z in
    let reached :=
      (if 0 <=? k then den * 2 ^ k <=? num else den <=? num * 2 ^ (- k))%Z in
    let floor_log2 := (if reached then k else k - 1)%Z in
    let E := Z.max (-1074) (floor_log2 - 52) in
    let M :=
      (if 0 <=? E then round_half_even num (den * 2 ^ E)
       else round_half_even (num * 2 ^ (- E)) den)%Z in
    if ((0 <=? E) && (2 ^ 1024 <=? M * 2 ^ E))%Z then None
    else
      let '(m', e') :=
        (if 0 <=? E then (Z.to_N (M * 2 ^ E), 0)
         else (Z.to_N (M * 5 ^ (- E)), E))%Z in
      Some (drop_zeros (S (N.to_nat (N.log2 m'))) m' e').

Definition to_double (neg : bool) (m : N) (e : Z) : pyfloat :=
  match nearest_double m e with
  | Some (m', e') => FNum neg m' e'
  | None => FInf neg
  end.

(** [float(s)]: blanks around, a sign, then [inf], [infinity], [nan] or
    a decimal number with an optional exponent, rounded to the nearest
    double; [None] is the [ValueError]. *)
Definition py_float (s : list N) : option pyfloat :=
  let '(neg, t) := read_sign (float_strip s) in
  let l := Str.lower t in
  if Str.eqb l (u "inf") || Str.eqb l (u "infinity") then Some (FInf neg)
  else if Str.eqb l (u "nan") then Some FNan
  else
    let '(ip, t1) := read_digits t in
    let '(fp, t2) :=
      match t1 with
      | 46 :: t' => read_digits t'
      | _ => ([], t1)
      end in
    match ip, fp with
    | [], [] => None
    | _, _ =>
        match read_exponent t2 with
        | Some (ex, []) =>
            Some (to_double neg (digits_value (ip ++ fp))
                            (ex - Z.of_nat (length fp))%Z)
        | _ => None
        end
    end.

Definition fneg (f : pyfloat) : pyfloat :=
  match f with
  | FNum neg m e => FNum (negb neg) m e
  | FInf neg => FInf (negb neg)
  | FNan => FNan
  end.

(** ** The program *)

Definition COLUMNS : list string :=
  [ "Datum"; "Popis_hlavicka"; "Protistrana"; "Protiucet"; "Karta";
    "Castka_CZK"; "Castka_raw"; "Datum_provedeni"; "Kod_transakce";
    "Typ_transakce"; "VS"; "SS"; "KS"; "Zprava"; "ATM_ID"; "FX_mena";
    "FX_kurz"; "FX_kurz_mena"; "Doplnek"; "Blok_text" ].

Definition IGNORE_SUBSTRINGS : list (list N) :=
  u <$> [ "vypis z uctu"; "datum vypisu"; "informace o uctu"; "zustatky";
          "pocatecni zustatek"; "konecny zustatek"; "komercni banka, a. s.";
          "zapsana v obchodnim rejstriku"; "trvaly pobyt"; "cislo uctu";
          "iban"; "hlavni mena"; "typ uctu"; "transakce" ].

(** A Python set, read only through [in]. *)
Definition CONTINUATION_TRIGGERS : list (list N) :=
  u <$> [ "na"; "pres"; "za"; "pro"; "do"; "od"; "v"; "ve"; "s"; "z";
          "extra"; "vyrovnavaci" ].

(** The NFKD form of a text is the decomposition of its characters with
    the combining marks then sorted between the base characters; the
    sorting moves no character below 128, which are all that
    [normalize_text] keeps. *)
Definition normalize_text (text : list N) : list N :=
  Str.lower (List.filter (λ c, c <? 128) (text ≫= nfkd_char)).

Definition is_label_line (line : list N) : bool :=
  let n := normalize_text line in
  Str.contains (u "datum proved") n && Str.contains (u "transakce") n.

Definition is_message_line (line : list N) : bool :=
  Str.startswith (normalize_text line) (u "zpr").

Definition is_ignored_line (line : list N) : bool :=
  if Str.eqb line [] || Str.eqb (Str.strip line) [] then true
  else if matches PAGE_RE (Str.strip line) then true
  else
    let n := normalize_text line in
    existsb (λ sub, Str.contains sub n) IGNORE_SUBSTRINGS.

(** [str(v)] inside an f-string; the program formats only the message
    field, which holds a string whenever it is formatted, and the text of
    a number is not modelled. *)
Definition py_str (v : pyval) : list N :=
  match v with
  | VStr a => a
  | VNone => u "None"
  | VFloat _ => u "<float>"
  end.

Definition append_field (tx : gmap string pyval) (key : string)
    (value : list N) : gmap string pyval :=
  if Str.eqb value [] then tx
  else if truthy (get tx key)
       then <[key := VStr (py_str (get tx key) ++ u " | " ++ value)]> tx
       else <[key := VStr value]> tx.

Definition cz_amount_to_float (text : list N) : option pyfloat :=
  let s0 := Str.strip text in
  let negative := Str.startswith s0 (u "-") in
  let s1 := Str.strip (Str.replace (u "-") [] s0) in
  let s2 := Str.replace [160] [] (Str.replace (u " ") [] s1) in
  let s3 := if Str.contains (u ",") s2 then Str.replace (u ".") [] s2 else s2 in
  let s4 := Str.replace (u ",") (u ".") s3 in
  match py_float s4 with
  | None => None
  | Some value => Some (if negative then fneg value else value)
  end.

Definition normalize_currency_token (token : option (list N))
    : option (list N) :=
  match token with
  | None => None
  | Some [] => None
  | Some t =>
      let t' := Str.upper (Str.strip t) in
      if Str.startswith t' (u "K") then Some (u "CZK") else Some t'
  end.

Definition looks_like_code_fragment (token : list N) : bool :=
  let token := Str.strip token in
  if (length token <? 8)%nat then false
  else if negb (bool_decide (is_Some (fullmatch ALNUM_RE token))) then false
  else found d token.

Definition opt_str (o : option (list N)) : pyval :=
  match o with
  | Some a => VStr a
  | None => VNone
  end.

Definition opt_float (o : option pyfloat) : pyval :=
  match o with
  | Some f => VFloat f
  | None => VNone
  end.

Definition or_else {A} (a b : option A) : option A :=
  match a with
  | Some _ => a
  | None => b
  end.

Definition parse_header_line (line : list N) : option (gmap string pyval) :=
  match rmatch_ DATE_RE line with
  | None => None
  | Some m_date =>
      let m_amount := search HEADER_AMOUNT_RE line in
      let amount_text := (λ m, Str.strip (group "amount" m)) <$> m_amount in
      let amount_value :=
        match amount_text with
        | Some ((_ :: _) as a) => cz_amount_to_float a
        | _ => None
        end in
      let header_currency :=
        match m_amount with
        | Some m => normalize_currency_token (Some (group "currency" m))
        | None => None
        end in
      let h0 :=
        match m_amount with
        | Some m => take (r_start m) line
        | None => line
        end in
      let h1 := Str.strip (drop (r_end m_date) h0) in
      let card_network :=
        if found (word_ci "VISA") h1 then Some "VISA"
        else if found (word_ci "MASTERCARD") h1 then Some "MASTERCARD"
        else None in
      let m_card :=
        or_else (search CARD_MASK_RE h1)
                (or_else (search CARD_MASK_X_RE h1)
                         (search CARD_MASK_STAR_RE h1)) in
      let card := (λ m, Str.strip (r_text m)) <$> m_card in
      let h2 :=
        match card with
        | Some c => Str.replace c (u " ") h1
        | None => h1
        end in
      let h3 :=
        match card_network with
        | Some network => Re.sub (word_ci network) (u " ") h2
        | None => h2
        end in
      let m_acc := or_else (search ACCOUNT_RE h3) (search ACCOUNT_RE2 h3) in
      let account := r_text <$> m_acc in
      let h4 :=
        match account with
        | Some a => Str.replace a (u " ") h3
        | None => h3
        end in
      let counterparty := Str.strip (Re.sub SPACES_RE (u " ") h4) in
      let popis_hlavicka :=
        match counterparty with
        | [] => VNone
        | _ => VStr counterparty
        end in
      Some {[ "Datum" := VStr (Str.strip (group "1" m_date));
              "Popis_hlavicka" := popis_hlavicka;
              "Protistrana" := VStr counterparty;
              "Protiucet" := opt_str account;
              "Karta" := opt_str card;
              "Karta_sit" := opt_str (u <$> card_network);
              "Castka_raw" := opt_str amount_text;
              "Castka_CZK" := opt_float amount_value;
              "Mena_hlavicka" := opt_str header_currency ]}
  end.

(** [tokens[-k]] of a list that has at least [k] tokens. *)
Definition from_end (k : nat) (tokens : list (list N)) : list N :=
  default [] (tokens !! (length tokens - k)%nat).

Definition clean_symbol (val : list N) : list N :=
  if Str.eqb val (u "-") then [] else val.

Definition parse_detail_main_line (line : list N)
    : gmap string pyval * option (list N) :=
  match rmatch_ DATE_RE line with
  | None => (∅, None)
  | Some m_date =>
      let exec_date := Str.strip (group "1" m_date) in
      let rest := Str.strip (drop (r_end m_date) line) in
      let tokens := Str.split rest in
      if (length tokens <? 4)%nat
      then ({[ "Datum_provedeni" := VStr exec_date ]}, None)
      else
        let code := default [] (head tokens) in
        let vs := from_end 3 tokens in
        let ss := from_end 2 tokens in
        let ks := from_end 1 tokens in
        let type_tokens := drop 1 (take (length tokens - 3) tokens) in
        let ttype := Str.strip (Str.join (u " ") type_tokens) in
        ({[ "Datum_provedeni" := VStr exec_date;
            "Kod_transakce" := VStr code;
            "Typ_transakce" := VStr ttype;
            "VS" := VStr (clean_symbol vs);
            "SS" := VStr (clean_symbol ss);
            "KS" := VStr (clean_symbol ks) ]}, Some ttype)
  end.

(** [normalize_text(current_type or "")]: [unicodedata.normalize] raises
    a [TypeError] on what is not a string. *)
Definition normalized_type (current_type : pyval) : res (list N) :=
  match py_or current_type (VStr []) with
  | VStr t => Ok (normalize_text t)
  | _ => Raise TypeError
  end.

Definition should_append_type (line : list N) (current_type : pyval)
    : res bool :=
  if Str.eqb line [] || Str.eqb (Str.strip line) [] then Ok false
  else if Str.contains (u ":") line then Ok false
  else if Str.contains (u " - ") line then Ok false
  else if Str.contains (u "/") line then Ok false
  else if Str.contains (u "*") line then Ok false
  else
    let n_line := normalize_text line in
    if Str.startswith n_line (u "popis pro me")
       || Str.startswith n_line (u "id souvisejici")
    then Ok false
    else
      n_type ← normalized_type current_type;
      if Str.eqb n_type [] then Ok false
      else
        match last (Str.split n_type) with
        | None => Raise IndexError
        | Some last_word =>
            if bool_decide (last_word ∈ CONTINUATION_TRIGGERS) then Ok true
            else if (length (Str.split n_type) =? 1)%nat
                    && (length (Str.split line) <=? 2)%nat
                    && negb (found d line)
            then Ok true
            else Ok false
        end.

(** What [parse_fx_line] does with a match of each of its three shapes. *)
Definition fx_rate (m_rate : rmatch) (tx : gmap string pyval)
    : gmap string pyval :=
  let tx := set_if_unset "FX_kurz"
              (Str.replace (u " ") [] (group "rate" m_rate)) tx in
  set_if_unset "FX_kurz_mena" (group "currency" m_rate) tx.

Definition fx_date_amount (line : list N) (m_fx : rmatch)
    (tx : gmap string pyval) : gmap string pyval :=
  let tx := set_if_unset "FX_datum" (group "date" m_fx) tx in
  let tx := set_if_unset "FX_castka"
              (Str.replace (u " ") [] (group "amount" m_fx)) tx in
  let tx := set_if_unset "FX_mena" (group "currency" m_fx) tx in
  let prefix := Str.strip (take (r_start m_fx) line) in
  match prefix with
  | [] => tx
  | _ => set_if_unset "FX_info" prefix tx
  end.

Definition fx_amount_only (m_amt : rmatch) (tx : gmap string pyval)
    : gmap string pyval :=
  let tx := set_if_unset "FX_castka"
              (Str.replace (u " ") [] (group "amount" m_amt)) tx in
  set_if_unset "FX_mena" (group "currency" m_amt) tx.

(** The record is changed in place and the verdict returned: here both
    are returned. *)
Definition parse_fx_line (line : list N) (tx : gmap string pyval)
    : bool * gmap string pyval :=
  match rmatch_ FX_RATE_RE line with
  | Some m_rate => (true, fx_rate m_rate tx)
  | None =>
  match search FX_DATE_AMOUNT_RE line with
  | Some m_fx => (true, fx_date_amount line m_fx tx)
  | None =>
  match rmatch_ FX_AMOUNT_ONLY_RE line with
  | Some m_amt => (true, fx_amount_only m_amt tx)
  | None =>
      if Str.contains (u "kurz") (Str.lower line) then (true, tx)
      else (false, tx)
  end end end.

(** The record and the list of supplement lines are changed in place:
    here both are returned. *)
Definition handle_misc_line (line : list N) (tx : gmap string pyval)
    (extra_lines : list (list N)) : gmap string pyval * list (list N) :=
  if is_ignored_line line then (tx, extra_lines)
  else
    let n := normalize_text line in
    let value := Str.strip (Str.after_first_colon line) in
    if Str.startswith n (u "popis pro me")
    then (set_if_unset "Popis_pro_me" value tx, extra_lines)
    else if Str.startswith n (u "id souvisejici platby")
    then (set_if_unset "ID_souvisejici_platby" value tx, extra_lines)
    else if Str.startswith n (u "atm id")
    then (set_if_unset "ATM_ID" value tx, extra_lines)
    else (tx, extra_lines ++ [Str.strip line]).

(** [if not parse_fx_line(line, tx): handle_misc_line(line, tx, extra)] *)
Definition fx_or_misc (line : list N) (tx : gmap string pyval)
    (extra_lines : list (list N)) : gmap string pyval * list (list N) :=
  let '(ok, tx) := parse_fx_line line tx in
  if ok then (tx, extra_lines) else handle_misc_line line tx extra_lines.

(** The state of the walk over the lines after the label: the index, the
    record and the supplement lines. *)
Record walk : Type := Walk {
  w_idx : nat;
  w_tx : gmap string pyval;
  w_extra : list (list N)
}.

(** The first loop of [parse_detail_lines], up to the first line that
    begins with a date; [lines] is [lines[idx:]].  Returns the state and
    the lines not yet read. *)
Fixpoint detail_head (lines : list (list N)) (st : walk)
    : walk * list (list N) :=
  match lines with
  | [] => (st, [])
  | line :: rest =>
      if matches DATE_RE line then (st, lines)
      else
        let '(tx, extra) := fx_or_misc line (w_tx st) (w_extra st) in
        detail_head rest (Walk (S (w_idx st)) tx extra)
  end.

(** The second loop of [parse_detail_lines]; it ends at a [break] or with
    the lines. *)
Fixpoint detail_tail (lines : list (list N)) (st : walk) : res walk :=
  match lines with
  | [] => Ok st
  | line :: rest =>
      let next tx extra := detail_tail rest (Walk (S (w_idx st)) tx extra) in
      if is_message_line line then Ok st
      else
        let '(fx, tx) := parse_fx_line line (w_tx st) in
        if fx then Ok (Walk (w_idx st) tx (w_extra st))
        else if matches DATE_RE line then Ok (Walk (w_idx st) tx (w_extra st))
        else if is_ignored_line line then next tx (w_extra st)
        else
          let tokens := Str.split (Str.strip line) in
          let append_or_misc :=
            ok ← should_append_type line (get tx "Typ_transakce");
            if ok : bool then
              t ← str_add (default (VStr []) (tx !! "Typ_transakce"))
                          (u " " ++ Str.strip line);
              next (<["Typ_transakce" := VStr (Str.strip t)]> tx) (w_extra st)
            else
              let '(tx', extra') := handle_misc_line line tx (w_extra st) in
              next tx' extra' in
          match tokens with
          | first :: others =>
              if truthy (get tx "Kod_transakce")
                 && looks_like_code_fragment first
              then
                c ← str_add (default (VStr []) (tx !! "Kod_transakce")) first;
                let tx1 := <["Kod_transakce" := VStr (Str.strip c)]> tx in
                let extra_type := Str.strip (Str.join (u " ") others) in
                match others, extra_type with
                | _ :: _, _ :: _ =>
                    t ← str_add (default (VStr []) (tx1 !! "Typ_transakce"))
                                (u " " ++ extra_type);
                    next (<["Typ_transakce" := VStr (Str.strip t)]> tx1)
                         (w_extra st)
                | _, _ => next tx1 (w_extra st)
                end
              else append_or_misc
          | [] => append_or_misc
          end
  end.

Definition parse_detail_lines (lines : list (list N))
    (tx : gmap string pyval) : res walk :=
  match detail_head lines (Walk 0 tx []) with
  | (st, []) => Ok st
  | (st, main_line :: rest) =>
      let '(detail_info, _) := parse_detail_main_line main_line in
      detail_tail rest (Walk (S (w_idx st)) (detail_info ∪ w_tx st) (w_extra st))
  end.

(** The loop of [process_block] over the lines the walk left. *)
Fixpoint after_walk (lines : list (list N)) (tx : gmap string pyval)
    (extra_lines : list (list N)) : gmap string pyval * list (list N) :=
  match lines with
  | [] => (tx, extra_lines)
  | line :: rest =>
      if is_ignored_line line then after_walk rest tx extra_lines
      else if is_message_line line then
        let msg :=
          if Str.contains (u ":") line
          then Str.strip (Str.after_first_colon line)
          else Str.strip line in
        after_walk rest (append_field tx "Zprava" msg) extra_lines
      else
        let '(tx', extra') := fx_or_misc line tx extra_lines in
        after_walk rest tx' extra'
  end.

(** The loop of [process_block] over the lines before the label. *)
Definition before_label (lines : list (list N)) (tx : gmap string pyval)
    (extra_lines : list (list N)) : gmap string pyval * list (list N) :=
  foldl (λ '(tx, extra) line, fx_or_misc line tx extra) (tx, extra_lines) lines.

Fixpoint find_label (lines : list (list N)) (i : nat) : option nat :=
  match lines with
  | [] => None
  | l :: rest => if is_label_line l then Some i else find_label rest (S i)
  end.

(** The closing steps of both branches of [process_block]: the FX
    currency default, the audit text, and the header currency dropped. *)
Definition finish (block_lines : list (list N)) (tx : gmap string pyval)
    : gmap string pyval :=
  let tx :=
    if truthy (get tx "FX_mena") then tx
    else <["FX_mena" := py_or (get tx "Mena_hlavicka") (VStr (u "CZK"))]> tx in
  let tx := <["Blok_text" := VStr (Str.join (u " | ") block_lines)]> tx in
  delete "Mena_hlavicka" tx.

Definition process_block (block_lines : list (list N))
    : res (option (gmap string pyval)) :=
  match block_lines with
  | [] => Raise IndexError
  | line0 :: _ =>
      match parse_header_line line0 with
      | None => Ok None
      | Some header =>
          let tx : gmap string pyval :=
            header ∪ list_to_map ((λ col, (col, VNone)) <$> COLUMNS) in
          match find_label block_lines 0 with
          | None => Ok (Some (finish block_lines tx))
          | Some label_idx =>
              let pre_lines := drop 1 (take label_idx block_lines) in
              let post_lines := drop (S label_idx) block_lines in
              let '(tx, extra_lines) := before_label pre_lines tx [] in
              st ← parse_detail_lines post_lines tx;
              let extra_lines := extra_lines ++ w_extra st in
              let '(tx, extra_lines) :=
                after_walk (drop (w_idx st) post_lines) (w_tx st) extra_lines in
              let tx :=
                match extra_lines with
                | [] => tx
                | _ =>
                    <["Doplnek" :=
                        VStr (Str.join (u " | ")
                                (List.filter (λ l, negb (Str.eqb l []))
                                             extra_lines))]> tx
                end in
              Ok (Some (finish block_lines tx))
          end
      end
  end.

(** The segmentation loop of [extract_transactions]: the closed blocks
    and the open one. *)
Fixpoint segment_go (lines : list (list N))
    (blocks : list (list (list N))) (current : list (list N))
    : list (list (list N)) * list (list N) :=
  match lines with
  | [] => (blocks, current)
  | line :: rest =>
      if matches HEADER_RE line then
        segment_go rest
          (match current with [] => blocks | _ => blocks ++ [current] end)
          [line]
      else
        segment_go rest blocks
          (match current with [] => current | _ => current ++ [line] end)
  end.

Definition segment (lines : list (list N)) : list (list (list N)) :=
  let '(blocks, current) := segment_go lines [] [] in
  match current with
  | [] => blocks
  | _ => blocks ++ [current]
  end.

(** The loop of [extract_transactions] over the blocks; an empty
    dictionary is as false as [None]. *)
Fixpoint emit (blocks : list (list (list N)))
    (transactions : list (gmap string pyval))
    : res (list (gmap string pyval)) :=
  match blocks with
  | [] => Ok transactions
  | block :: rest =>
      r ← process_block block;
      match r with
      | Some tx =>
          if bool_decide (tx = ∅) then emit rest transactions
          else emit rest (transactions ++ [tx])
      | None => emit rest transactions
      end
  end.

(** [extract_transactions], from the lines read off the pages. *)
Definition extract_transactions (lines : list (list N))
    : res (list (gmap string pyval)) :=
  emit (segment lines) [].

(** ** What the statements below speak of *)

(** The value of field [key] in the record a block yields, if it yields
    one. *)
Definition field (r : res (option (gmap string pyval))) (key : string)
    : option pyval :=
  match r with
  | Ok (Some tx) => tx !! key
  | _ => None
  end.

(** The lines before the first line of header shape. *)
Fixpoint discarded_prefix (lines : list (list N)) : list (list N) :=
  match lines with
  | [] => []
  | line :: rest =>
      if matches HEADER_RE line then [] else line :: discarded_prefix rest
  end.

(** The lines of the two scenarios. *)
Definition purchase_header : list N :=
  u "12. 3. 2024 SOME SHOP LTD 123456 45** **** 7890 -456,00 CZK".
Definition label_line : list N :=
  u "Datum provedeni Kod transakce Typ transakce VS SS KS".
Definition purchase_detail : list N :=
  u "13. 3. 2024 CODE PLATBA KARTOU - - -".
Definition fx_amount_line : list N := u "10.3.2024 50,00 USD".
Definition fx_rate_line : list N := u "1 USD = 22,50 Kc".

Definition purchase_block : list (list N) :=
  [purchase_header; label_line; purchase_detail].

Definition fx_block : list (list N) :=
  [purchase_header; fx_amount_line; fx_rate_line; label_line;
   purchase_detail].

(** A text that neither begins nor ends with a blank. *)
Definition no_blank_ends (s : list N) : Prop :=
  (∀ c, head s = Some c → is_space c = false)
  ∧ (∀ c, last s = Some c → is_space c = false).

(** The amount parser in the words of its description: a leading minus
    sign is taken off and remembered, spaces and no-break spaces are
    removed, dots are removed when there is a comma, the comma becomes a
    point, the text is read as a number and the sign put back. *)
Definition parse_amount_spec (text : list N) : option pyfloat :=
  let negative := Str.startswith text (u "-") in
  let s1 := if negative then drop 1 text else text in
  let s2 := Str.replace [160] [] (Str.replace (u " ") [] s1) in
  let s3 := if Str.contains (u ",") s2 then Str.replace (u ".") [] s2 else s2 in
  let s4 := Str.replace (u ",") (u ".") s3 in
  match py_float s4 with
  | None => None
  | Some value => Some (if negative then fneg value else value)
  end.










(** The keys a record carries besides the columns: the card network of
    the header and the transient fields of the walk. *)
Definition TRANSIENT_KEYS : list string :=
  [ "Karta_sit"; "FX_datum"; "FX_castka"; "FX_info"; "Popis_pro_me";
    "ID_souvisejici_platby" ].

(** The keys every record has from the header on. *)
Definition REQUIRED_KEYS : list string := "Karta_sit" :: COLUMNS.

(** Every required key is a key of [tx], and every key of [tx] is in
    [allowed]. *)
Definition keys_within (allowed : list string) (tx : gmap string pyval)
    : Prop :=
  list_to_set REQUIRED_KEYS ⊆ dom tx
  ∧ dom tx ⊆ (list_to_set allowed : gset string).

(** All the keys a record has while it is built: the header currency is
    dropped at the end. *)
Definition ALL_KEYS : list string :=
  COLUMNS ++ TRANSIENT_KEYS ++ ["Mena_hlavicka"].

Ltac key_in := apply list_elem_of_In; vm_compute; tauto.

(** The keys the walk over a block writes: those of the FX parser, of
    the miscellaneous lines, of the detail line, and the rest. *)
Definition FX_KEYS : list string :=
  [ "FX_kurz"; "FX_kurz_mena"; "FX_datum"; "FX_castka"; "FX_mena"; "FX_info" ].
Definition MISC_KEYS : list string :=
  [ "Popis_pro_me"; "ID_souvisejici_platby"; "ATM_ID" ].
Definition DETAIL_KEYS : list string :=
  [ "Datum_provedeni"; "Kod_transakce"; "Typ_transakce"; "VS"; "SS"; "KS" ].
Definition WALK_KEYS : list string :=
  FX_KEYS ++ MISC_KEYS ++ DETAIL_KEYS ++ [ "Doplnek"; "Zprava" ].

(** [k] is outside a list of keys that holds the keys of [l]. *)
Ltac outside H :=
  let E := fresh in
  intros E; apply H; revert E; rewrite !list_elem_of_In; vm_compute; tauto.



(** The currency of the header line, null when it has none. *)
Definition header_currency (line0 : list N) : pyval :=
  match parse_header_line line0 with
  | Some header => get header "Mena_hlavicka"
  | None => VNone
  end.

(** A block whose transaction type is a lone diaeresis (U+00A8), followed
    by one more line. *)
Definition diaeresis_block : list (list N) :=
  [ purchase_header; label_line;
    u "1. 1. 2024 CODE " ++ [168] ++ u " - - -"; u "foo" ].

Ltac other_key H := let E := fresh in intros E; apply H; subst; key_in.

(** Whether a block yields a record, and the record it yields. *)
Definition emitted (r : res (option (gmap string pyval))) : bool :=
  match r with
  | Ok (Some _) => true
  | _ => false
  end.

Definition record_of (r : res (option (gmap string pyval)))
    : gmap string pyval :=
  match r with
  | Ok (Some tx) => tx
  | _ => ∅
  end.

(** The record of the purchase block. *)
Definition purchase_record : gmap string pyval :=
  record_of (process_block purchase_block).

(** The blanks at the start of a text. *)
Fixpoint leading_blanks (s : list N) : list N :=
  match s with
  | c :: t => if is_space c then c :: leading_blanks t else []
  | [] => []
  end.

(** What both amount parsers make of the text once the sign is off:
    spaces and no-break spaces removed, dots removed when there is a
    comma, the comma turned into a point. *)
Definition decimal_text (s1 : list N) : list N :=
  let s2 := Str.replace [160] [] (Str.replace (u " ") [] s1) in
  let s3 := if Str.contains (u ",") s2 then Str.replace (u ".") [] s2 else s2 in
  Str.replace (u ",") (u ".") s3.

(** The same, one character at a time; [comma] tells whether the text
    has a comma. *)
Definition decimal_char (comma : bool) (x : N) : list N :=
  if (x =? 32) || (x =? 160) then []
  else if x =? 46 then (if comma then [] else [46])
  else if x =? 44 then [46]
  else [x].

(** The verdict of the FX parser on a line; it does not depend on the
    record. *)
Definition fx_recognized (line : list N) : bool := (parse_fx_line line ∅).1.

(** A line with one of the three labels of [handle_misc_line]. *)
Definition misc_labelled (line : list N) : bool :=
  let n := normalize_text line in
  Str.startswith n (u "popis pro me")
  || Str.startswith n (u "id souvisejici platby")
  || Str.startswith n (u "atm id").

(** A line that no classifier of the walk matches. *)
Definition unclassified (line : list N) : Prop :=
  is_ignored_line line = false
  ∧ fx_recognized line = false
  ∧ is_message_line line = false
  ∧ matches DATE_RE line = false
  ∧ misc_labelled line = false.

(** A line that the walk after the detail line joins neither to the
    transaction code nor to the transaction type, whatever the record. *)
Definition never_joined (line : list N) : Prop :=
  looks_like_code_fragment (default [] (head (Str.split (Str.strip line))))
  = false
  ∧ ∀ v, should_append_type line v ≠ Ok true.

(** The text [s] is a part of the text [t]. *)
Definition part (s t : list N) : Prop := ∃ p q, t = p ++ s ++ q.

(** The three places where the text of a line of the body can be kept:
    the supplement, the transaction type, and the transaction code with
    the type for what follows the fragment of the code. *)
Definition in_supplement (line : list N) (tx : gmap string pyval) : Prop :=
  ∃ extras, tx !! "Doplnek" = Some (VStr (Str.join (u " | ") extras))
            ∧ Str.strip line ∈ extras.

Definition joined_to_type (line : list N) (tx : gmap string pyval) : Prop :=
  ∃ t, tx !! "Typ_transakce" = Some (VStr t) ∧ part (Str.strip line) t.

Definition joined_to_code (line : list N) (tx : gmap string pyval) : Prop :=
  ∃ first others c,
    Str.split (Str.strip line) = first :: others
    ∧ looks_like_code_fragment first = true
    ∧ tx !! "Kod_transakce" = Some (VStr c) ∧ part first c
    ∧ (Str.strip (Str.join (u " ") others) = []
       ∨ ∃ t, tx !! "Typ_transakce" = Some (VStr t)
              ∧ part (Str.strip (Str.join (u " ") others)) t).

(** The same while the block is walked, the supplement being the list
    [extra]. *)
Definition accounted (line : list N) (tx : gmap string pyval)
    (extra : list (list N)) : Prop :=
  Str.strip line ∈ extra ∨ joined_to_type line tx ∨ joined_to_code line tx.

(** From [tx] to [tx'] the transaction code and type have only grown:
    what was a part of them, and has no blank at its ends, still is. *)
Definition grows (tx tx' : gmap string pyval) : Prop :=
  ∀ k, k = "Kod_transakce" ∨ k = "Typ_transakce" →
  ∀ t, tx !! k = Some (VStr t) →
  ∃ t', tx' !! k = Some (VStr t')
        ∧ ∀ s, no_blank_ends s → part s t → part s t'.

(** A line of three plain words after the detail line, a word after a
    detail line whose type ends with a preposition, and a fragment of
    the code with a word after it. *)
Definition plain_line : list N := u "hello world foo".
Definition plain_block : list (list N) :=
  [ purchase_header; label_line; purchase_detail; plain_line ].
Definition continued_block : list (list N) :=
  [ purchase_header; label_line; u "13. 3. 2024 CODE PLATBA ZA - - -";
    u "sluzby" ].
Definition fragment_block : list (list N) :=
  [ purchase_header; label_line; purchase_detail; u "AB12345678 dalsi" ].

(** The scenarios of the supplement: a block without a label line, a
    block with a line about the rate, and a block with a remark. *)
Definition unlabelled_block : list (list N) :=
  [ purchase_header; u "hello" ].
Definition rate_note_block : list (list N) :=
  [ purchase_header; label_line; purchase_detail; u "kurz neznamy" ].
Definition remark_line : list N := u "Poznamka: test".
Definition remark_block : list (list N) :=
  [ purchase_header; label_line; purchase_detail; remark_line ].

(** The domain of a dictionary written out as insertions lies within a
    list of keys. *)
Ltac dom_keys :=
  rewrite ?dom_insert_L, ?dom_singleton_L, ?dom_empty_L;
  repeat (apply union_subseteq; split);
  try apply empty_subseteq;
  apply singleton_subseteq_l, elem_of_list_to_set; key_in.

(** The code points for which the case and decomposition tables are
    written out. *)
Definition tabulated : list N := N.of_nat <$> seq 0 384.

(** * Further definitions *)

(** The segmentation loop begun with [current] as the open block: the
    blocks it has when the lines end, the open one closed. *)
Fixpoint segment_from (current : list (list N)) (lines : list (list N))
    : list (list (list N)) :=
  match lines with
  | [] => match current with [] => [] | _ => [current] end
  | line :: rest =>
      if matches HEADER_RE line
      then match current with [] => [] | _ => [current] end
           ++ segment_from [line] rest
      else segment_from
             (match current with [] => current | _ => current ++ [line] end)
             rest
  end.

(** A block as the segmenter cuts it: a line of header shape, then lines
    that are not. *)
Definition headed_block (block : list (list N)) : Prop :=
  ∃ line0 rest, block = line0 :: rest
    ∧ matches HEADER_RE line0 = true
    ∧ Forall (λ line, matches HEADER_RE line = false) rest.

(** The lines of header shape. *)
Definition header_lines (lines : list (list N)) : list (list N) :=
  List.filter (matches HEADER_RE) lines.

(** The fields of a record that the header line gives. *)
Definition HEADER_KEYS : list string :=
  [ "Datum"; "Popis_hlavicka"; "Protistrana"; "Protiucet"; "Karta";
    "Karta_sit"; "Castka_raw"; "Castka_CZK" ].

(** The record [tx] is the record of [block], with the block as its audit
    text. *)
Definition record_of_block (block : list (list N))
    (tx : gmap string pyval) : Prop :=
  process_block block = Ok (Some tx)
  ∧ tx !! "Blok_text" = Some (VStr (Str.join (u " | ") block)).

(** The transaction code and type of a record in the making are both
    null, or both strings, the type one of which [Q] holds. *)
Definition typed (Q : list N → Prop) (tx : gmap string pyval) : Prop :=
  (tx !! "Kod_transakce" = Some VNone ∧ tx !! "Typ_transakce" = Some VNone)
  ∨ ∃ c t, tx !! "Kod_transakce" = Some (VStr c)
           ∧ tx !! "Typ_transakce" = Some (VStr t) ∧ Q t.

(** Among [lines] is one on which [should_append_type] raises its
    [IndexError], with a transaction type of which [Q] holds. *)
Definition unsafe (Q : list N → Prop) (lines : list (list N)) : Prop :=
  ∃ line t, line ∈ lines ∧ Q t
            ∧ should_append_type line (VStr t) = Raise IndexError.

(** The texts a line adds to the transaction type: the line trimmed, or
    its words after the first. *)
Definition type_addition (line x : list N) : Prop :=
  x = Str.strip line
  ∨ x = Str.strip (Str.join (u " ") (drop 1 (Str.split (Str.strip line)))).

(** A character that is a blank, or of which [normalize_text] keeps a
    character that is no blank: the characters of ASCII and the letters
    with diacritics are such, a letter without decomposition outside
    ASCII is not. *)
Definition plain (c : N) : bool :=
  is_space c || existsb (λ y, negb (is_space y)) (normalize_text [c]).

(** A transaction type whose normalization is empty or has a word: on
    such a type [should_append_type] finds its last word. *)
Definition worded (t : list N) : Prop :=
  normalize_text t = [] ∨ Str.split (normalize_text t) ≠ [].

(** ** Reading the pages and writing the table *)

(** The characters at which [str.splitlines] cuts a text. *)
Definition is_linebreak (c : N) : bool :=
  in_range 10 13 c || in_range 28 30 c || (c =? 133) || (c =? 8232)
  || (c =? 8233).

(** [text.splitlines()]: a carriage return with the line feed after it
    is one cut; [cur] is the line being read, reversed. *)
Fixpoint splitlines_go (s cur : list N) : list (list N) :=
  match s with
  | [] => match cur with [] => [] | _ => [reverse cur] end
  | c :: t =>
      if is_linebreak c then
        reverse cur ::
          match t with
          | c2 :: t2 =>
              if (c =? 13) && (c2 =? 10) then splitlines_go t2 []
              else splitlines_go t []
          | [] => []
          end
      else splitlines_go t (c :: cur)
  end.

Definition splitlines (s : list N) : list (list N) := splitlines_go s [].

(** The first loop of [extract_transactions]: the lines of the pages of
    the document, a page being the text [page.extract_text()] gives, or
    [None]. *)
Definition read_pages (pdf : list (option (list N))) : list (list N) :=
  pdf ≫= λ text, splitlines (default [] text).

Definition PDF_PATH : string := "statement_kb.pdf".
Definition OUTPUT_CSV : string := "transakce.csv".

(** What [main] does to the world: a line printed, a table written by
    [to_csv]. *)
Inductive effect : Type :=
| Print (text : list N)
| ToCsv (path : string) (columns : list string) (rows : list (list pyval)).

(** How [main] ends: with its [FileNotFoundError], with an exception of
    the extraction, or by returning. *)
Inductive main_result : Type :=
| FileNotFound (message : list N)
| Uncaught (e : exn)
| Returned (effects : list effect).

(** [pd.DataFrame(data, columns=columns)]: of each record the values at
    the columns, in their order; a value that is missing and a null are
    the same empty cell. *)
Definition DataFrame (data : list (gmap string pyval))
    (columns : list string) : list (list pyval) :=
  (λ tx, get tx <$> columns) <$> data.

(** [main], given whether the document is a file and the text of its
    pages. *)
Definition main (is_file : bool) (pdf : list (option (list N)))
    : main_result :=
  if negb is_file
  then FileNotFound (u "Soubor statement_kb.pdf neexistuje")
  else
    match extract_transactions (read_pages pdf) with
    | Raise e => Uncaught e
    | Ok [] =>
        Returned
          [Print (u "Nenasly se zadne transakce - mozna jiny format PDF.")]
    | Ok transactions =>
        Returned
          [ToCsv OUTPUT_CSV COLUMNS (DataFrame transactions COLUMNS);
           Print (u "Hotovo. Ulozeno do transakce.csv")]
    end.

(** The effects of a run of [main]. *)
Definition effects_of (r : main_result) : list effect :=
  match r with
  | Returned effects => effects
  | _ => []
  end.

(** A character that [normalize_text] yields: of ASCII, and no capital
    letter. *)
Definition normal_char (c : N) : bool := (c <? 128) && negb (in_range 65 90 c).

(** An entry of the supplement of a block: a line of its body that is
    neither ignorable nor recognized by the FX parser, trimmed. *)
Definition supplement_entry (block : list (list N)) (e : list N) : Prop :=
  e ≠ []
  ∧ ∃ line, line ∈ drop 1 block
            ∧ is_ignored_line line = false
            ∧ fx_recognized line = false
            ∧ e = Str.strip line.

(** ** The texts a pattern matches *)

(** The texts that a match of [r] can consume: the language of [r], its
    anchors and look-arounds taken as the empty text. *)
Fixpoint lang (r : regex) (w : list N) : Prop :=
  match r with
  | REps | RBol | REol | RWordB | RNotBehind _ => w = []
  | RChar cs => ∃ c, w = [c] ∧ cset_mem cs c = true
  | RSeq a b => ∃ w1 w2, w = w1 ++ w2 ∧ lang a w1 ∧ lang b w2
  | RAlt a b => lang a w ∨ lang b w
  | RRep lo hi _ a =>
      ∃ ws, w = concat ws ∧ Forall (lang a) ws ∧ (lo ≤ length ws)%nat
            ∧ match hi with Some h => (length ws ≤ h)%nat | None => True end
  | RGroup _ a => lang a w
  end.

(** The matcher has gone from [st] to [x] over the text [w]. *)
Definition moves (st x : mstate) (w : list N) : Prop :=
  m_rest st = w ++ m_rest x
  ∧ m_pos x = (m_pos st + length w)%nat
  ∧ m_prev x = match last w with Some c => Some c | None => m_prev st end.

(** A pattern without groups, and a pattern with its groups taken off. *)
Fixpoint group_free (r : regex) : bool :=
  match r with
  | RSeq a b | RAlt a b => group_free a && group_free b
  | RRep _ _ _ a => group_free a
  | RGroup _ _ => false
  | _ => true
  end.

Fixpoint erase (r : regex) : regex :=
  match r with
  | RSeq a b => RSeq (erase a) (erase b)
  | RAlt a b => RAlt (erase a) (erase b)
  | RRep lo hi greedy a => RRep lo hi greedy (erase a)
  | RGroup _ a => erase a
  | _ => r
  end.

Definition clear_groups (st : mstate) : mstate :=
  MState (m_prev st) (m_rest st) (m_pos st) [].

(** The position [k] characters on from where [prev] precedes [rest] at
    index [pos], no group captured. *)
Definition at_offset (prev : option N) (rest : list N) (pos k : nat)
    : mstate :=
  MState (match last (take k rest) with Some c => Some c | None => prev end)
         (drop k rest) (pos + k) [].

(** A character of the digits of an amount token: a digit, a space or a
    dot. *)
Definition amount_char (c : N) : bool :=
  is_digit c || (c =? 32) || (c =? 46).

(** The shape of an amount token: a minus sign or none, blanks, digits
    with spaces and dots begun by a digit, a comma and two digits. *)
Definition amount_shape (w : list N) : Prop :=
  ∃ sgn ws body d1 d2,
    w = sgn ++ ws ++ body ++ [44; d1; d2]
    ∧ (sgn = [] ∨ sgn = [45])
    ∧ Forall (λ c, is_space c = true) ws
    ∧ Forall (λ c, amount_char c = true) body
    ∧ (∃ c, head body = Some c ∧ is_digit c = true)
    ∧ is_digit d1 = true ∧ is_digit d2 = true.

(** The number [f] is the double nearest to the digits of [raw] read as
    a count of hundredths (infinity when they are beyond the doubles),
    negated when [raw] begins with a minus sign. *)
Definition hundredths_of (raw : list N) (f : pyfloat) : Prop :=
  f = to_double (Str.startswith raw (u "-"))
                (digits_value (List.filter is_digit raw)) (-2).

(** A currency code: three capital letters of ASCII. *)
Definition currency_code (cur : list N) : Prop :=
  length cur = 3%nat ∧ Forall (λ c, in_range 65 90 c = true) cur.

(** The FX currency of a record in the making is unset or a currency
    code. *)
Definition coded (tx : gmap string pyval) : Prop :=
  get tx "FX_mena" = VNone
  ∨ ∃ cur, get tx "FX_mena" = VStr cur ∧ currency_code cur.

(** A letter or digit of ASCII: the class [[A-Za-z0-9]]. *)
Definition is_alnum (c : N) : bool :=
  in_range 65 90 c || in_range 97 122 c || in_range 48 57 c.

(** The fields of the three payment symbols. *)
Definition SYMBOL_KEYS : list string := [ "VS"; "SS"; "KS" ].

(** A payment symbol as a record holds it: null, or a string without a
    blank that is not the dash. *)
Definition symbol_value (v : pyval) : Prop :=
  v = VNone
  ∨ ∃ t, v = VStr t ∧ t ≠ u "-" ∧ Forall (λ c, is_space c = false) t.

(** The shape of a date as the patterns capture it: a day and a month of
    one or two digits, each with a dot and maybe blanks after it, and a
    year of four digits. *)
Definition date_shape (t : list N) : Prop :=
  ∃ dd sp1 mm sp2 yyyy,
    t = dd ++ [46] ++ sp1 ++ mm ++ [46] ++ sp2 ++ yyyy
    ∧ Forall (λ c, is_digit c = true) dd ∧ (1 ≤ length dd ≤ 2)%nat
    ∧ Forall (λ c, is_space c = true) sp1
    ∧ Forall (λ c, is_digit c = true) mm ∧ (1 ≤ length mm ≤ 2)%nat
    ∧ Forall (λ c, is_space c = true) sp2
    ∧ Forall (λ c, is_digit c = true) yyyy ∧ length yyyy = 4%nat.

(** A date field of a record: null, or a string of the shape of a
    date. *)
Definition date_value (v : pyval) : Prop :=
  v = VNone ∨ ∃ t, v = VStr t ∧ date_shape t.

(** The message of a message line: what follows its first colon, or the
    line when it has none, trimmed. *)
Definition message_text (line : list N) : list N :=
  if Str.contains (u ":") line
  then Str.strip (Str.after_first_colon line)
  else Str.strip line.

(** An entry of the message of a block: the message, not empty, of a
    message line of its body that is not ignorable. *)
Definition message_entry (block : list (list N)) (e : list N) : Prop :=
  e ≠ []
  ∧ ∃ line, line ∈ drop 1 block
            ∧ is_ignored_line line = false
            ∧ is_message_line line = true
            ∧ e = message_text line.

(** A message field: null, or entries of which [G] holds, at least one,
    joined by [" | "]. *)
Definition messages_of (G : list N → Prop) (v : option pyval) : Prop :=
  v = Some VNone
  ∨ ∃ msgs, msgs ≠ [] ∧ Forall G msgs
            ∧ v = Some (VStr (Str.join (u " | ") msgs)).

(** * Properties *)

Lemma emitted_record (r : res (option (gmap string pyval))) :
  emitted r = true → r = Ok (Some (record_of r)).
Proof. by destruct r as [[tx|]|]. Qed.

(** ** The two scenarios *)

(** C1, as the code has it: in the block made of the purchase header,
    the two FX lines, a label line and the detail line, the record has FX
    currency USD, FX amount 50,00, FX rate 22,50, and its FX rate currency
    field holds USD, the currency read off the rate line; and the same
    four values come out of the two lines on any record whose FX fields
    are unset. *)
Theorem fx_scenario :
  (field (process_block fx_block) "FX_mena" = Some (VStr (u "USD"))
   ∧ field (process_block fx_block) "FX_castka" = Some (VStr (u "50,00"))
   ∧ field (process_block fx_block) "FX_kurz" = Some (VStr (u "22,50"))
   ∧ field (process_block fx_block) "FX_kurz_mena" = Some (VStr (u "USD")))
  ∧ ∀ tx : gmap string pyval,
      truthy (get tx "FX_mena") = false →
      truthy (get tx "FX_castka") = false →
      truthy (get tx "FX_kurz") = false →
      truthy (get tx "FX_kurz_mena") = false →
      let tx' := (parse_fx_line fx_rate_line
                    (parse_fx_line fx_amount_line tx).2).2 in
      tx' !! "FX_mena" = Some (VStr (u "USD"))
      ∧ tx' !! "FX_castka" = Some (VStr (u "50,00"))
      ∧ tx' !! "FX_kurz" = Some (VStr (u "22,50"))
      ∧ tx' !! "FX_kurz_mena" = Some (VStr (u "USD")).
Proof.
  split; [by vm_compute|].
  intros tx Hm Hc Hk Hkm.
  assert (Ha : ∀ t, parse_fx_line fx_amount_line t =
    (true, set_if_unset "FX_mena" (u "USD")
             (set_if_unset "FX_castka" (u "50,00")
                (set_if_unset "FX_datum" (u "10.3.2024") t)))).
  { intros t. unfold parse_fx_line.
    replace (rmatch_ FX_RATE_RE fx_amount_line) with (@None rmatch)
      by (by vm_compute).
    replace (search FX_DATE_AMOUNT_RE fx_amount_line) with
      (Some (RMatch 0 19 fx_amount_line
               [("currency", u "USD"); ("amount", u "50,00");
                ("date", u "10.3.2024")])) by (by vm_compute).
    reflexivity. }
  assert (Hr : ∀ t, parse_fx_line fx_rate_line t =
    (true, set_if_unset "FX_kurz_mena" (u "USD")
             (set_if_unset "FX_kurz" (u "22,50") t))).
  { intros t. unfold parse_fx_line.
    replace (rmatch_ FX_RATE_RE fx_rate_line) with
      (Some (RMatch 0 16 fx_rate_line
               [("rate", u "22,50"); ("currency", u "USD")]))
      by (by vm_compute).
    reflexivity. }
  rewrite Ha, Hr. cbn [snd].
  assert (Hother : ∀ k k' v t, k ≠ k' →
            set_if_unset k v t !! k' = t !! k').
  { intros k k' v t Hne. unfold set_if_unset.
    destruct (truthy (get t k)); [done | by rewrite lookup_insert_ne]. }
  assert (Hfresh : ∀ k v t, truthy (get t k) = false →
            set_if_unset k v t !! k = Some (VStr v)).
  { intros k v t Hf. unfold set_if_unset. rewrite Hf.
    apply lookup_insert_eq. }
  repeat split.
  - rewrite !(Hother _ "FX_mena") by done. apply Hfresh.
    unfold get. by rewrite !(Hother _ "FX_mena").
  - rewrite !(Hother _ "FX_castka") by done. apply Hfresh.
    unfold get. by rewrite !(Hother _ "FX_castka").
  - rewrite !(Hother _ "FX_kurz") by done. apply Hfresh.
    unfold get. by rewrite !(Hother _ "FX_kurz").
  - apply Hfresh. unfold get. by rewrite !(Hother _ "FX_kurz_mena").
Qed.

(** C1 on the empty record. *)
Lemma fx_scenario_witness :
  (parse_fx_line fx_rate_line (parse_fx_line fx_amount_line ∅).2).2
    !! "FX_mena" = Some (VStr (u "USD"))
  ∧ (parse_fx_line fx_rate_line (parse_fx_line fx_amount_line ∅).2).2
    !! "FX_castka" = Some (VStr (u "50,00"))
  ∧ (parse_fx_line fx_rate_line (parse_fx_line fx_amount_line ∅).2).2
    !! "FX_kurz" = Some (VStr (u "22,50"))
  ∧ (parse_fx_line fx_rate_line (parse_fx_line fx_amount_line ∅).2).2
    !! "FX_kurz_mena" = Some (VStr (u "USD")).
Proof. apply (proj2 fx_scenario ∅); reflexivity. Defined.

(** C1, as the claim has it, fails: the FX rate currency field of that
    record is USD, not CZK; no currency normalization is applied to it. *)
Lemma fx_scenario_rate_currency :
  field (process_block fx_block) "FX_kurz_mena" = Some (VStr (u "USD"))
  ∧ VStr (u "USD") ≠ VStr (u "CZK").
Proof. split; [by vm_compute | by intros [=]]. Qed.

(** C2, as the code has it: for the header line, a label line and the
    detail line of the scenario, the record has the date and the execution
    date as written on the lines, no card mask (none of the three card
    shapes matches [123456 45** **** 7890]), the counterparty with the
    digits left in it, amount -456.00, code CODE, type PLATBA KARTOU and
    three empty symbols. *)
Theorem purchase_scenario :
  let r := process_block purchase_block in
  field r "Datum" = Some (VStr (u "12. 3. 2024"))
  ∧ field r "Protistrana" =
      Some (VStr (u "SOME SHOP LTD 123456 45** **** 7890"))
  ∧ field r "Karta" = Some VNone
  ∧ field r "Castka_CZK" = Some (VFloat (FNum true 456 0))
  ∧ field r "Datum_provedeni" = Some (VStr (u "13. 3. 2024"))
  ∧ field r "Kod_transakce" = Some (VStr (u "CODE"))
  ∧ field r "Typ_transakce" = Some (VStr (u "PLATBA KARTOU"))
  ∧ field r "VS" = Some (VStr [])
  ∧ field r "SS" = Some (VStr [])
  ∧ field r "KS" = Some (VStr []).
Proof. by vm_compute. Qed.

(** C2, as the claim has it, fails: the record has no card mask, and its
    counterparty is not SOME SHOP LTD. *)
Lemma purchase_scenario_card :
  field (process_block purchase_block) "Karta" = Some VNone
  ∧ field (process_block purchase_block) "Protistrana"
    = Some (VStr (u "SOME SHOP LTD 123456 45** **** 7890"))
  ∧ search CARD_MASK_RE (u "SOME SHOP LTD 123456 45** **** 7890") = None.
Proof. by vm_compute. Qed.

(** ** Segmentation *)

Lemma segment_go_cover lines blocks current :
  let '(blocks', current') := segment_go lines blocks current in
  concat blocks' ++ current' =
    concat blocks ++ current ++
      match current with
      | [] => drop (length (discarded_prefix lines)) lines
      | _ => lines
      end.
Proof.
  revert blocks current.
  induction lines as [|line rest IH]; intros blocks current; simpl.
  - destruct current; by rewrite ?app_nil_r.
  - destruct (matches HEADER_RE line) eqn:Hh.
    + specialize (IH (match current with [] => blocks | _ => blocks ++ [current] end) [line]).
      destruct (segment_go rest _ [line]) as [blocks' current'].
      rewrite IH. destruct current as [|c cs]; simpl.
      * done.
      * rewrite concat_app. simpl. by rewrite app_nil_r, <- !app_assoc.
    + specialize (IH blocks (match current with [] => current | _ => current ++ [line] end)).
      destruct (segment_go rest blocks _) as [blocks' current'].
      rewrite IH. destruct current as [|c cs]; simpl.
      * done.
      * by rewrite <- !app_assoc.
Qed.

Lemma discarded_prefix_is_prefix lines :
  take (length (discarded_prefix lines)) lines = discarded_prefix lines.
Proof.
  induction lines as [|line rest IH]; simpl; [done|].
  destruct (matches HEADER_RE line); simpl; [done|]. by rewrite IH.
Qed.

(** C3: the lines before the first line of header shape, followed by the
    lines of the blocks in order, are the input; the discarded lines hold
    no line of header shape, and they end at the first such line or with
    the input. *)
Theorem segmentation_coverage (lines : list (list N)) :
  discarded_prefix lines ++ concat (segment lines) = lines
  ∧ Forall (λ line, matches HEADER_RE line = false) (discarded_prefix lines)
  ∧ (∀ line, drop (length (discarded_prefix lines)) lines !! 0%nat = Some line →
       matches HEADER_RE line = true).
Proof.
  split; [|split].
  - unfold segment.
    pose proof (segment_go_cover lines [] []) as H.
    destruct (segment_go lines [] []) as [blocks current].
    simpl in H.
    assert (concat (match current with [] => blocks | _ => blocks ++ [current] end)
            = concat blocks ++ current) as ->.
    { destruct current; [by rewrite app_nil_r|].
      rewrite concat_app. simpl. by rewrite app_nil_r. }
    rewrite H, <- discarded_prefix_is_prefix at 1.
    apply take_drop.
  - induction lines as [|line rest IH]; simpl; [constructor|].
    destruct (matches HEADER_RE line) eqn:E; constructor; done.
  - induction lines as [|line rest IH]; simpl; [done|].
    destruct (matches HEADER_RE line) eqn:E; simpl; [|done].
    intros line0 [= <-]. done.
Qed.

(** C3 at a stream with one line before the header. *)
Lemma segmentation_coverage_witness :
  discarded_prefix [u "x"; purchase_header; purchase_detail] = [u "x"]
  ∧ matches HEADER_RE purchase_header = true.
Proof.
  split; [vm_compute; reflexivity|].
  apply (proj2 (proj2 (segmentation_coverage
                         [u "x"; purchase_header; purchase_detail]))
               purchase_header).
  vm_compute. reflexivity.
Defined.

(** ** The Unicode tables *)

Lemma tabulated_in (c : N) : c < 384 → c ∈ tabulated.
Proof.
  intros Hc. unfold tabulated.
  apply list_elem_of_fmap. exists (N.to_nat c). split; [lia|].
  apply elem_of_seq. lia.
Qed.

Lemma assoc_above {A} (n c : N) (t : list (N * A)) :
  forallb (λ kv, kv.1 <? n) t = true → n ≤ c → assoc c t = None.
Proof.
  intros Ht Hc. induction t as [|[k v] t IH]; simpl in *; [done|].
  apply andb_prop in Ht as [Hk Ht]. apply N.ltb_lt in Hk.
  destruct (N.eqb_spec k c); [lia | by apply IH].
Qed.

Lemma upper_char_above (c : N) : 384 ≤ c → upper_char c = [c].
Proof.
  intros Hc. unfold upper_char.
  rewrite (assoc_above 384 c upper_table) by (done || by vm_compute).
  unfold in_range. destruct (N.leb_spec c 122); [lia|].
  by rewrite andb_false_r.
Qed.

(** A property of code points that holds of each tabulated one and of
    every one above the tables holds of all. *)
Lemma by_table (P : N → bool) :
  forallb P tabulated = true → (∀ c, 384 ≤ c → P c = true) → ∀ c, P c = true.
Proof.
  intros Ht Ha c. destruct (N.lt_ge_cases c 384) as [Hc|Hc]; [|by apply Ha].
  rewrite forallb_forall in Ht. apply Ht, list_elem_of_In, tabulated_in, Hc.
Qed.

Lemma is_space_above (c : N) : 384 ≤ c → is_space c = true → 5760 ≤ c.
Proof.
  unfold is_space, in_range. intros Hc H.
  repeat (apply orb_prop in H as [H|H]);
    repeat (apply andb_prop in H as [? ?]);
    repeat match goal with
           | H : (_ =? _) = true |- _ => apply N.eqb_eq in H
           | H : (_ <=? _) = true |- _ => apply N.leb_le in H
           end; lia.
Qed.

(** The upper case of a character that is no blank has no blank and is
    not empty. *)
Lemma upper_char_no_space (c : N) :
  is_space c = false →
  upper_char c ≠ [] ∧ Forall (λ x, is_space x = false) (upper_char c).
Proof.
  intros Hc.
  pose (P := λ c, is_space c
               || (negb (bool_decide (upper_char c = []))
                   && forallb (λ x, negb (is_space x)) (upper_char c))).
  assert (HP : P c = true).
  { apply by_table; [by vm_compute|].
    intros x Hx. unfold P. rewrite (upper_char_above x Hx).
    destruct (is_space x) eqn:E; [done|].
    rewrite bool_decide_false by done. simpl. by rewrite E. }
  unfold P in HP. rewrite Hc in HP. simpl in HP.
  apply andb_prop in HP as [H1 H2]. split.
  - intros E. by rewrite E in H1.
  - rewrite forallb_forall in H2. apply Forall_forall.
    intros x Hx%list_elem_of_In. apply H2 in Hx. by destruct (is_space x).
Qed.

(** Upper case is idempotent on every character. *)
Lemma upper_char_idem (c : N) : upper_char c ≫= upper_char = upper_char c.
Proof.
  pose (P := λ c, bool_decide (upper_char c ≫= upper_char = upper_char c)).
  assert (HP : P c = true).
  { apply by_table; [by vm_compute|].
    intros x Hx. unfold P. rewrite (upper_char_above x Hx). simpl.
    rewrite (upper_char_above x Hx). by rewrite bool_decide_true. }
  unfold P in HP. by apply bool_decide_eq_true in HP.
Qed.

(** ** [strip] and [upper] *)

Lemma lstrip_head (s : list N) (c : N) :
  head (Str.lstrip s) = Some c → is_space c = false.
Proof.
  induction s as [|a t IH]; simpl; [done|].
  destruct (is_space a) eqn:E; [done|]. simpl. by intros [= <-].
Qed.

Lemma lstrip_last (s : list N) (c : N) :
  last (Str.lstrip s) = Some c → last s = Some c.
Proof.
  induction s as [|a t IH]; simpl; [done|].
  destruct (is_space a) eqn:E; [|done].
  intros H. rewrite last_cons, (IH H). done.
Qed.

Lemma lstrip_fixed (s : list N) :
  (∀ c, head s = Some c → is_space c = false) → Str.lstrip s = s.
Proof.
  destruct s as [|a t]; simpl; [done|].
  intros H. by rewrite (H a eq_refl).
Qed.

Lemma strip_ends (s : list N) : no_blank_ends (Str.strip s).
Proof.
  unfold Str.strip, Str.rstrip. split; intros c.
  - rewrite head_reverse. intros H%lstrip_last.
    rewrite last_reverse in H. by apply lstrip_head in H.
  - rewrite last_reverse. apply lstrip_head.
Qed.

Lemma strip_fixed (s : list N) : no_blank_ends s → Str.strip s = s.
Proof.
  intros [Hh Hl]. unfold Str.strip, Str.rstrip.
  rewrite (lstrip_fixed s Hh), lstrip_fixed, reverse_involutive; [done|].
  intros c. rewrite head_reverse. apply Hl.
Qed.

Lemma upper_ends (s : list N) :
  no_blank_ends s → no_blank_ends (Str.upper s).
Proof.
  intros [Hh Hl]. unfold Str.upper. split; intros c.
  - destruct s as [|a t]; [done|].
    destruct (upper_char_no_space a (Hh a eq_refl)) as [Hne Hall].
    rewrite bind_cons, head_app.
    destruct (upper_char a) as [|x l] eqn:E; [done|]. simpl.
    intros [= <-]. by inversion Hall.
  - destruct (last s) as [a|] eqn:E.
    + apply last_Some in E as [t ->].
      destruct (upper_char_no_space a (Hl a eq_refl)) as [Hne Hall].
      rewrite bind_app, bind_singleton, last_app.
      destruct (last (upper_char a)) as [y|] eqn:Ey.
      * intros [= <-]. apply last_Some_elem_of in Ey.
        rewrite Forall_forall in Hall. by apply Hall.
      * by apply last_None in Ey.
    + apply last_None in E as ->. done.
Qed.

Lemma upper_idem (s : list N) : Str.upper (Str.upper s) = Str.upper s.
Proof.
  unfold Str.upper. induction s as [|a t IH]; [done|].
  by rewrite bind_cons, bind_app, IH, upper_char_idem.
Qed.

Lemma lstrip_snoc (l : list N) (c : N) :
  is_space c = false → ∃ k, Str.lstrip (l ++ [c]) = k ++ [c].
Proof.
  intros Hc. induction l as [|z l IH]; simpl.
  - exists []. by rewrite Hc.
  - destruct (is_space z); [done|]. by exists (z :: l).
Qed.

Lemma rstrip_cons (c : N) (t : list N) :
  is_space c = false → ∃ r, Str.rstrip (c :: t) = c :: r.
Proof.
  intros Hc. unfold Str.rstrip. rewrite reverse_cons.
  destruct (lstrip_snoc (reverse t) c Hc) as [k ->].
  rewrite reverse_snoc. by eexists.
Qed.

(** ** Currency normalization *)

(** C7, as the code has it: normalizing twice is normalizing once for
    every token whose normalization is not the empty string (that of a
    token of blanks alone); and a token that begins with [K] or [k] is
    normalized to CZK. *)
Theorem normalize_currency_idempotent :
  (∀ x : option (list N),
     normalize_currency_token x ≠ Some [] →
     normalize_currency_token (normalize_currency_token x)
     = normalize_currency_token x)
  ∧ (∀ (c : N) (t : list N),
       c = 75 ∨ c = 107 →
       normalize_currency_token (Some (c :: t)) = Some (u "CZK")).
Proof.
  split.
  - intros [[|a t]|]; [done| |done].
    intros Hne. unfold normalize_currency_token at 2 3.
    unfold normalize_currency_token in Hne.
    set (t' := Str.upper (Str.strip (a :: t))) in *.
    destruct (Str.startswith t' (u "K")) eqn:EK; [by vm_compute|].
    destruct t' as [|b t''] eqn:Et; [done|].
    unfold normalize_currency_token. rewrite <- Et.
    assert (Hfix : Str.upper (Str.strip t') = t').
    { rewrite strip_fixed.
      - subst t'. apply upper_idem.
      - subst t'. apply upper_ends, strip_ends. }
    rewrite Hfix. rewrite Et at 1. by rewrite Et, EK.
  - intros c t Hc.
    assert (Hsp : is_space c = false) by (by destruct Hc as [-> | ->]).
    destruct (rstrip_cons c t Hsp) as [r Hr].
    unfold normalize_currency_token, Str.strip.
    rewrite (lstrip_fixed (c :: t)) by (by intros ? [= <-]).
    rewrite Hr. unfold Str.upper. rewrite bind_cons.
    destruct Hc as [-> | ->]; reflexivity.
Qed.

(** C7 at two tokens. *)
Lemma normalize_currency_idempotent_witness :
  normalize_currency_token (normalize_currency_token (Some (u " usd ")))
  = normalize_currency_token (Some (u " usd "))
  ∧ normalize_currency_token (Some (u "kc")) = Some (u "CZK").
Proof.
  split.
  - apply (proj1 normalize_currency_idempotent (Some (u " usd "))).
    vm_compute. discriminate.
  - apply (proj2 normalize_currency_idempotent 107 (u "c")). right.
    reflexivity.
Defined.

(** C7, as the claim has it, fails at the token of one blank: its
    normalization is the empty string, whose normalization is null. *)
Lemma normalize_currency_blank :
  normalize_currency_token (Some (u " ")) = Some []
  ∧ normalize_currency_token (normalize_currency_token (Some (u " "))) = None.
Proof. by vm_compute. Qed.

(** ** The FX line parser *)

Lemma set_if_unset_other (k k' : string) (v : list N)
    (tx : gmap string pyval) :
  k ≠ k' → set_if_unset k v tx !! k' = tx !! k'.
Proof.
  intros Hne. unfold set_if_unset.
  destruct (truthy (get tx k)); [done|]. by rewrite lookup_insert_ne.
Qed.















(** ** Invariants of the walk over a block

    A property of the record that every step of the walk keeps is kept by
    the whole walk.  [P] holds of the lines walked over. *)

Section walk_invariant.

Context (I : gmap string pyval → Prop) (P : list N → Prop).

Hypothesis I_fx : ∀ line tx, P line → I tx → I (parse_fx_line line tx).2.
Hypothesis I_misc : ∀ line tx extra,
  P line → I tx → I (handle_misc_line line tx extra).1.
Hypothesis I_insert : ∀ k v tx,
  k = "Kod_transakce" ∨ k = "Typ_transakce" ∨ k = "Doplnek" →
  I tx → I (<[k := v]> tx).
Hypothesis I_main : ∀ line tx,
  P line → I tx → I ((parse_detail_main_line line).1 ∪ tx).
Hypothesis I_msg : ∀ tx v, I tx → I (append_field tx "Zprava" v).

Lemma fx_or_misc_inv line tx extra :
  P line → I tx → I (fx_or_misc line tx extra).1.
Proof.
  intros HP HI. unfold fx_or_misc.
  pose proof (I_fx line tx HP HI) as H.
  destruct (parse_fx_line line tx) as [[] tx']; simpl in *; [done|].
  by apply I_misc.
Qed.

Lemma before_label_inv lines tx extra :
  Forall P lines → I tx → I (before_label lines tx extra).1.
Proof.
  unfold before_label. intros HP. revert tx extra.
  induction HP as [|line rest Hl _ IH]; intros tx extra HI; simpl; [done|].
  pose proof (fx_or_misc_inv line tx extra Hl HI) as H.
  destruct (fx_or_misc line tx extra) as [tx' extra']. by apply IH.
Qed.

Lemma detail_head_inv lines st :
  Forall P lines → I (w_tx st) →
  I (w_tx (detail_head lines st).1) ∧ Forall P (detail_head lines st).2.
Proof.
  intros HP. revert st.
  induction HP as [|line rest Hl Hr IH]; intros st HI; simpl; [done|].
  destruct (matches DATE_RE line); simpl; [by split; [|constructor]|].
  pose proof (fx_or_misc_inv line (w_tx st) (w_extra st) Hl HI) as H.
  destruct (fx_or_misc line (w_tx st) (w_extra st)) as [tx' extra'].
  by apply IH.
Qed.

Lemma detail_tail_inv lines st st' :
  Forall P lines → I (w_tx st) → detail_tail lines st = Ok st' → I (w_tx st').
Proof.
  intros HP. revert st.
  induction HP as [|line rest Hl Hr IH]; intros st HI; simpl.
  { by intros [= <-]. }
  destruct (is_message_line line); [by intros [= <-]|].
  pose proof (I_fx line (w_tx st) Hl HI) as Hfx.
  destruct (parse_fx_line line (w_tx st)) as [fx tx]. simpl in Hfx.
  destruct fx; [by intros [= <-]|].
  destruct (matches DATE_RE line); [by intros [= <-]|].
  destruct (is_ignored_line line); [by apply IH|].
  assert (Hmisc :
    (ok ← should_append_type line (get tx "Typ_transakce");
     if ok : bool then
       t ← str_add (default (VStr []) (tx !! "Typ_transakce"))
                   (u " " ++ Str.strip line);
       detail_tail rest
         (Walk (S (w_idx st)) (<["Typ_transakce" := VStr (Str.strip t)]> tx)
               (w_extra st))
     else
       let '(tx', extra') := handle_misc_line line tx (w_extra st) in
       detail_tail rest (Walk (S (w_idx st)) tx' extra')) = Ok st' →
    I (w_tx st')).
  { destruct (should_append_type line (get tx "Typ_transakce")) as [[]|];
      simpl; [| |done].
    - destruct (str_add _ _) as [t|]; simpl; [|done].
      apply IH. simpl. apply I_insert; auto.
    - pose proof (I_misc line tx (w_extra st) Hl Hfx) as Hm.
      destruct (handle_misc_line line tx (w_extra st)) as [tx' extra'].
      by apply IH. }
  destruct (Str.split (Str.strip line)) as [|first others]; [done|].
  destruct (truthy (get tx "Kod_transakce") && looks_like_code_fragment first);
    [|done].
  destruct (str_add _ first) as [c|]; simpl; [|done].
  assert (Hk : I (<["Kod_transakce" := VStr (Str.strip c)]> tx))
    by (apply I_insert; auto).
  destruct others as [|o os]; [by apply IH|].
  destruct (Str.strip (Str.join (u " ") (o :: os))) as [|e es]; [by apply IH|].
  destruct (str_add (default (VStr []) (<[_:=_]> tx !! _)) _) as [t|];
    simpl; [|done].
  apply IH. simpl. apply I_insert; auto.
Qed.

Lemma parse_detail_lines_inv lines tx st :
  Forall P lines → I tx → parse_detail_lines lines tx = Ok st → I (w_tx st).
Proof.
  intros HP HI. unfold parse_detail_lines.
  destruct (detail_head_inv lines (Walk 0 tx []) HP HI) as [H1 H2].
  destruct (detail_head lines (Walk 0 tx [])) as [st1 [|main_line rest]];
    simpl in *; [by intros [= <-]|].
  inversion H2 as [|? ? Hm Hrest]; subst.
  pose proof (I_main main_line (w_tx st1) Hm H1) as H.
  destruct (parse_detail_main_line main_line) as [detail_info ?].
  by apply detail_tail_inv.
Qed.

Lemma after_walk_inv lines tx extra :
  Forall P lines → I tx → I (after_walk lines tx extra).1.
Proof.
  intros HP. revert tx extra.
  induction HP as [|line rest Hl _ IH]; intros tx extra HI; simpl; [done|].
  destruct (is_ignored_line line); [by apply IH|].
  destruct (is_message_line line); [by apply IH, I_msg|].
  pose proof (fx_or_misc_inv line tx extra Hl HI) as H.
  destruct (fx_or_misc line tx extra) as [tx' extra']. by apply IH.
Qed.

(** The record of an accepted block is [finish] of a record on which the
    invariant holds, if it holds after the header is laid over the empty
    record. *)
Lemma process_block_inv block line0 rest header tx :
  block = line0 :: rest →
  Forall P rest →
  parse_header_line line0 = Some header →
  I (header ∪ list_to_map ((λ col, (col, VNone)) <$> COLUMNS)) →
  process_block block = Ok (Some tx) →
  ∃ tx0, I tx0 ∧ tx = finish block tx0.
Proof.
  intros -> HP Hh HI. unfold process_block. rewrite Hh.
  set (tx0 := header ∪ _) in *.
  destruct (find_label (line0 :: rest) 0) as [label_idx|];
    [|intros [= <-]; by exists tx0].
  assert (Hpre : Forall P (drop 1 (take label_idx (line0 :: rest)))).
  { destruct label_idx; simpl; [constructor|].
    rewrite drop_0. by apply Forall_take. }
  assert (Hpost : Forall P (drop (S label_idx) (line0 :: rest)))
    by (simpl; by apply Forall_drop).
  pose proof (before_label_inv _ tx0 [] Hpre HI) as H1.
  destruct (before_label _ tx0 []) as [tx1 extra1]. simpl in H1.
  destruct (parse_detail_lines _ tx1) as [st|] eqn:Est; simpl; [|done].
  pose proof (parse_detail_lines_inv _ _ _ Hpost H1 Est) as H2.
  pose proof (after_walk_inv (drop (w_idx st) (drop (S label_idx) (line0 :: rest)))
                (w_tx st) (extra1 ++ w_extra st)
                (Forall_drop _ _ _ Hpost) H2) as H3.
  destruct (after_walk _ (w_tx st) _) as [tx3 extra3]. simpl in H3.
  intros [= <-].
  destruct extra3; [by exists tx3|].
  eexists. split; [|done]. apply I_insert; auto.
Qed.

End walk_invariant.

(** ** The keys of a record *)

Lemma keys_insert allowed k v tx :
  k ∈ allowed → keys_within allowed tx → keys_within allowed (<[k := v]> tx).
Proof.
  intros Hk [H1 H2]. unfold keys_within. rewrite dom_insert_L.
  split; [by etrans; [exact H1 | apply union_subseteq_r]|].
  apply union_subseteq. split; [|done].
  apply singleton_subseteq_l. by apply elem_of_list_to_set.
Qed.

Lemma keys_set_if_unset allowed k v tx :
  k ∈ allowed → keys_within allowed tx →
  keys_within allowed (set_if_unset k v tx).
Proof.
  intros Hk H. unfold set_if_unset.
  destruct (truthy (get tx k)); [done | by apply keys_insert].
Qed.

Lemma keys_union allowed (m tx : gmap string pyval) :
  dom m ⊆ (list_to_set allowed : gset string) →
  keys_within allowed tx → keys_within allowed (m ∪ tx).
Proof.
  intros Hm [H1 H2]. unfold keys_within. rewrite dom_union_L. split.
  - by etrans; [exact H1 | apply union_subseteq_r].
  - by apply union_subseteq.
Qed.

Lemma keys_parse_fx_line line tx :
  keys_within ALL_KEYS tx → keys_within ALL_KEYS (parse_fx_line line tx).2.
Proof.
  intros H. unfold parse_fx_line, fx_rate, fx_date_amount, fx_amount_only.
  repeat match goal with
         | |- context [match ?x with _ => _ end] => destruct x; simpl
         end;
    repeat (apply keys_set_if_unset; [key_in|]); done.
Qed.

Lemma keys_handle_misc_line line tx extra :
  keys_within ALL_KEYS tx →
  keys_within ALL_KEYS (handle_misc_line line tx extra).1.
Proof.
  intros H. unfold handle_misc_line.
  repeat match goal with
         | |- context [if ?x then _ else _] => destruct x; simpl
         end;
    repeat (apply keys_set_if_unset; [key_in|]); done.
Qed.

Lemma keys_main_line line tx :
  keys_within ALL_KEYS tx →
  keys_within ALL_KEYS ((parse_detail_main_line line).1 ∪ tx).
Proof.
  intros H. apply keys_union; [|done]. unfold parse_detail_main_line.
  destruct (rmatch_ DATE_RE line); cbv zeta; [|cbn [fst]; dom_keys].
  destruct (_ <? 4)%nat; cbn [fst]; dom_keys.
Qed.

Lemma keys_append_field tx v :
  keys_within ALL_KEYS tx → keys_within ALL_KEYS (append_field tx "Zprava" v).
Proof.
  intros H. unfold append_field.
  destruct (Str.eqb v []); [done|].
  destruct (truthy (get tx "Zprava")); apply keys_insert; (key_in || done).
Qed.

Lemma seed_dom :
  dom (list_to_map ((λ col, (col, VNone)) <$> COLUMNS) : gmap string pyval)
  = list_to_set COLUMNS.
Proof. by rewrite dom_list_to_map_L. Qed.

Lemma keys_header line header :
  parse_header_line line = Some header →
  keys_within ALL_KEYS
    (header ∪ list_to_map ((λ col, (col, VNone)) <$> COLUMNS)).
Proof.
  intros Hh. unfold parse_header_line in Hh.
  destruct (rmatch_ DATE_RE line); [|done].
  injection Hh as <-. cbv zeta.
  split; rewrite dom_union_L, seed_dom; [|apply union_subseteq; split].
  - unfold REQUIRED_KEYS. rewrite list_to_set_cons.
    apply union_subseteq. split; [|apply union_subseteq_r].
    apply singleton_subseteq_l, elem_of_union_l.
    rewrite !dom_insert_L. apply elem_of_union_r.
    do 4 apply elem_of_union_r. apply elem_of_union_l.
    by apply elem_of_singleton.
  - dom_keys.
  - unfold ALL_KEYS. rewrite list_to_set_app_L. apply union_subseteq_l.
Qed.

Lemma finish_dom block tx :
  dom (finish block tx)
  = ({[ "Blok_text" ]} ∪ ({[ "FX_mena" ]} ∪ dom tx)) ∖ {[ "Mena_hlavicka" ]}.
Proof.
  unfold finish. rewrite dom_delete_L, dom_insert_L.
  destruct (truthy (get tx "FX_mena")) eqn:E.
  - f_equal. f_equal. unfold get in E.
    destruct (tx !! "FX_mena") as [v|] eqn:El; [|done].
    apply elem_of_dom_2 in El.
    apply set_eq. intros k. rewrite elem_of_union, elem_of_singleton.
    split; [tauto | intros [-> | ?]; done].
  - by rewrite dom_insert_L.
Qed.

(** C5, as the code has it: every emitted record has every column of the
    schema as a key; its other keys are among the card network, which is
    always a key, and the five transient fields of the walk, and the
    header currency is not one of them.  This is about the keys only:
    the value of a field the block does not supply is not always null,
    it can be the empty string. *)
Theorem record_keys (block : list (list N)) (tx : gmap string pyval) :
  process_block block = Ok (Some tx) →
  list_to_set COLUMNS ⊆ dom tx
  ∧ dom tx ⊆ list_to_set (COLUMNS ++ TRANSIENT_KEYS)
  ∧ "Karta_sit" ∈ dom tx
  ∧ "Mena_hlavicka" ∉ dom tx.
Proof.
  intros Hp.
  assert (∃ line0 rest, block = line0 :: rest) as (line0 & rest & ->).
  { destruct block; [done | by eauto]. }
  destruct (parse_header_line line0) as [header|] eqn:Hh;
    [|by unfold process_block in Hp; rewrite Hh in Hp].
  destruct (process_block_inv (keys_within ALL_KEYS) (λ _, True)
              (λ line tx _, keys_parse_fx_line line tx)
              (λ line tx extra _, keys_handle_misc_line line tx extra)
              (λ k v tx Hk, keys_insert ALL_KEYS k v tx
                 ltac:(destruct Hk as [-> | [-> | ->]]; key_in))
              (λ line tx _, keys_main_line line tx)
              keys_append_field
              (line0 :: rest) line0 rest header tx eq_refl
              ltac:(by apply Forall_true) Hh (keys_header line0 header Hh) Hp)
    as (tx0 & [H1 H2] & ->).
  rewrite finish_dom.
  assert (Hreq : ∀ k, k ∈ REQUIRED_KEYS →
            k ∈ ({["Blok_text"]} ∪ ({["FX_mena"]} ∪ dom tx0))
                ∖ ({["Mena_hlavicka"]} : gset string)).
  { intros k Hk. apply elem_of_difference. split.
    - do 2 apply elem_of_union_r. apply H1. by apply elem_of_list_to_set.
    - rewrite elem_of_singleton. intros ->. revert Hk.
      rewrite list_elem_of_In. vm_compute. intuition discriminate. }
  split; [|split; [|split]].
  - intros k Hk%elem_of_list_to_set. apply Hreq. by right.
  - intros k [Hk Hne]%elem_of_difference.
    rewrite elem_of_singleton in Hne.
    assert (Hall : k ∈ ALL_KEYS).
    { apply elem_of_union in Hk as [->%elem_of_singleton|Hk]; [key_in|].
      apply elem_of_union in Hk as [->%elem_of_singleton|Hk]; [key_in|].
      apply H2 in Hk. by apply elem_of_list_to_set in Hk. }
    apply elem_of_list_to_set. unfold ALL_KEYS in Hall.
    rewrite app_assoc in Hall.
    apply elem_of_app in Hall as [?|Hm%list_elem_of_singleton]; done.
  - apply Hreq. by left.
  - apply not_elem_of_difference. right. by apply elem_of_singleton.
Qed.

(** C5 at the purchase block. *)
Lemma record_keys_witness :
  emitted (process_block purchase_block) = true
  ∧ list_to_set COLUMNS ⊆ dom purchase_record
  ∧ dom purchase_record ⊆ list_to_set (COLUMNS ++ TRANSIENT_KEYS)
  ∧ "Karta_sit" ∈ dom purchase_record
  ∧ "Mena_hlavicka" ∉ dom purchase_record.
Proof.
  split; [vm_compute; reflexivity|].
  apply (record_keys purchase_block), emitted_record.
  vm_compute. reflexivity.
Defined.

(** C5, as the claim has it, fails on every record: the record of the
    purchase block has the key of the card network, which is no column.
    Nor is every field that the block does not supply null: the three
    payment symbols, which the detail line gives as dashes, are empty
    strings. *)
Lemma record_has_card_network :
  field (process_block purchase_block) "Karta_sit" = Some VNone
  ∧ ("Karta_sit" ∉ COLUMNS)
  ∧ field (process_block purchase_block) "VS" = Some (VStr [])
  ∧ field (process_block purchase_block) "SS" = Some (VStr [])
  ∧ field (process_block purchase_block) "KS" = Some (VStr []).
Proof.
  split; [by vm_compute|]. split; [|by vm_compute].
  rewrite list_elem_of_In. vm_compute. intuition discriminate.
Qed.


(** ** Fields the walk leaves alone *)

Lemma parse_fx_line_lookup line tx k :
  k ∉ FX_KEYS → (parse_fx_line line tx).2 !! k = tx !! k.
Proof.
  intros Hk. unfold parse_fx_line, fx_rate, fx_date_amount, fx_amount_only.
  repeat match goal with
         | |- context [match ?x with _ => _ end] => destruct x; simpl
         end;
    rewrite ?set_if_unset_other; (done || other_key Hk).
Qed.

Lemma handle_misc_line_lookup line tx extra k :
  k ∉ MISC_KEYS → (handle_misc_line line tx extra).1 !! k = tx !! k.
Proof.
  intros Hk. unfold handle_misc_line.
  repeat match goal with
         | |- context [if ?x then _ else _] => destruct x; simpl
         end;
    rewrite ?set_if_unset_other; (done || other_key Hk).
Qed.

Lemma main_line_lookup line tx k :
  k ∉ DETAIL_KEYS → ((parse_detail_main_line line).1 ∪ tx) !! k = tx !! k.
Proof.
  intros Hk. apply lookup_union_r. unfold parse_detail_main_line.
  destruct (rmatch_ DATE_RE line); cbv zeta; [|done].
  destruct (_ <? 4)%nat; cbn [fst];
    rewrite ?lookup_insert_ne, ?lookup_singleton_ne; (done || other_key Hk).
Qed.

Lemma append_field_lookup tx key v k :
  k ≠ key → append_field tx key v !! k = tx !! k.
Proof.
  intros Hk. unfold append_field.
  destruct (Str.eqb v []); [done|].
  destruct (truthy (get tx key)); by rewrite lookup_insert_ne.
Qed.

Lemma finish_lookup block tx k :
  k ≠ "FX_mena" → k ≠ "Blok_text" → k ≠ "Mena_hlavicka" →
  finish block tx !! k = tx !! k.
Proof.
  intros H1 H2 H3. unfold finish.
  rewrite lookup_delete_ne, lookup_insert_ne by done.
  destruct (truthy (get tx "FX_mena")); [done|]. by rewrite lookup_insert_ne.
Qed.

(** A field that the walk does not write holds, before the closing
    steps, what the header or the empty record gave it. *)
Lemma process_block_keeps line0 rest header tx k :
  k ∉ WALK_KEYS →
  parse_header_line line0 = Some header →
  process_block (line0 :: rest) = Ok (Some tx) →
  ∃ tx0, tx = finish (line0 :: rest) tx0
         ∧ tx0 !! k
           = (header ∪ list_to_map ((λ col, (col, VNone)) <$> COLUMNS)) !! k.
Proof.
  intros Hk Hh Hp.
  set (seed := header ∪ list_to_map ((λ col, (col, VNone)) <$> COLUMNS)).
  destruct (process_block_inv (λ tx, tx !! k = seed !! k) (λ _, True))
    with (block := line0 :: rest) (line0 := line0) (rest := rest)
         (header := header) (tx := tx) as (tx0 & H0 & ->);
    try done; [..|by exists tx0].
  - intros line t _ <-. apply parse_fx_line_lookup. outside Hk.
  - intros line t extra _ <-. apply handle_misc_line_lookup. outside Hk.
  - intros k' v t Hk' <-. apply lookup_insert_ne.
    destruct Hk' as [-> | [-> | ->]]; intros <-; apply Hk; key_in.
  - intros line t _ <-. apply main_line_lookup. outside Hk.
  - intros t v <-. apply append_field_lookup. other_key Hk.
  - by apply Forall_true.
Qed.

(** ** The FX currency of a record *)




Lemma finish_fx_mena block tx :
  finish block tx !! "FX_mena"
  = Some (if truthy (get tx "FX_mena") then get tx "FX_mena"
          else py_or (get tx "Mena_hlavicka") (VStr (u "CZK"))).
Proof.
  unfold finish. rewrite lookup_delete_ne, lookup_insert_ne by done.
  destruct (truthy (get tx "FX_mena")) eqn:E.
  - unfold get in *. by destruct (tx !! "FX_mena").
  - by rewrite lookup_insert_eq.
Qed.



(** ** A line of header shape begins with a date *)

Lemma run_seq (a b : regex) (st x : mstate) :
  x ∈ run (RSeq a b) st ↔ ∃ y, y ∈ run a st ∧ x ∈ run b y.
Proof.
  change (run (RSeq a b) st) with (run a st ≫= run b).
  rewrite list_elem_of_bind.
  split; intros (y & H1 & H2); by exists y.
Qed.

(** What one or more rounds can reach, zero or more rounds can. *)
Lemma run_plus_star (a : regex) (st x : mstate) :
  x ∈ run (plus a) st → x ∈ run (star a) st.
Proof.
  unfold plus, star. cbn [run].
  set (fuel := length (m_rest st)). cbn [rep_loop pred fmap option_fmap option_map].
  rewrite app_nil_r. intros H. apply elem_of_app. by left.
Qed.

Lemma matches_run (r : regex) (line : list N) :
  matches r line = true ↔ ∃ x, x ∈ run r (MState None line 0 []).
Proof.
  unfold matches, rmatch_, match_at.
  rewrite bool_decide_eq_true, fmap_is_Some.
  destruct (run r (MState None line 0 [])) as [|x l]; simpl.
  - split; [by intros [? [=]] | by intros [? ?%elem_of_nil]].
  - split; [intros _; exists x; by left | by eauto].
Qed.

Lemma header_date_is_date (st x : mstate) :
  x ∈ run HEADER_DATE_RE st →
  x ∈ run (cat [between 1 2 d; lit "."; star s; between 1 2 d; lit ".";
                star s; times 4 d]) st.
Proof.
  unfold HEADER_DATE_RE. cbn [cat foldr]. intros H.
  repeat (apply run_seq in H as (? & ? & H)).
  repeat (apply run_seq; eexists;
          split; [first [eassumption | apply run_plus_star; eassumption]|]).
  done.
Qed.

Lemma header_shape_has_date (line : list N) :
  matches HEADER_RE line = true → is_Some (rmatch_ DATE_RE line).
Proof.
  intros [x Hx]%matches_run.
  assert (matches DATE_RE line = true) as H; [|by apply bool_decide_eq_true in H].
  apply matches_run.
  unfold HEADER_RE in Hx. cbn [cat foldr] in Hx.
  apply run_seq in Hx as (y1 & H1 & Hx).
  apply run_seq in Hx as (y2 & H2 & Hx).
  apply run_seq in Hx as (y3 & H3 & _).
  apply header_date_is_date in H3.
  unfold DATE_RE. cbn [cat foldr].
  eexists. apply run_seq. exists y1. split; [done|].
  apply run_seq. exists y2. split; [done|].
  apply run_seq. eexists. split; [|by apply list_elem_of_singleton].
  cbn [run]. apply list_elem_of_fmap. by exists y3.
Qed.

(** ** Blocks of the segmenter *)

Lemma segment_go_headed lines blocks current :
  Forall (λ b, ∃ l rest, b = l :: rest ∧ matches HEADER_RE l = true)
         blocks →
  (current = [] ∨ ∃ l rest, current = l :: rest ∧ matches HEADER_RE l = true) →
  Forall (λ b, ∃ l rest, b = l :: rest ∧ matches HEADER_RE l = true)
         (segment_go lines blocks current).1
  ∧ ((segment_go lines blocks current).2 = []
     ∨ ∃ l rest, (segment_go lines blocks current).2 = l :: rest
                 ∧ matches HEADER_RE l = true).
Proof.
  revert blocks current.
  induction lines as [|line rest IH]; intros blocks current Hb Hc; simpl;
    [done|].
  destruct (matches HEADER_RE line) eqn:Hh.
  - apply IH; [|right; by eauto].
    destruct Hc as [-> | (l & r & -> & Hl)]; [done|].
    apply Forall_app. split; [done|]. constructor; [by eauto | constructor].
  - apply IH; [done|].
    destruct Hc as [-> | (l & r & -> & Hl)]; [by left|].
    right. exists l, (r ++ [line]). done.
Qed.

(** Every block of the segmenter begins with a line of header shape. *)
Lemma segment_headed (lines : list (list N)) (block : list (list N)) :
  block ∈ segment lines →
  ∃ l rest, block = l :: rest ∧ matches HEADER_RE l = true.
Proof.
  unfold segment.
  destruct (segment_go_headed lines [] []) as [H1 H2];
    [constructor | by left |].
  destruct (segment_go lines [] []) as [blocks current]. simpl in *.
  rewrite Forall_forall in H1.
  destruct H2 as [-> | (l & r & -> & Hl)]; [by apply H1|].
  intros [H|H%list_elem_of_singleton]%elem_of_app; [by apply H1|].
  subst. by eauto.
Qed.

(** C10: a block of the segmenter is never rejected, and a record it
    yields has a date that is not null; but it need not yield a record:
    the block whose transaction type is a lone diaeresis, which the
    segmenter returns as it is, raises [IndexError] in
    [should_append_type], and so does the whole extraction. *)
Theorem segmented_block_not_rejected :
  (∀ lines block,
     block ∈ segment lines →
     process_block block ≠ Ok None
     ∧ ∀ tx, process_block block = Ok (Some tx) →
             ∃ date, tx !! "Datum" = Some (VStr date))
  ∧ segment diaeresis_block = [diaeresis_block]
  ∧ process_block diaeresis_block = Raise IndexError
  ∧ extract_transactions diaeresis_block = Raise IndexError.
Proof.
  split; [|by vm_compute].
  intros lines block (l & rest & -> & Hl)%segment_headed.
  apply header_shape_has_date in Hl as [m Hm].
  assert (Hh : ∃ header date,
            parse_header_line l = Some header
            ∧ header !! "Datum" = Some (VStr date)).
  { unfold parse_header_line. rewrite Hm. cbv zeta.
    eexists _, _. split; [done|]. apply lookup_insert_eq. }
  destruct Hh as (header & date & Hh & Hd).
  split.
  - unfold process_block. rewrite Hh.
    destruct (find_label (l :: rest) 0); [|done].
    destruct (before_label _ _ _) as [tx1 extra1].
    destruct (parse_detail_lines _ tx1); [|done]. simpl.
    by destruct (after_walk _ _ _).
  - intros tx Hp.
    destruct (process_block_keeps l rest header tx "Datum")
      as (tx0 & -> & H0); [|done|done|].
    { rewrite list_elem_of_In. vm_compute. intuition discriminate. }
    exists date. rewrite finish_lookup by done.
    rewrite H0. by apply lookup_union_Some_l.
Qed.

(** C10 at the purchase block. *)
Lemma segmented_block_not_rejected_witness :
  segment purchase_block = [purchase_block]
  ∧ ∃ date, purchase_record !! "Datum" = Some (VStr date).
Proof.
  split; [vm_compute; reflexivity|].
  apply (proj1 segmented_block_not_rejected purchase_block purchase_block).
  - vm_compute. left.
  - apply emitted_record. vm_compute. reflexivity.
Defined.

(** ** The amount parser *)

Lemma replace_char (c : N) (new s : list N) :
  Str.replace [c] new s = s ≫= λ x, if c =? x then new else [x].
Proof.
  unfold Str.replace. induction s as [|x t IH]; [done|].
  cbn [Str.replace_go Str.startswith length Nat.sub].
  rewrite andb_true_r, bind_cons. destruct (c =? x); by rewrite IH.
Qed.

Lemma contains_char (c : N) (s : list N) :
  Str.contains [c] s = bool_decide (c ∈ s).
Proof.
  induction s as [|x t IH]; [done|].
  cbn [Str.contains Str.startswith]. rewrite andb_true_r, IH.
  destruct (N.eqb_spec c x) as [->|Hne]; simpl.
  - symmetry. apply bool_decide_eq_true. by left.
  - apply bool_decide_ext. rewrite elem_of_cons.
    split; [by right | by intros [?|?]].
Qed.

Lemma bind_bind {A B C} (f : A → list B) (g : B → list C) (l : list A) :
  (l ≫= f) ≫= g = l ≫= (λ x, f x ≫= g).
Proof.
  induction l as [|x t IH]; [done|]. by rewrite !bind_cons, bind_app, IH.
Qed.

Lemma decimal_text_chars (t : list N) :
  decimal_text t = t ≫= decimal_char (bool_decide (44 ∈ t)).
Proof.
  unfold decimal_text.
  change (u " ") with [32]. change (u ",") with [44].
  change (u ".") with [46].
  rewrite contains_char, !replace_char.
  assert (Hc : bool_decide
                 (44 ∈ (t ≫= (λ x, if 32 =? x then [] else [x]))
                         ≫= (λ x, if 160 =? x then [] else [x]))
               = bool_decide (44 ∈ t)).
  { apply bool_decide_ext. split.
    - intros (y & Hy & (z & Hz & Hin)%list_elem_of_bind)%list_elem_of_bind.
      destruct (160 =? y); [by apply elem_of_nil in Hy|].
      apply list_elem_of_singleton in Hy as ->.
      destruct (32 =? z); [by apply elem_of_nil in Hz|].
      by apply list_elem_of_singleton in Hz as ->.
    - intros Hin. apply list_elem_of_bind. exists 44. split; [by left|].
      apply list_elem_of_bind. exists 44. split; [by left | done]. }
  rewrite Hc. destruct (bool_decide (44 ∈ t)).
  - rewrite !bind_bind. apply list_bind_ext; [|done].
    intros x. unfold decimal_char.
    destruct (N.eqb_spec x 32) as [->|?]; [done|].
    destruct (N.eqb_spec x 160) as [->|?]; [done|].
    destruct (N.eqb_spec x 46) as [->|?]; [done|].
    destruct (N.eqb_spec x 44) as [->|?]; [done|].
    repeat (rewrite ?bind_singleton; cbv beta;
            rewrite (proj2 (N.eqb_neq _ x)) by lia).
    done.
  - rewrite !bind_bind. apply list_bind_ext; [|done].
    intros x. unfold decimal_char.
    destruct (N.eqb_spec x 32) as [->|?]; [done|].
    destruct (N.eqb_spec x 160) as [->|?]; [done|].
    destruct (N.eqb_spec x 46) as [->|?]; [done|].
    destruct (N.eqb_spec x 44) as [->|?]; [done|].
    repeat (rewrite ?bind_singleton; cbv beta;
            rewrite (proj2 (N.eqb_neq _ x)) by lia).
    done.
Qed.

Lemma lstrip_spaces (w x : list N) :
  Forall (λ c, is_space c = true) w → Str.lstrip (w ++ x) = Str.lstrip x.
Proof. induction 1 as [|c w Hc _ IH]; simpl; [done|]. by rewrite Hc. Qed.

Lemma lstrip_all_spaces (w : list N) :
  Forall (λ c, is_space c = true) w → Str.lstrip w = [].
Proof. induction 1 as [|c w Hc _ IH]; simpl; [done|]. by rewrite Hc. Qed.

Lemma lstrip_app (x y : list N) :
  Str.lstrip x ≠ [] → Str.lstrip (x ++ y) = Str.lstrip x ++ y.
Proof.
  induction x as [|c x IH]; simpl; [done|].
  destruct (is_space c); [done | by intros _].
Qed.

Lemma lstrip_decompose (t : list N) :
  ∃ a, t = a ++ Str.lstrip t ∧ Forall (λ c, is_space c = true) a.
Proof.
  induction t as [|c t (a & Ht & Ha)]; simpl; [by exists []|].
  destruct (is_space c) eqn:Hc.
  - exists (c :: a). split; [by rewrite Ht at 1 | by constructor].
  - by exists [].
Qed.

Lemma rstrip_spaces (x w : list N) :
  Forall (λ c, is_space c = true) w → Str.rstrip (x ++ w) = Str.rstrip x.
Proof.
  intros Hw. unfold Str.rstrip. rewrite reverse_app, lstrip_spaces; [done|].
  by apply Forall_reverse.
Qed.

Lemma strip_decompose (t : list N) :
  ∃ a b, t = a ++ Str.strip t ++ b
         ∧ Forall (λ c, is_space c = true) a
         ∧ Forall (λ c, is_space c = true) b.
Proof.
  destruct (lstrip_decompose t) as (a & Ht & Ha).
  destruct (lstrip_decompose (reverse (Str.lstrip t))) as (b & Hb & Hbs).
  exists a, (reverse b). split; [|split; [done | by apply Forall_reverse]].
  unfold Str.strip, Str.rstrip. rewrite <- reverse_app, <- Hb.
  by rewrite reverse_involutive.
Qed.

(** Blanks around a text do not change what [strip] leaves of it. *)
Lemma strip_pad (a x b : list N) :
  Forall (λ c, is_space c = true) a →
  Forall (λ c, is_space c = true) b →
  Str.strip (a ++ x ++ b) = Str.strip x.
Proof.
  intros Ha Hb. unfold Str.strip. rewrite lstrip_spaces by done.
  destruct (Str.lstrip x) as [|c l] eqn:E.
  - destruct (lstrip_decompose x) as (w & Hx & Hw). rewrite E, app_nil_r in Hx.
    subst w. rewrite lstrip_all_spaces; [done|]. by apply Forall_app.
  - rewrite lstrip_app by (by rewrite E). rewrite E. by apply rstrip_spaces.
Qed.

(** [lstrip_by] and [strip_by], as [lstrip] and [strip] above. *)
Lemma lstrip_by_spaces (p : N → bool) (w x : list N) :
  Forall (λ c, p c = true) w → lstrip_by p (w ++ x) = lstrip_by p x.
Proof. induction 1 as [|c w Hc _ IH]; simpl; [done|]. by rewrite Hc. Qed.

Lemma lstrip_by_all (p : N → bool) (w : list N) :
  Forall (λ c, p c = true) w → lstrip_by p w = [].
Proof. induction 1 as [|c w Hc _ IH]; simpl; [done|]. by rewrite Hc. Qed.

Lemma lstrip_by_app (p : N → bool) (x y : list N) :
  lstrip_by p x ≠ [] → lstrip_by p (x ++ y) = lstrip_by p x ++ y.
Proof.
  induction x as [|c x IH]; simpl; [done|].
  destruct (p c); [done | by intros _].
Qed.

Lemma lstrip_by_decompose (p : N → bool) (t : list N) :
  ∃ a, t = a ++ lstrip_by p t ∧ Forall (λ c, p c = true) a.
Proof.
  induction t as [|c t (a & Ht & Ha)]; simpl; [by exists []|].
  destruct (p c) eqn:Hc.
  - exists (c :: a). split; [by rewrite Ht at 1 | by constructor].
  - by exists [].
Qed.

Lemma strip_by_pad (p : N → bool) (a x b : list N) :
  Forall (λ c, p c = true) a →
  Forall (λ c, p c = true) b →
  strip_by p (a ++ x ++ b) = strip_by p x.
Proof.
  intros Ha Hb. unfold strip_by. rewrite lstrip_by_spaces by done.
  destruct (lstrip_by p x) as [|c l] eqn:E.
  - destruct (lstrip_by_decompose p x) as (w & Hx & Hw).
    rewrite E, app_nil_r in Hx. subst w.
    rewrite (lstrip_by_all p (x ++ b)); [done|]. by apply Forall_app.
  - rewrite lstrip_by_app by (by rewrite E). rewrite E.
    rewrite reverse_app, lstrip_by_spaces; [done|]. by apply Forall_reverse.
Qed.

Lemma strip_by_fixed (p : N → bool) (s : list N) :
  (∀ c, head s = Some c → p c = false) →
  (∀ c, last s = Some c → p c = false) →
  strip_by p s = s.
Proof.
  intros Hh Hl. unfold strip_by.
  assert (Hfix : ∀ x, (∀ c, head x = Some c → p c = false) →
            lstrip_by p x = x).
  { intros [|c x] H; simpl; [done|]. by rewrite (H c eq_refl). }
  rewrite (Hfix s Hh), Hfix, reverse_involutive; [done|].
  intros c. rewrite head_reverse. apply Hl.
Qed.

Lemma py_float_strip (s s' : list N) :
  float_strip s = float_strip s' → py_float s = py_float s'.
Proof. unfold py_float. by intros ->. Qed.

(** What the amount parser leaves of blanks: the blanks that [float]
    trims, when none of them is one of the four separators. *)
Lemma decimal_char_spaces (comma : bool) (w : list N) :
  Forall (λ c, is_space c = true) w →
  Forall (λ c, in_range 28 31 c = false) w →
  Forall (λ c, is_float_space c = true) (w ≫= decimal_char comma).
Proof.
  intros Hw Hs. apply Forall_bind.
  rewrite Forall_forall in Hw, Hs. apply Forall_forall.
  intros c Hin. pose proof (Hw c Hin) as Hc. pose proof (Hs c Hin) as Hr.
  unfold compose, decimal_char.
  destruct ((c =? 32) || (c =? 160)); [constructor|].
  destruct (N.eqb_spec c 46) as [->|?]; [done|].
  destruct (N.eqb_spec c 44) as [->|?]; [done|].
  repeat constructor. unfold is_float_space. by rewrite Hc, Hr.
Qed.

Lemma leading_blanks_spec (t : list N) :
  t = leading_blanks t ++ Str.lstrip t
  ∧ Forall (λ c, is_space c = true) (leading_blanks t).
Proof.
  induction t as [|c t [IH1 IH2]]; simpl; [done|].
  destruct (is_space c) eqn:Hc; [|done].
  split; [simpl; by rewrite <- IH1 | by constructor].
Qed.

(** The number read does not depend on the blanks before a text that
    ends with no blank, when none of them is one of the four
    separators. *)
Lemma py_float_decimal_strip (t : list N) :
  (∀ c, last t = Some c → is_space c = false) →
  Forall (λ c, in_range 28 31 c = false) (leading_blanks t) →
  py_float (decimal_text (Str.strip t)) = py_float (decimal_text t).
Proof.
  intros Hl Hs. destruct (leading_blanks_spec t) as [Ht Ha].
  set (a := leading_blanks t) in *. set (r := Str.lstrip t) in *.
  assert (Hr : Str.strip t = r).
  { unfold Str.strip. fold r. unfold Str.rstrip.
    rewrite lstrip_fixed, reverse_involutive; [done|].
    intros c. rewrite head_reverse. intros H. apply Hl.
    by apply lstrip_last. }
  rewrite Hr. apply py_float_strip.
  rewrite !decimal_text_chars.
  assert (Hc : bool_decide (44 ∈ t) = bool_decide (44 ∈ r)).
  { apply bool_decide_ext. rewrite Ht, elem_of_app.
    rewrite Forall_forall in Ha. split; [|by auto].
    intros [H|H]; [by apply Ha in H | done]. }
  rewrite Hc. clearbody a r. rewrite Ht, bind_app. symmetry.
  rewrite <- (app_nil_r (r ≫= _)) at 1.
  apply strip_by_pad; [by apply decimal_char_spaces | done].
Qed.

Lemma replace_absent (c : N) (t : list N) :
  Str.contains [c] t = false → Str.replace [c] [] t = t.
Proof.
  rewrite contains_char, replace_char, bool_decide_eq_false.
  induction t as [|x t IH]; [done|].
  rewrite not_elem_of_cons. intros [Hx Ht]. rewrite bind_cons, IH by done.
  by rewrite (proj2 (N.eqb_neq c x)).
Qed.

(** C6, as the code has it: the text is trimmed, every minus sign in it
    is removed (the number is negative when the trimmed text begins with
    one) and what is left is trimmed once more; on a text with no minus
    sign past the first character of its trimmed form, and with none of
    the separators U+001C..U+001F among the blanks that follow a leading
    minus sign, this is the procedure of the description, applied to the
    trimmed text: a leading minus sign taken off and remembered, spaces
    and no-break spaces removed, dots removed when there is a comma, the
    comma turned into a point, the number read and the sign put back,
    null when the text is no number. *)
Theorem cz_amount_to_float_spec (text : list N) :
  Str.contains (u "-") (drop 1 (Str.strip text)) = false →
  (Str.startswith (Str.strip text) (u "-") = true →
   Forall (λ c, in_range 28 31 c = false)
          (leading_blanks (drop 1 (Str.strip text)))) →
  cz_amount_to_float text = parse_amount_spec (Str.strip text).
Proof.
  intros Hm Hsep.
  assert (Hcz : cz_amount_to_float text =
    match py_float (decimal_text
            (Str.strip (Str.replace (u "-") [] (Str.strip text)))) with
    | None => None
    | Some value =>
        Some (if Str.startswith (Str.strip text) (u "-") then fneg value
              else value)
    end) by reflexivity.
  assert (Hsp : ∀ s, parse_amount_spec s =
    match py_float (decimal_text
            (if Str.startswith s (u "-") then drop 1 s else s)) with
    | None => None
    | Some value =>
        Some (if Str.startswith s (u "-") then fneg value else value)
    end) by reflexivity.
  rewrite Hcz, Hsp. clear Hcz Hsp.
  pose proof (strip_ends text) as Hends.
  set (s0 := Str.strip text) in *. change (u "-") with [45] in *.
  assert (Hrep : Str.strip (Str.replace [45] [] s0)
                 = Str.strip (if Str.startswith s0 [45] then drop 1 s0 else s0)).
  { destruct s0 as [|x t]; [done|]. cbn [drop] in *.
    cbn [Str.startswith]. rewrite andb_true_r.
    rewrite replace_char, bind_cons, <- replace_char, replace_absent by done.
    by destruct (45 =? x). }
  rewrite Hrep.
  destruct (Str.startswith s0 [45]) eqn:Eneg.
  - rewrite py_float_decimal_strip; [done| |by apply Hsep].
    destruct s0 as [|x t]; [done|]. cbn [drop].
    intros c Hc. rewrite drop_0 in Hc. apply (proj2 Hends).
    rewrite last_cons. by rewrite Hc.
  - by rewrite (strip_fixed s0 Hends).
Qed.

(** C6 at a negative amount with a blank after the sign and a grouping
    space. *)
Lemma cz_amount_to_float_spec_witness :
  cz_amount_to_float (u " - 1 234,50 ")
  = parse_amount_spec (Str.strip (u " - 1 234,50 "))
  ∧ cz_amount_to_float (u " - 1 234,50 ") = Some (FNum true 12345 (-1)).
Proof.
  split; [|by vm_compute].
  apply (cz_amount_to_float_spec (u " - 1 234,50 ")).
  - by vm_compute.
  - intros _. vm_compute. by repeat constructor.
Defined.

(** C6, as the claim has it, fails on a text with a minus sign inside:
    the code removes it and reads 12, where the text that is left after a
    leading sign is taken off is no number. *)
Lemma cz_amount_inner_minus :
  cz_amount_to_float (u "1-2,00") = Some (FNum false 12 0)
  ∧ parse_amount_spec (u "1-2,00") = None.
Proof. by vm_compute. Qed.

(** It fails as well on a text with a separator after the leading minus
    sign: the code trims the text again once the sign is off and reads 5,
    where [float] does not trim the separator U+001F. *)
Lemma cz_amount_separator_after_minus :
  cz_amount_to_float ([45; 31] ++ u "5,00") = Some (FNum true 5 0)
  ∧ parse_amount_spec ([45; 31] ++ u "5,00") = None.
Proof. by vm_compute. Qed.

(** ** The supplement *)

Lemma parse_fx_line_verdict line tx :
  (parse_fx_line line tx).1 = fx_recognized line.
Proof.
  unfold fx_recognized, parse_fx_line.
  destruct (rmatch_ FX_RATE_RE line); [done|].
  destruct (search FX_DATE_AMOUNT_RE line); [done|].
  destruct (rmatch_ FX_AMOUNT_ONLY_RE line); [done|].
  by destruct (Str.contains _ _).
Qed.

Lemma handle_misc_line_extras line tx extra :
  extra ⊆ (handle_misc_line line tx extra).2
  ∧ (is_ignored_line line = false → misc_labelled line = false →
     Str.strip line ∈ (handle_misc_line line tx extra).2).
Proof.
  unfold handle_misc_line, misc_labelled.
  destruct (is_ignored_line line); [done|]. cbv zeta.
  destruct (Str.startswith _ (u "popis pro me")); [done|].
  destruct (Str.startswith _ (u "id souvisejici platby")); [done|].
  destruct (Str.startswith _ (u "atm id")); [done|].
  cbn [snd]. split.
  - intros x Hx. apply elem_of_app. by left.
  - intros _ _. apply elem_of_app. right. by left.
Qed.

Lemma fx_or_misc_extras line tx extra :
  extra ⊆ (fx_or_misc line tx extra).2
  ∧ (unclassified line → Str.strip line ∈ (fx_or_misc line tx extra).2).
Proof.
  unfold fx_or_misc.
  pose proof (parse_fx_line_verdict line tx) as Hv.
  destruct (parse_fx_line line tx) as [ok tx']. simpl in Hv. subst ok.
  destruct (fx_recognized line) eqn:Hfx.
  - split; [done|]. intros (_ & H & _). by rewrite Hfx in H.
  - destruct (handle_misc_line_extras line tx' extra) as [H1 H2].
    split; [done|]. intros (Hi & _ & _ & _ & Hl). by apply H2.
Qed.

Lemma before_label_extras lines tx extra :
  extra ⊆ (before_label lines tx extra).2
  ∧ ∀ line, line ∈ lines → unclassified line →
            Str.strip line ∈ (before_label lines tx extra).2.
Proof.
  unfold before_label. revert tx extra.
  induction lines as [|l rest IH]; intros tx extra; simpl.
  { split; [done|]. by intros ? ?%elem_of_nil. }
  destruct (fx_or_misc_extras l tx extra) as [H1 H2].
  destruct (fx_or_misc l tx extra) as [tx' extra']. simpl in *.
  destruct (IH tx' extra') as [H3 H4]. split.
  - by etrans.
  - intros line [->|Hin]%elem_of_cons Hu; [by apply H3, H2 | by apply H4].
Qed.

Lemma after_walk_extras lines tx extra :
  extra ⊆ (after_walk lines tx extra).2
  ∧ ∀ line, line ∈ lines → unclassified line →
            Str.strip line ∈ (after_walk lines tx extra).2.
Proof.
  revert tx extra.
  induction lines as [|l rest IH]; intros tx extra; simpl.
  { split; [done|]. by intros ? ?%elem_of_nil. }
  destruct (is_ignored_line l) eqn:Hi.
  { destruct (IH tx extra) as [H3 H4]. split; [done|].
    intros line [->|Hin]%elem_of_cons Hu; [|by apply H4].
    destruct Hu as (Hu & _). by rewrite Hi in Hu. }
  destruct (is_message_line l) eqn:Hm.
  { destruct (IH (append_field tx "Zprava"
                    (if Str.contains (u ":") l
                     then Str.strip (Str.after_first_colon l)
                     else Str.strip l)) extra) as [H3 H4].
    split; [done|].
    intros line [->|Hin]%elem_of_cons Hu; [|by apply H4].
    destruct Hu as (_ & _ & Hu & _). by rewrite Hm in Hu. }
  destruct (fx_or_misc_extras l tx extra) as [H1 H2].
  destruct (fx_or_misc l tx extra) as [tx' extra']. simpl in *.
  destruct (IH tx' extra') as [H3 H4]. split.
  - by etrans.
  - intros line [->|Hin]%elem_of_cons Hu; [by apply H3, H2 | by apply H4].
Qed.

(** The first loop of the walk: the lines it read, and where it
    stopped. *)
Lemma detail_head_extras lines st :
  w_extra st ⊆ w_extra (detail_head lines st).1
  ∧ ∃ read, lines = read ++ (detail_head lines st).2
            ∧ w_idx (detail_head lines st).1 = (w_idx st + length read)%nat
            ∧ (∀ line, line ∈ read → unclassified line →
                 Str.strip line ∈ w_extra (detail_head lines st).1)
            ∧ (∀ main, head (detail_head lines st).2 = Some main →
                 matches DATE_RE main = true).
Proof.
  revert st. induction lines as [|l rest IH]; intros st; simpl.
  { split; [done|]. exists []. split; [done|]. split; [simpl; lia|].
    split; [by intros ? ?%elem_of_nil | done]. }
  destruct (matches DATE_RE l) eqn:Hd; simpl.
  { split; [done|]. exists []. split; [done|]. split; [simpl; lia|].
    split; [by intros ? ?%elem_of_nil | by intros ? [= <-]]. }
  destruct (fx_or_misc_extras l (w_tx st) (w_extra st)) as [H1 H2].
  destruct (fx_or_misc l (w_tx st) (w_extra st)) as [tx' extra'].
  simpl in *.
  destruct (IH (Walk (S (w_idx st)) tx' extra'))
    as (H3 & read & Hr & Hi & Hu & Hm). simpl in *.
  split; [by etrans|].
  exists (l :: read). split; [by rewrite Hr at 1|].
  split; [simpl; lia|]. split; [|done].
  intros line [->|Hin]%elem_of_cons Hun; [by apply H3, H2 | by apply Hu].
Qed.

(** The second loop of the walk: the lines it read before it stopped. *)
Lemma detail_tail_extras lines st st' :
  detail_tail lines st = Ok st' →
  w_extra st ⊆ w_extra st'
  ∧ ∃ read rest, lines = read ++ rest
      ∧ w_idx st' = (w_idx st + length read)%nat
      ∧ ∀ line, line ∈ read → unclassified line → never_joined line →
                Str.strip line ∈ w_extra st'.
Proof.
  revert st. induction lines as [|l rest IH]; intros st; simpl.
  { intros [= <-]. split; [done|]. exists [], []. split; [done|].
    split; [simpl; lia | by intros ? ?%elem_of_nil]. }
  assert (Hstop : ∀ tx, Ok (Walk (w_idx st) tx (w_extra st)) = Ok st' →
    w_extra st ⊆ w_extra st'
    ∧ ∃ read rest0, l :: rest = read ++ rest0
        ∧ w_idx st' = (w_idx st + length read)%nat
        ∧ ∀ line, line ∈ read → unclassified line → never_joined line →
                  Str.strip line ∈ w_extra st').
  { intros tx [= <-]. split; [done|]. exists [], (l :: rest).
    split; [done|]. split; [simpl; lia | by intros ? ?%elem_of_nil]. }
  assert (Hstep : ∀ tx1 extra1,
    w_extra st ⊆ extra1 →
    (unclassified l → never_joined l → Str.strip l ∈ extra1) →
    detail_tail rest (Walk (S (w_idx st)) tx1 extra1) = Ok st' →
    w_extra st ⊆ w_extra st'
    ∧ ∃ read rest0, l :: rest = read ++ rest0
        ∧ w_idx st' = (w_idx st + length read)%nat
        ∧ ∀ line, line ∈ read → unclassified line → never_joined line →
                  Str.strip line ∈ w_extra st').
  { intros tx1 extra1 Hsub Hl Hrec.
    destruct (IH _ Hrec) as (H1 & read & rest0 & Hr & Hi & Hu). simpl in *.
    split; [by etrans|]. exists (l :: read), rest0.
    split; [by rewrite Hr|]. split; [simpl; lia|].
    intros line [->|Hin]%elem_of_cons Hun Hnj; [by apply H1, Hl | by apply Hu]. }
  destruct (is_message_line l); [destruct st; apply Hstop|].
  pose proof (parse_fx_line_verdict l (w_tx st)) as Hv.
  destruct (parse_fx_line l (w_tx st)) as [fx tx]. simpl in Hv. subst fx.
  destruct (fx_recognized l); [apply Hstop|].
  destruct (matches DATE_RE l); [apply Hstop|].
  destruct (is_ignored_line l) eqn:Hig.
  { apply Hstep; [done|]. intros (Hu & _). by rewrite Hig in Hu. }
  assert (Hmisc :
    (ok ← should_append_type l (get tx "Typ_transakce");
     if ok : bool then
       t ← str_add (default (VStr []) (tx !! "Typ_transakce"))
                   (u " " ++ Str.strip l);
       detail_tail rest
         (Walk (S (w_idx st)) (<["Typ_transakce" := VStr (Str.strip t)]> tx)
               (w_extra st))
     else
       let '(tx', extra') := handle_misc_line l tx (w_extra st) in
       detail_tail rest (Walk (S (w_idx st)) tx' extra')) = Ok st' →
    w_extra st ⊆ w_extra st'
    ∧ ∃ read rest0, l :: rest = read ++ rest0
        ∧ w_idx st' = (w_idx st + length read)%nat
        ∧ ∀ line, line ∈ read → unclassified line → never_joined line →
                  Str.strip line ∈ w_extra st').
  { destruct (should_append_type l (get tx "Typ_transakce")) as [[]|] eqn:Es;
      simpl; [| |done].
    - destruct (str_add _ _) as [t|]; simpl; [|done].
      apply Hstep; [done|]. intros _ [_ Hnj]. by apply Hnj in Es.
    - destruct (handle_misc_line_extras l tx (w_extra st)) as [H1 H2].
      destruct (handle_misc_line l tx (w_extra st)) as [tx' extra'].
      simpl in *. apply Hstep; [done|].
      intros (_ & _ & _ & _ & Hl) _. by apply H2. }
  destruct (Str.split (Str.strip l)) as [|first others] eqn:Etok; [done|].
  destruct (truthy (get tx "Kod_transakce") && looks_like_code_fragment first)
    eqn:Ecode; [|done].
  apply andb_prop in Ecode as [_ Ecode].
  assert (Hnot : unclassified l → never_joined l →
                 ∀ extra1 : list (list N), Str.strip l ∈ extra1).
  { intros _ [Hnj _]. rewrite Etok in Hnj. simpl in Hnj.
    by rewrite Ecode in Hnj. }
  destruct (str_add _ first) as [c|]; simpl; [|done].
  destruct others as [|o os]; [apply Hstep; [done | by auto]|].
  destruct (Str.strip (Str.join (u " ") (o :: os))) as [|e es];
    [apply Hstep; [done | by auto]|].
  destruct (str_add (default (VStr []) (<[_:=_]> tx !! _)) _) as [t|];
    simpl; [|done].
  apply Hstep; [done | by auto].
Qed.

Lemma parse_detail_lines_extras lines tx st :
  parse_detail_lines lines tx = Ok st →
  ∀ line, line ∈ take (w_idx st) lines → unclassified line →
          never_joined line → Str.strip line ∈ w_extra st.
Proof.
  unfold parse_detail_lines.
  destruct (detail_head_extras lines (Walk 0 tx []))
    as (H1 & read & Hr & Hi & Hu & Hmain).
  destruct (detail_head lines (Walk 0 tx [])) as [st1 [|main rest]];
    simpl in *.
  - intros [= <-] line Hin Hun _. apply Hu; [|done].
    rewrite app_nil_r in Hr. subst lines. by apply subseteq_take in Hin.
  - destruct (parse_detail_main_line main) as [detail_info ?].
    intros Ht. apply detail_tail_extras in Ht
      as (H2 & read2 & rest2 & Hr2 & Hi2 & Hu2). simpl in *.
    intros line Hin Hun Hnj.
    assert (Htake : take (w_idx st) lines = read ++ main :: read2).
    { rewrite Hr, Hr2, Hi2, Hi.
      replace (read ++ main :: read2 ++ rest2)
        with ((read ++ main :: read2) ++ rest2) by (by rewrite <- app_assoc).
      apply take_app_length'. rewrite length_app. simpl. lia. }
    rewrite Htake in Hin.
    apply elem_of_app in Hin as [Hin|[->|Hin]%elem_of_cons].
    + by apply H2, Hu.
    + destruct Hun as (_ & _ & _ & Hd & _).
      by rewrite (Hmain main eq_refl) in Hd.
    + by apply Hu2.
Qed.

Lemma find_label_spec lines j i :
  find_label lines j = Some i →
  ∃ label, lines !! (i - j)%nat = Some label ∧ (j ≤ i)%nat
           ∧ is_label_line label = true.
Proof.
  revert j. induction lines as [|l rest IH]; intros j; simpl; [done|].
  destruct (is_label_line l) eqn:E.
  - intros [= <-]. exists l. by rewrite Nat.sub_diag.
  - intros (label & Hl & Hj & Hlab)%IH. exists label.
    replace (i - j)%nat with (S (i - S j)) by lia. split; [done|].
    split; [lia | done].
Qed.

Lemma label_line_ignored line :
  is_label_line line = true → is_ignored_line line = true.
Proof.
  unfold is_label_line, is_ignored_line. cbv zeta.
  intros [_ Ht]%andb_prop.
  destruct (_ || _); [done|]. destruct (matches PAGE_RE _); [done|].
  apply existsb_exists. exists (u "transakce"). split; [|done].
  unfold IGNORE_SUBSTRINGS. apply list_elem_of_In, list_elem_of_fmap.
  exists "transakce". split; [done|]. apply list_elem_of_In. simpl. tauto.
Qed.

Lemma split_go_tokens (s cur tok : list N) :
  Forall (λ c, is_space c = false) cur →
  tok ∈ Str.split_go s cur →
  tok ≠ [] ∧ Forall (λ c, is_space c = false) tok.
Proof.
  revert cur. induction s as [|a t IH]; intros cur Hcur; simpl.
  - destruct cur as [|c cur]; [by intros ?%elem_of_nil|].
    intros ->%list_elem_of_singleton. split.
    + intros E. apply (f_equal length) in E.
      rewrite length_reverse in E. done.
    + by apply Forall_reverse.
  - destruct (is_space a) eqn:Ea.
    + destruct cur as [|c cur]; [by apply IH|].
      intros [->|H]%elem_of_cons; [|by apply (IH [])].
      split.
      * intros E. apply (f_equal length) in E.
        rewrite length_reverse in E. done.
      * by apply Forall_reverse.
    + apply IH. by constructor.
Qed.

Lemma part_app (s t x : list N) : part s t → part s (t ++ x).
Proof.
  intros (p & q & ->). exists p, (q ++ x). by rewrite <- !app_assoc.
Qed.

Lemma part_end (s a : list N) : part s (a ++ s).
Proof. exists a, []. by rewrite app_nil_r. Qed.

Lemma part_reverse (s t : list N) : part s t → part (reverse s) (reverse t).
Proof.
  intros (p & q & ->). exists (reverse q), (reverse p).
  by rewrite !reverse_app, <- app_assoc.
Qed.

Lemma part_lstrip (s t : list N) :
  (∀ c, head s = Some c → is_space c = false) →
  part s t → part s (Str.lstrip t).
Proof.
  intros Hh (p & q & ->).
  destruct s as [|c s]; [by exists [], (Str.lstrip (p ++ [] ++ q))|].
  induction p as [|x p IH]; simpl.
  - rewrite (Hh c eq_refl). by exists [], q.
  - destruct (is_space x); [exact IH|]. by exists (x :: p), q.
Qed.

Lemma part_strip (s t : list N) :
  no_blank_ends s → part s t → part s (Str.strip t).
Proof.
  intros [Hh Hl] H. unfold Str.strip, Str.rstrip.
  rewrite <- (reverse_involutive s). apply part_reverse, part_lstrip.
  - intros c. rewrite head_reverse. apply Hl.
  - by apply part_reverse, part_lstrip.
Qed.

Lemma token_ends (s tok : list N) :
  tok ∈ Str.split s → no_blank_ends tok.
Proof.
  intros [_ H]%(split_go_tokens s []); [|done].
  rewrite Forall_forall in H.
  split; intros c Hc; apply H;
    [by apply head_Some_elem_of | by apply last_Some_elem_of].
Qed.

Lemma grows_refl (tx : gmap string pyval) : grows tx tx.
Proof. intros k _ t Ht. by exists t. Qed.

Lemma grows_trans (tx1 tx2 tx3 : gmap string pyval) :
  grows tx1 tx2 → grows tx2 tx3 → grows tx1 tx3.
Proof.
  intros H1 H2 k Hk t Ht.
  destruct (H1 k Hk t Ht) as (t2 & Ht2 & Hp2).
  destruct (H2 k Hk t2 Ht2) as (t3 & Ht3 & Hp3).
  exists t3. split; [done|]. intros s Hs Hp. by apply Hp3, Hp2.
Qed.

Lemma grows_same (tx tx' : gmap string pyval) :
  tx' !! "Kod_transakce" = tx !! "Kod_transakce" →
  tx' !! "Typ_transakce" = tx !! "Typ_transakce" →
  grows tx tx'.
Proof.
  intros H1 H2 k [-> | ->] t Ht; exists t; (split; [congruence | done]).
Qed.

(** Text added to the code or the type, the whole trimmed. *)
Lemma grows_add (tx : gmap string pyval) (k : string) (a x : list N) :
  default (VStr []) (tx !! k) = VStr a →
  grows tx (<[k := VStr (Str.strip (a ++ x))]> tx).
Proof.
  intros Ha k' Hk' t Ht. destruct (decide (k' = k)) as [->|Hne].
  - rewrite Ht in Ha. injection Ha as ->.
    exists (Str.strip (a ++ x)). split; [apply lookup_insert_eq|].
    intros s Hs Hp. by apply part_strip, part_app.
  - exists t. split; [by rewrite lookup_insert_ne | done].
Qed.

Lemma str_add_ok (v : pyval) (x t : list N) :
  str_add v x = Ok t → ∃ a, v = VStr a ∧ t = a ++ x.
Proof. destruct v as [|a|f]; [done| |done]. intros [= <-]. by exists a. Qed.

Lemma accounted_mono (line : list N) (tx tx' : gmap string pyval)
    (extra extra' : list (list N)) :
  extra ⊆ extra' → grows tx tx' →
  accounted line tx extra → accounted line tx' extra'.
Proof.
  intros Hsub Hg [H|[H|H]].
  - left. by apply Hsub.
  - right. left. destruct H as (t & Ht & Hp).
    destruct (Hg "Typ_transakce" (or_intror eq_refl) t Ht) as (t' & Ht' & Hp').
    exists t'. split; [done|]. apply Hp'; [apply strip_ends | done].
  - right. right. destruct H as (first & others & c & Hs & Hl & Hc & Hp & Ht).
    destruct (Hg "Kod_transakce" (or_introl eq_refl) c Hc) as (c' & Hc' & Hp').
    exists first, others, c'. split; [done|]. split; [done|].
    split; [done|]. split.
    + apply Hp'; [|done]. apply (token_ends (Str.strip line)).
      rewrite Hs. by left.
    + destruct Ht as [Ht|(t & Ht & Hpt)]; [by left|]. right.
      destruct (Hg "Typ_transakce" (or_intror eq_refl) t Ht)
        as (t' & Ht' & Hpt').
      exists t'. split; [done|]. apply Hpt'; [apply strip_ends | done].
Qed.

Lemma parse_fx_line_grows (line : list N) (tx : gmap string pyval) :
  grows tx (parse_fx_line line tx).2.
Proof.
  apply grows_same; apply parse_fx_line_lookup;
    rewrite list_elem_of_In; vm_compute; intuition congruence.
Qed.

Lemma handle_misc_line_grows (line : list N) (tx : gmap string pyval)
    (extra : list (list N)) :
  grows tx (handle_misc_line line tx extra).1.
Proof.
  apply grows_same; apply handle_misc_line_lookup;
    rewrite list_elem_of_In; vm_compute; intuition congruence.
Qed.

(** The second loop of the walk: every line it read that no classifier
    matches is in the supplement or was joined to the code or the
    type. *)
Lemma detail_tail_accounted lines st st' :
  detail_tail lines st = Ok st' →
  w_extra st ⊆ w_extra st'
  ∧ grows (w_tx st) (w_tx st')
  ∧ ∃ read rest, lines = read ++ rest
      ∧ w_idx st' = (w_idx st + length read)%nat
      ∧ ∀ line, line ∈ read → unclassified line →
                accounted line (w_tx st') (w_extra st').
Proof.
  revert st. induction lines as [|l rest IH]; intros st; simpl.
  { intros [= <-]. split; [done|]. split; [apply grows_refl|].
    exists [], []. split; [done|].
    split; [simpl; lia | by intros ? ?%elem_of_nil]. }
  assert (Hstop : ∀ tx, grows (w_tx st) tx →
    Ok (Walk (w_idx st) tx (w_extra st)) = Ok st' →
    w_extra st ⊆ w_extra st'
    ∧ grows (w_tx st) (w_tx st')
    ∧ ∃ read rest0, l :: rest = read ++ rest0
        ∧ w_idx st' = (w_idx st + length read)%nat
        ∧ ∀ line, line ∈ read → unclassified line →
                  accounted line (w_tx st') (w_extra st')).
  { intros tx Hg [= <-]. split; [done|]. split; [done|].
    exists [], (l :: rest).
    split; [done|]. split; [simpl; lia | by intros ? ?%elem_of_nil]. }
  assert (Hstep : ∀ tx1 extra1,
    w_extra st ⊆ extra1 → grows (w_tx st) tx1 →
    (unclassified l → accounted l tx1 extra1) →
    detail_tail rest (Walk (S (w_idx st)) tx1 extra1) = Ok st' →
    w_extra st ⊆ w_extra st'
    ∧ grows (w_tx st) (w_tx st')
    ∧ ∃ read rest0, l :: rest = read ++ rest0
        ∧ w_idx st' = (w_idx st + length read)%nat
        ∧ ∀ line, line ∈ read → unclassified line →
                  accounted line (w_tx st') (w_extra st')).
  { intros tx1 extra1 Hsub Hg Hl Hrec.
    destruct (IH _ Hrec) as (H1 & H2 & read & rest0 & Hr & Hi & Hu).
    simpl in *.
    split; [by etrans|]. split; [by eapply grows_trans|].
    exists (l :: read), rest0.
    split; [by rewrite Hr|]. split; [simpl; lia|].
    intros line [->|Hin]%elem_of_cons Hun; [|by apply Hu].
    by apply (accounted_mono _ tx1 _ extra1), Hl. }
  destruct (is_message_line l).
  { destruct st. apply Hstop, grows_refl. }
  pose proof (parse_fx_line_verdict l (w_tx st)) as Hv.
  pose proof (parse_fx_line_grows l (w_tx st)) as Hfx.
  destruct (parse_fx_line l (w_tx st)) as [fx tx]. simpl in Hv, Hfx. subst fx.
  destruct (fx_recognized l); [by apply Hstop|].
  destruct (matches DATE_RE l); [by apply Hstop|].
  destruct (is_ignored_line l) eqn:Hig.
  { apply Hstep; [done..|]. intros (Hu & _). by rewrite Hig in Hu. }
  assert (Hmisc :
    (ok ← should_append_type l (get tx "Typ_transakce");
     if ok : bool then
       t ← str_add (default (VStr []) (tx !! "Typ_transakce"))
                   (u " " ++ Str.strip l);
       detail_tail rest
         (Walk (S (w_idx st)) (<["Typ_transakce" := VStr (Str.strip t)]> tx)
               (w_extra st))
     else
       let '(tx', extra') := handle_misc_line l tx (w_extra st) in
       detail_tail rest (Walk (S (w_idx st)) tx' extra')) = Ok st' →
    w_extra st ⊆ w_extra st'
    ∧ grows (w_tx st) (w_tx st')
    ∧ ∃ read rest0, l :: rest = read ++ rest0
        ∧ w_idx st' = (w_idx st + length read)%nat
        ∧ ∀ line, line ∈ read → unclassified line →
                  accounted line (w_tx st') (w_extra st')).
  { destruct (should_append_type l (get tx "Typ_transakce")) as [[]|] eqn:Es;
      simpl; [| |done].
    - destruct (str_add _ _) as [t|] eqn:Et; simpl; [|done].
      apply str_add_ok in Et as (a & Ha & ->).
      apply Hstep; [done| |].
      + eapply grows_trans; [exact Hfx|]. by apply grows_add.
      + intros _. right. left. exists (Str.strip (a ++ u " " ++ Str.strip l)).
        split; [apply lookup_insert_eq|].
        apply part_strip; [apply strip_ends|].
        rewrite app_assoc. apply part_end.
    - destruct (handle_misc_line_extras l tx (w_extra st)) as [H1 H2].
      pose proof (handle_misc_line_grows l tx (w_extra st)) as Hg.
      destruct (handle_misc_line l tx (w_extra st)) as [tx' extra'].
      simpl in *. apply Hstep; [done| |].
      + by eapply grows_trans.
      + intros (_ & _ & _ & _ & Hl). left. by apply H2. }
  destruct (Str.split (Str.strip l)) as [|first others] eqn:Etok; [done|].
  destruct (truthy (get tx "Kod_transakce") && looks_like_code_fragment first)
    eqn:Ecode; [|done].
  apply andb_prop in Ecode as [_ Ecode].
  destruct (str_add _ first) as [c|] eqn:Ec; simpl; [|done].
  apply str_add_ok in Ec as (kod & Hkod & ->).
  set (tx1 := <["Kod_transakce" := VStr (Str.strip (kod ++ first))]> tx).
  assert (Hg1 : grows (w_tx st) tx1).
  { eapply grows_trans; [exact Hfx|]. by apply grows_add. }
  assert (Hfirst : part first (Str.strip (kod ++ first))).
  { apply part_strip; [|apply part_end].
    apply (token_ends (Str.strip l)). rewrite Etok. by left. }
  assert (Hcode : Str.strip (Str.join (u " ") others) = [] →
                  accounted l tx1 (w_extra st)).
  { intros He. right. right. exists first, others, (Str.strip (kod ++ first)).
    split; [done|]. split; [done|].
    split; [apply lookup_insert_eq|]. split; [done | by left]. }
  destruct others as [|o os]; [apply Hstep; [done..|by auto]|].
  destruct (Str.strip (Str.join (u " ") (o :: os))) as [|e es] eqn:Ee;
    [apply Hstep; [done..|by auto]|].
  destruct (str_add (default (VStr []) (tx1 !! _)) _) as [t|] eqn:Et;
    simpl; [|done].
  apply str_add_ok in Et as (a & Ha & ->).
  apply Hstep; [done| |].
  - eapply grows_trans; [exact Hg1|]. by apply grows_add.
  - intros _. right. right.
    exists first, (o :: os), (Str.strip (kod ++ first)).
    split; [done|]. split; [done|]. split.
    { rewrite lookup_insert_ne by done. apply lookup_insert_eq. }
    split; [done|]. right.
    exists (Str.strip (a ++ u " " ++ e :: es)).
    split; [apply lookup_insert_eq|]. rewrite Ee.
    apply part_strip; [rewrite <- Ee; apply strip_ends|].
    rewrite app_assoc. apply part_end.
Qed.

Lemma parse_detail_lines_accounted lines tx st :
  parse_detail_lines lines tx = Ok st →
  ∀ line, line ∈ take (w_idx st) lines → unclassified line →
          accounted line (w_tx st) (w_extra st).
Proof.
  unfold parse_detail_lines.
  destruct (detail_head_extras lines (Walk 0 tx []))
    as (H1 & read & Hr & Hi & Hu & Hmain).
  destruct (detail_head lines (Walk 0 tx [])) as [st1 [|main rest]];
    simpl in *.
  - intros [= <-] line Hin Hun. left. apply Hu; [|done].
    rewrite app_nil_r in Hr. subst lines. by apply subseteq_take in Hin.
  - destruct (parse_detail_main_line main) as [detail_info ?].
    intros Ht. apply detail_tail_accounted in Ht
      as (H2 & _ & read2 & rest2 & Hr2 & Hi2 & Hu2). simpl in *.
    intros line Hin Hun.
    assert (Htake : take (w_idx st) lines = read ++ main :: read2).
    { rewrite Hr, Hr2, Hi2, Hi.
      replace (read ++ main :: read2 ++ rest2)
        with ((read ++ main :: read2) ++ rest2) by (by rewrite <- app_assoc).
      apply take_app_length'. rewrite length_app. simpl. lia. }
    rewrite Htake in Hin.
    apply elem_of_app in Hin as [Hin|[->|Hin]%elem_of_cons].
    + left. by apply H2, Hu.
    + destruct Hun as (_ & _ & _ & Hd & _).
      by rewrite (Hmain main eq_refl) in Hd.
    + by apply Hu2.
Qed.

(** The loop over the lines the walk left changes neither the code nor
    the type. *)
Lemma after_walk_lookup lines tx extra k :
  k ∉ FX_KEYS → k ∉ MISC_KEYS → k ≠ "Zprava" →
  (after_walk lines tx extra).1 !! k = tx !! k.
Proof.
  intros H1 H2 H3.
  apply (after_walk_inv (λ t, t !! k = tx !! k) (λ _, True)).
  - intros line t _ <-. by apply parse_fx_line_lookup.
  - intros line t e _ <-. by apply handle_misc_line_lookup.
  - intros t v <-. by apply append_field_lookup.
  - by apply Forall_true.
  - done.
Qed.

(** C4, as the code has it: in the record of a block that has a label
    line, the text of every line after the header that no classifier
    matches (not ignorable, not recognised by the FX parser, no message,
    no date at its start, none of the three labels) is kept: its trimmed
    text is an entry of the supplement, or a part of the transaction
    type to which the walk joined it, or the line began with a fragment
    of the transaction code and its first word is a part of the code and
    the rest of it, if any, a part of the type.  It is in the supplement
    whenever the walk cannot join it to the code or the type, whatever
    the record. *)
Theorem unclassified_line_in_supplement (block : list (list N))
    (tx : gmap string pyval) (line : list N) :
  process_block block = Ok (Some tx) →
  is_Some (find_label block 0) →
  line ∈ drop 1 block →
  unclassified line →
  (in_supplement line tx ∨ joined_to_type line tx ∨ joined_to_code line tx)
  ∧ (never_joined line → in_supplement line tx).
Proof.
  intros Hp [i Hi] Hin Hun.
  destruct block as [|line0 rest]; [done|]. cbn [drop] in Hin.
  unfold process_block in Hp. rewrite Hi in Hp.
  destruct (parse_header_line line0) as [header|]; [|done].
  apply find_label_spec in Hi as (label & Hlab & _ & Hl).
  rewrite Nat.sub_0_r in Hlab.
  set (pre := drop 1 (take i (line0 :: rest))) in *.
  set (post := drop (S i) (line0 :: rest)) in *.
  assert (Hwhere : line ∈ pre ∨ line ∈ post).
  { destruct i as [|j]; [by right|]. simpl in Hlab.
    unfold pre, post. simpl. rewrite drop_0.
    rewrite <- (take_drop_middle rest j label Hlab) in Hin.
    apply elem_of_app in Hin as [?|[->|?]%elem_of_cons]; [by left | | by right].
    destruct Hun as (Hu & _). by rewrite (label_line_ignored _ Hl) in Hu. }
  destruct (before_label_extras pre
              (header ∪ list_to_map ((λ col, (col, VNone)) <$> COLUMNS)) [])
    as [_ Hb].
  destruct (before_label pre _ []) as [tx1 extra1]. simpl in Hb.
  destruct (parse_detail_lines post tx1) as [st|] eqn:Est; simpl in Hp;
    [|done].
  pose proof (parse_detail_lines_extras post tx1 st Est) as Hd.
  pose proof (parse_detail_lines_accounted post tx1 st Est) as Hacc.
  destruct (after_walk_extras (drop (w_idx st) post) (w_tx st)
              (extra1 ++ w_extra st)) as [Ha1 Ha2].
  pose proof (after_walk_lookup (drop (w_idx st) post) (w_tx st)
                (extra1 ++ w_extra st)) as Hk.
  destruct (after_walk _ (w_tx st) _) as [tx3 extra3]. simpl in *.
  injection Hp as <-.
  set (tx4 := match extra3 with
              | [] => tx3
              | _ :: _ =>
                  <["Doplnek" :=
                      VStr (Str.join (u " | ")
                              (List.filter (λ l, negb (Str.eqb l []))
                                           extra3))]> tx3
              end).
  assert (Hsup : Str.strip line ∈ extra3 →
                 in_supplement line (finish (line0 :: rest) tx4)).
  { intros Hex. unfold tx4.
    destruct extra3 as [|e es]; [by apply elem_of_nil in Hex|].
    eexists. split.
    - rewrite finish_lookup by done. apply lookup_insert_eq.
    - apply (proj1 (list_elem_of_In _ _)) in Hex.
      apply (proj2 (list_elem_of_In _ _)), (proj2 (filter_In _ _ _)).
      split; [done|].
      destruct Hun as (Hu & _). unfold is_ignored_line in Hu.
      destruct (Str.eqb line [] || Str.eqb (Str.strip line) []) eqn:E;
        [done|].
      apply orb_false_elim in E as [_ E]. by rewrite E. }
  assert (Hkeep : ∀ k, k = "Kod_transakce" ∨ k = "Typ_transakce" →
            finish (line0 :: rest) tx4 !! k = w_tx st !! k).
  { intros k Hkk.
    assert ((k ∉ FX_KEYS) ∧ (k ∉ MISC_KEYS) ∧ (k ≠ "Zprava") ∧ (k ≠ "Doplnek")
            ∧ (k ≠ "FX_mena") ∧ (k ≠ "Blok_text") ∧ (k ≠ "Mena_hlavicka"))
      as (K1 & K2 & K3 & K4 & K5 & K6 & K7).
    { rewrite !list_elem_of_In.
      destruct Hkk as [-> | ->]; vm_compute; intuition congruence. }
    rewrite finish_lookup by done. rewrite <- (Hk k) by done.
    unfold tx4. destruct extra3; [done|]. by rewrite lookup_insert_ne. }
  split.
  - assert (Hfin : accounted line (w_tx st) extra3 →
              in_supplement line (finish (line0 :: rest) tx4)
              ∨ joined_to_type line (finish (line0 :: rest) tx4)
              ∨ joined_to_code line (finish (line0 :: rest) tx4)).
    { intros [H|[H|H]].
      - left. by apply Hsup.
      - right. left. destruct H as (t & Ht & Hpt). exists t.
        split; [|done]. rewrite Hkeep; [done | by right].
      - right. right.
        destruct H as (first & others & c & Hs & Hlk & Hc & Hpc & Ht).
        exists first, others, c. split; [done|]. split; [done|].
        split; [rewrite Hkeep; [done | by left]|]. split; [done|].
        destruct Ht as [Ht|(t & Ht & Hpt)]; [by left|]. right.
        exists t. split; [|done]. rewrite Hkeep; [done | by right]. }
    destruct Hwhere as [Hw|Hw].
    + left. apply Hsup, Ha1, elem_of_app. left. by apply Hb.
    + rewrite <- (take_drop (w_idx st) post) in Hw.
      apply elem_of_app in Hw as [Hw|Hw].
      * apply Hfin.
        apply (accounted_mono _ (w_tx st) _ (w_extra st));
          [|apply grows_refl | by apply Hacc].
        intros x Hx. apply Ha1, elem_of_app. by right.
      * left. by apply Hsup, Ha2.
  - intros Hnj. apply Hsup.
    destruct Hwhere as [Hw|Hw].
    + apply Ha1, elem_of_app. left. by apply Hb.
    + rewrite <- (take_drop (w_idx st) post) in Hw.
      apply elem_of_app in Hw as [Hw|Hw].
      * apply Ha1, elem_of_app. right. by apply Hd.
      * by apply Ha2.
Qed.

(** C4 at a line of three plain words after the detail line. *)
Lemma unclassified_line_in_supplement_witness :
  emitted (process_block plain_block) = true
  ∧ (in_supplement plain_line (record_of (process_block plain_block))
     ∨ joined_to_type plain_line (record_of (process_block plain_block))
     ∨ joined_to_code plain_line (record_of (process_block plain_block)))
  ∧ (never_joined plain_line →
     in_supplement plain_line (record_of (process_block plain_block))).
Proof.
  split; [vm_compute; reflexivity|].
  apply (unclassified_line_in_supplement plain_block).
  - apply emitted_record. vm_compute. reflexivity.
  - vm_compute. eauto.
  - vm_compute. do 2 right. left.
  - repeat split; vm_compute; reflexivity.
Defined.

(** The three places at work: the plain line, which the walk would join
    to a type that ends with a preposition, is the supplement of its
    block; a word after a type that ends with a preposition is joined to
    the type; and a fragment of the code is joined to the code, the word
    after it to the type. *)
Lemma supplement_scenarios :
  field (process_block plain_block) "Doplnek" = Some (VStr plain_line)
  ∧ should_append_type plain_line (VStr (u "na")) = Ok true
  ∧ field (process_block continued_block) "Typ_transakce"
    = Some (VStr (u "PLATBA ZA sluzby"))
  ∧ field (process_block continued_block) "Doplnek" = Some VNone
  ∧ field (process_block fragment_block) "Kod_transakce"
    = Some (VStr (u "CODEAB12345678"))
  ∧ field (process_block fragment_block) "Typ_transakce"
    = Some (VStr (u "PLATBA KARTOU dalsi"))
  ∧ field (process_block fragment_block) "Doplnek" = Some VNone.
Proof. by vm_compute. Qed.

(** C4, as the claim has it, fails: in a block with no label line the
    line [hello], which no classifier matches, is in no field but the
    audit text, and the supplement is null; and in a block with a label
    line, a line about the rate that sets no field leaves the supplement
    null as well. *)
Lemma unlabelled_block_has_no_supplement :
  field (process_block unlabelled_block) "Doplnek" = Some VNone
  ∧ is_ignored_line (u "hello") = false
  ∧ fx_recognized (u "hello") = false
  ∧ is_message_line (u "hello") = false
  ∧ matches DATE_RE (u "hello") = false
  ∧ misc_labelled (u "hello") = false
  ∧ field (process_block rate_note_block) "Doplnek" = Some VNone
  ∧ field (process_block rate_note_block) "FX_kurz" = Some VNone
  ∧ field (process_block rate_note_block) "Zprava" = Some VNone
  ∧ field (process_block rate_note_block) "Typ_transakce"
    = Some (VStr (u "PLATBA KARTOU")).
Proof. by vm_compute. Qed.

(** * Further properties *)

(** ** The blocks of a stream *)

Lemma segment_go_from lines blocks current :
  match (segment_go lines blocks current).2 with
  | [] => (segment_go lines blocks current).1
  | _ => (segment_go lines blocks current).1 ++ [(segment_go lines blocks current).2]
  end = blocks ++ segment_from current lines.
Proof.
  revert blocks current.
  induction lines as [|line rest IH]; intros blocks current; simpl.
  - destruct current; by rewrite ?app_nil_r.
  - destruct (matches HEADER_RE line).
    + rewrite IH. destruct current; [done|]. by rewrite <- app_assoc.
    + by rewrite IH.
Qed.

Lemma segment_is_from lines : segment lines = segment_from [] lines.
Proof.
  unfold segment. pose proof (segment_go_from lines [] []) as H.
  destruct (segment_go lines [] []) as [blocks current]. exact H.
Qed.

Lemma segment_from_headed current lines :
  current = [] ∨ headed_block current →
  Forall headed_block (segment_from current lines).
Proof.
  revert current.
  induction lines as [|line rest IH]; intros current Hc; simpl.
  - destruct Hc as [->|Hc]; [constructor|].
    destruct current; [constructor|]. by repeat constructor.
  - destruct (matches HEADER_RE line) eqn:E.
    + apply Forall_app. split.
      * destruct Hc as [->|Hc]; [constructor|].
        destruct current; [constructor|]. by repeat constructor.
      * apply IH. right. exists line, []. by repeat split.
    + apply IH. destruct Hc as [->|(l0 & r & -> & H1 & H2)]; [by left|].
      right. exists l0, (r ++ [line]). repeat split; [done|].
      apply Forall_app. split; [done|]. by repeat constructor.
Qed.

Lemma segment_from_length current lines :
  length (segment_from current lines)
  = (match current with [] => 0 | _ => 1 end
     + length (header_lines lines))%nat.
Proof.
  revert current. unfold header_lines.
  induction lines as [|line rest IH]; intros current; simpl.
  - destruct current; simpl; lia.
  - destruct (matches HEADER_RE line) eqn:E.
    + rewrite length_app, IH. destruct current; simpl; lia.
    + rewrite IH. destruct current; simpl; lia.
Qed.

Lemma segment_from_app current l1 l2 :
  (∀ line, head l2 = Some line → matches HEADER_RE line = true) →
  segment_from current (l1 ++ l2) = segment_from current l1 ++ segment_from [] l2.
Proof.
  intros H2. revert current.
  induction l1 as [|line rest IH]; intros current; simpl.
  - destruct l2 as [|h r]; simpl; [by rewrite app_nil_r|].
    rewrite (H2 h eq_refl). done.
  - destruct (matches HEADER_RE line); rewrite IH; [|done].
    by rewrite app_assoc.
Qed.

Lemma segment_from_junk junk lines :
  Forall (λ line, matches HEADER_RE line = false) junk →
  segment_from [] (junk ++ lines) = segment_from [] lines.
Proof.
  induction 1 as [|line rest Hl _ IH]; simpl; [done|]. by rewrite Hl.
Qed.

Lemma segment_from_sub current lines block line :
  block ∈ segment_from current lines → line ∈ block →
  line ∈ current ∨ line ∈ lines.
Proof.
  revert current. induction lines as [|l rest IH]; intros current; simpl.
  - destruct current; [by intros ?%elem_of_nil|].
    intros ->%list_elem_of_singleton ?. by left.
  - destruct (matches HEADER_RE l).
    + intros [Hb|Hb]%elem_of_app Hl.
      * destruct current; [by apply elem_of_nil in Hb|].
        apply list_elem_of_singleton in Hb as ->. by left.
      * destruct (IH _ Hb Hl) as [->%list_elem_of_singleton|?];
          right; [by left | by right].
    + intros Hb Hl. destruct (IH _ Hb Hl) as [H|?]; [|right; by right].
      destruct current; [by left|].
      apply elem_of_app in H as [?| ->%list_elem_of_singleton];
        [by left | right; by left].
Qed.

Lemma segment_all_headed lines : Forall headed_block (segment lines).
Proof. rewrite segment_is_from. apply segment_from_headed. by left. Qed.

Lemma segment_length lines :
  length (segment lines) = length (header_lines lines).
Proof. by rewrite segment_is_from, segment_from_length. Qed.

Lemma segment_sub lines block line :
  block ∈ segment lines → line ∈ block → line ∈ lines.
Proof.
  rewrite segment_is_from. intros Hb Hl.
  by destruct (segment_from_sub [] lines block line Hb Hl) as [?%elem_of_nil|?].
Qed.

(** X1: every block of the segmenter is a line of header shape followed
    by lines that are not of header shape, and there are as many blocks as
    the stream has lines of header shape. *)
Theorem segment_blocks (lines : list (list N)) :
  Forall headed_block (segment lines)
  ∧ length (segment lines) = length (header_lines lines).
Proof. split; [apply segment_all_headed | apply segment_length]. Qed.

(** ** The records of a stream *)

Lemma emit_acc blocks acc :
  emit blocks acc = txs ← emit blocks []; Ok (acc ++ txs).
Proof.
  revert acc. induction blocks as [|b rest IH]; intros acc; simpl.
  - by rewrite app_nil_r.
  - destruct (process_block b) as [[tx|]|e]; simpl; [| apply IH | done].
    destruct (bool_decide (tx = ∅)); [apply IH|].
    rewrite (IH (acc ++ [tx])), (IH [tx]).
    destruct (emit rest []); simpl; [|done]. by rewrite <- app_assoc.
Qed.

Lemma emit_app b1 b2 acc :
  emit (b1 ++ b2) acc = acc' ← emit b1 acc; emit b2 acc'.
Proof.
  revert acc. induction b1 as [|b rest IH]; intros acc; simpl; [done|].
  destruct (process_block b) as [[tx|]|e]; simpl; [| apply IH | done].
  destruct (bool_decide (tx = ∅)); apply IH.
Qed.

Lemma process_block_finish block tx :
  process_block block = Ok (Some tx) → ∃ tx0, tx = finish block tx0.
Proof.
  intros Hp. destruct block as [|line0 rest]; [done|].
  destruct (parse_header_line line0) as [header|] eqn:Hh;
    [|by unfold process_block in Hp; rewrite Hh in Hp].
  destruct (process_block_inv (λ _, True) (λ _, True))
    with (block := line0 :: rest) (line0 := line0) (rest := rest)
         (header := header) (tx := tx) as (tx0 & _ & ->);
    try done; [by apply Forall_true | by exists tx0].
Qed.

Lemma finish_blok_text block tx :
  finish block tx !! "Blok_text" = Some (VStr (Str.join (u " | ") block)).
Proof.
  unfold finish. rewrite lookup_delete_ne by done. apply lookup_insert_eq.
Qed.

Lemma process_block_record block tx :
  process_block block = Ok (Some tx) → record_of_block block tx ∧ tx ≠ ∅.
Proof.
  intros Hp. destruct (process_block_finish block tx Hp) as [tx0 ->].
  pose proof (finish_blok_text block tx0) as Hb.
  repeat split; [done..|]. intros E. by rewrite E in Hb.
Qed.

Lemma headed_not_rejected block :
  headed_block block → process_block block ≠ Ok None.
Proof.
  intros (line0 & rest & -> & Hh & _). unfold process_block.
  apply header_shape_has_date in Hh as [m Hm].
  unfold parse_header_line. rewrite Hm. cbv zeta.
  by destruct (find_label _ _); [destruct (before_label _ _ _);
    destruct (parse_detail_lines _ _); simpl;
    [destruct (after_walk _ _ _)|]|].
Qed.

Lemma emit_spec blocks acc txs :
  Forall headed_block blocks → emit blocks acc = Ok txs →
  ∃ new, txs = acc ++ new ∧ Forall2 record_of_block blocks new.
Proof.
  intros Hb. revert acc.
  induction Hb as [|b rest Hh _ IH]; intros acc; simpl.
  - intros [= <-]. exists []. by rewrite app_nil_r.
  - pose proof (headed_not_rejected b Hh) as Hn.
    destruct (process_block b) as [[tx|]|e] eqn:Hp; simpl; [|done..].
    destruct (process_block_record b tx Hp) as [Hr Hne].
    rewrite bool_decide_false by done.
    intros (new & -> & H)%IH. exists (tx :: new).
    split; [by rewrite <- app_assoc | by constructor].
Qed.

(** X2: when the extraction of a stream ends without an exception, its
    records are those of the blocks, one for each and in their order, each
    with its block as audit text; and they are as many as the lines of
    header shape. *)
Theorem extraction_by_blocks (lines : list (list N))
    (txs : list (gmap string pyval)) :
  extract_transactions lines = Ok txs →
  Forall2 record_of_block (segment lines) txs
  ∧ length txs = length (header_lines lines).
Proof.
  unfold extract_transactions. intros He.
  destruct (emit_spec _ _ _ (segment_all_headed lines) He) as (new & -> & H).
  split; [done|]. by rewrite <- segment_length, (Forall2_length _ _ _ H).
Qed.

(** X2 at the purchase block, read as a stream. *)
Lemma extraction_by_blocks_witness :
  Forall2 record_of_block (segment purchase_block) [purchase_record]
  ∧ length [purchase_record] = length (header_lines purchase_block).
Proof.
  apply extraction_by_blocks. vm_compute. reflexivity.
Defined.

(** X3: at a line of header shape a stream can be cut: the records of the
    whole are the records of the two parts, and an exception in a part is
    one of the whole. *)
Theorem extraction_cut (l1 l2 : list (list N)) :
  (∀ line, head l2 = Some line → matches HEADER_RE line = true) →
  extract_transactions (l1 ++ l2)
  = t1 ← extract_transactions l1;
    t2 ← extract_transactions l2;
    Ok (t1 ++ t2).
Proof.
  intros H2. unfold extract_transactions.
  rewrite !segment_is_from, (segment_from_app [] l1 l2 H2), emit_app.
  destruct (emit (segment_from [] l1) []) as [t1|e]; simpl; [|done].
  apply emit_acc.
Qed.

(** X3 at two purchase blocks in a row. *)
Lemma extraction_cut_witness :
  extract_transactions (purchase_block ++ purchase_block)
  = t1 ← extract_transactions purchase_block;
    t2 ← extract_transactions purchase_block;
    Ok (t1 ++ t2).
Proof.
  apply extraction_cut. intros line [= <-]. vm_compute. reflexivity.
Defined.

(** X4: the lines before the first line of header shape have no part in
    the result, and a stream without a line of header shape has no
    record. *)
Theorem extraction_skips_preamble (junk : list (list N)) :
  Forall (λ line, matches HEADER_RE line = false) junk →
  (∀ lines, extract_transactions (junk ++ lines) = extract_transactions lines)
  ∧ extract_transactions junk = Ok [].
Proof.
  intros Hj.
  assert (H : ∀ lines,
    extract_transactions (junk ++ lines) = extract_transactions lines).
  { intros lines. unfold extract_transactions.
    by rewrite !segment_is_from, segment_from_junk. }
  split; [done|]. by rewrite <- (app_nil_r junk), H.
Qed.

(** X4 at a preamble of two lines. *)
Lemma extraction_skips_preamble_witness :
  (∀ lines,
     extract_transactions ([label_line; purchase_detail] ++ lines)
     = extract_transactions lines)
  ∧ extract_transactions [label_line; purchase_detail] = Ok [].
Proof.
  apply extraction_skips_preamble.
  repeat constructor; vm_compute; reflexivity.
Defined.

(** ** The header fields of a record *)

Lemma header_has_keys line header k :
  k ∈ HEADER_KEYS → parse_header_line line = Some header →
  is_Some (header !! k).
Proof.
  intros Hk. unfold parse_header_line.
  destruct (rmatch_ DATE_RE line); [|done]. cbv zeta. intros [= <-].
  repeat (apply elem_of_cons in Hk as [->|Hk];
          [rewrite ?lookup_insert_ne by done; rewrite lookup_insert_eq;
           by eexists|]).
  by apply elem_of_nil in Hk.
Qed.

Lemma header_field_kept (line0 : list N) (rest : list (list N))
    (header tx : gmap string pyval) (k : string) :
  k ∈ HEADER_KEYS →
  parse_header_line line0 = Some header →
  process_block (line0 :: rest) = Ok (Some tx) →
  tx !! k = header !! k.
Proof.
  intros Hk Hh Hp.
  pose proof (header_has_keys line0 header k Hk Hh) as Hs.
  assert (Hw : k ∉ WALK_KEYS).
  { revert Hk. rewrite !list_elem_of_In. vm_compute. intuition congruence. }
  destruct (process_block_keeps line0 rest header tx k Hw Hh Hp)
    as (tx0 & -> & H0).
  rewrite finish_lookup, H0.
  - destruct Hs as [v Hv]. rewrite Hv. by apply lookup_union_Some_l.
  - intros ->. revert Hk. rewrite list_elem_of_In. vm_compute.
    intuition congruence.
  - intros ->. revert Hk. rewrite list_elem_of_In. vm_compute.
    intuition congruence.
  - intros ->. revert Hk. rewrite list_elem_of_In. vm_compute.
    intuition congruence.
Qed.

(** X5: the eight header fields of a record are those read off the first
    line of its block; no line of the body changes them. *)
Theorem header_fields_final (line0 : list N) (rest : list (list N))
    (header tx : gmap string pyval) (k : string) :
  k ∈ HEADER_KEYS →
  parse_header_line line0 = Some header →
  process_block (line0 :: rest) = Ok (Some tx) →
  is_Some (header !! k) ∧ tx !! k = header !! k.
Proof.
  intros Hk Hh Hp. split.
  - by apply (header_has_keys line0).
  - by apply (header_field_kept line0 rest).
Qed.

(** ** The exceptions of the walk

    The walk raises no [TypeError]: the code and the type it adds to are
    strings whenever it adds to them.  [Q] holds of every transaction
    type of the walk, [P] of its lines. *)

Section walk_exceptions.

Context (Q : list N → Prop) (P : list N → Prop).

Hypothesis Q_main : ∀ line t,
  P line → (parse_detail_main_line line).2 = Some t → Q t.
Hypothesis Q_step : ∀ line t x,
  P line → Q t → type_addition line x → Q (Str.strip (t ++ u " " ++ x)).

Lemma typed_ext (tx tx' : gmap string pyval) :
  tx' !! "Kod_transakce" = tx !! "Kod_transakce" →
  tx' !! "Typ_transakce" = tx !! "Typ_transakce" →
  typed Q tx → typed Q tx'.
Proof. unfold typed. by intros -> ->. Qed.

Lemma typed_fx line tx : typed Q tx → typed Q (parse_fx_line line tx).2.
Proof.
  apply typed_ext; apply parse_fx_line_lookup;
    rewrite list_elem_of_In; vm_compute; intuition congruence.
Qed.

Lemma typed_misc line tx extra :
  typed Q tx → typed Q (handle_misc_line line tx extra).1.
Proof.
  apply typed_ext; apply handle_misc_line_lookup;
    rewrite list_elem_of_In; vm_compute; intuition congruence.
Qed.

Lemma typed_msg tx v : typed Q tx → typed Q (append_field tx "Zprava" v).
Proof. apply typed_ext; by apply append_field_lookup. Qed.

Lemma typed_main line tx :
  P line → typed Q tx → typed Q ((parse_detail_main_line line).1 ∪ tx).
Proof.
  intros HP HT. pose proof (Q_main line) as Hq.
  unfold parse_detail_main_line in *.
  destruct (rmatch_ DATE_RE line) as [m|]; cbv zeta in *.
  - destruct (_ <? 4)%nat; cbn [fst snd] in *.
    + revert HT. apply typed_ext; apply lookup_union_r;
        by apply lookup_singleton_ne.
    + right. eexists _, _. split; [|split; [|by apply Hq]].
      * apply lookup_union_Some_l. rewrite lookup_insert_ne by done.
        apply lookup_insert_eq.
      * apply lookup_union_Some_l. rewrite !lookup_insert_ne by done.
        apply lookup_insert_eq.
  - cbn [fst]. by rewrite (left_id_L ∅ (∪)).
Qed.

Lemma should_append_none line : should_append_type line VNone = Ok false.
Proof.
  unfold should_append_type.
  repeat match goal with
         | |- context [if ?x then _ else _] => destruct x; [done|]
         end.
  done.
Qed.

Lemma should_append_str line t e :
  should_append_type line (VStr t) = Raise e →
  e = IndexError
  ∧ normalize_text t ≠ [] ∧ Str.split (normalize_text t) = [].
Proof.
  unfold should_append_type.
  repeat match goal with
         | |- context [if ?x then _ else _] => destruct x; [done|]
         end.
  assert (Hn : normalized_type (VStr t) = Ok (normalize_text t)).
  { unfold normalized_type, py_or. simpl.
    destruct (Str.eqb t []) eqn:E; simpl; [|done].
    unfold Str.eqb in E. by apply bool_decide_eq_true in E as ->. }
  rewrite Hn. simpl.
  destruct (Str.eqb (normalize_text t) []) eqn:E; [done|].
  destruct (last (Str.split (normalize_text t))) as [lw|] eqn:El.
  - by repeat match goal with
              | |- context [if ?x then _ else _] => destruct x
              end.
  - intros [= <-]. split; [done|]. split.
    + intros E'. unfold Str.eqb in E. by rewrite E', bool_decide_true in E.
    + by apply last_None.
Qed.

Lemma unsafe_cons line lines : unsafe Q lines → unsafe Q (line :: lines).
Proof.
  intros (l & t & Hl & Hq & Hs). exists l, t. split; [by right|done].
Qed.

Lemma detail_tail_raise lines st e :
  Forall P lines → typed Q (w_tx st) → detail_tail lines st = Raise e →
  e = IndexError ∧ unsafe Q lines.
Proof.
  intros HP. revert st.
  induction HP as [|line rest Hl Hr IH]; intros st HT; simpl; [done|].
  assert (Hnext : ∀ st1, typed Q (w_tx st1) →
            detail_tail rest st1 = Raise e →
            e = IndexError ∧ unsafe Q (line :: rest)).
  { intros st1 H1 H2. destruct (IH st1 H1 H2) as [? ?].
    split; [done | by apply unsafe_cons]. }
  destruct (is_message_line line); [done|].
  pose proof (typed_fx line (w_tx st) HT) as Hfx.
  destruct (parse_fx_line line (w_tx st)) as [fx tx]. simpl in Hfx.
  destruct fx; [done|].
  destruct (matches DATE_RE line); [done|].
  destruct (is_ignored_line line); [by apply Hnext|].
  assert (Hmisc :
    (ok ← should_append_type line (get tx "Typ_transakce");
     if ok : bool then
       t ← str_add (default (VStr []) (tx !! "Typ_transakce"))
                   (u " " ++ Str.strip line);
       detail_tail rest
         (Walk (S (w_idx st)) (<["Typ_transakce" := VStr (Str.strip t)]> tx)
               (w_extra st))
     else
       let '(tx', extra') := handle_misc_line line tx (w_extra st) in
       detail_tail rest (Walk (S (w_idx st)) tx' extra')) = Raise e →
    e = IndexError ∧ unsafe Q (line :: rest)).
  { assert (Hm : (let '(tx', extra') := handle_misc_line line tx (w_extra st) in
                  detail_tail rest (Walk (S (w_idx st)) tx' extra')) = Raise e →
                 e = IndexError ∧ unsafe Q (line :: rest)).
    { pose proof (typed_misc line tx (w_extra st) Hfx) as Hm.
      destruct (handle_misc_line line tx (w_extra st)) as [tx' extra'].
      by apply Hnext. }
    destruct Hfx as [[Hk Ht]|(c & t & Hk & Ht & Hq)]; unfold get; rewrite Ht.
    - cbn [default from_option id]. rewrite should_append_none. exact Hm.
    - cbn [default from_option id].
      destruct (should_append_type line (VStr t)) as [[]|e'] eqn:Es;
        [| exact Hm |].
      + cbn. apply Hnext. cbn. right. exists c, (Str.strip (t ++ u " " ++ Str.strip line)).
        split; [by rewrite lookup_insert_ne|].
        split; [apply lookup_insert_eq|]. apply (Q_step line); [done..|by left].
      + cbn. intros [= <-].
        destruct (should_append_str _ _ _ Es) as [-> _]. split; [done|].
        exists line, t. split; [by left|done]. }
  destruct (Str.split (Str.strip line)) as [|first others] eqn:Etok; [done|].
  destruct Hfx as [[Hk Ht]|(c & t & Hk & Ht & Hq)].
  { unfold get at 1. rewrite Hk. cbn [default from_option id truthy andb]. exact Hmisc. }
  destruct (truthy (get tx "Kod_transakce") && looks_like_code_fragment first);
    [|done].
  rewrite Hk. cbn [default from_option id str_add mbind res_bind].
  set (tx1 := <["Kod_transakce" := VStr (Str.strip (c ++ first))]> tx).
  assert (H1 : typed Q tx1).
  { right. exists (Str.strip (c ++ first)), t. unfold tx1.
    split; [apply lookup_insert_eq|]. split; [by rewrite lookup_insert_ne|done]. }
  destruct others as [|o os]; [by apply Hnext|].
  destruct (Str.strip (Str.join (u " ") (o :: os))) as [|x xs] eqn:Ex;
    [by apply Hnext|].
  assert (Ht1 : tx1 !! "Typ_transakce" = Some (VStr t))
    by (unfold tx1; by rewrite lookup_insert_ne).
  rewrite Ht1. cbn [default from_option id str_add mbind res_bind].
  apply Hnext. cbn. right.
  exists (Str.strip (c ++ first)), (Str.strip (t ++ u " " ++ x :: xs)).
  unfold tx1. split; [by rewrite lookup_insert_ne, lookup_insert_eq|].
  split; [apply lookup_insert_eq|].
  apply (Q_step line); [done..|]. right. by rewrite Etok, <- Ex.
Qed.

Lemma parse_detail_lines_raise lines tx e :
  Forall P lines → typed Q tx → parse_detail_lines lines tx = Raise e →
  e = IndexError ∧ unsafe Q lines.
Proof.
  intros HP HT. unfold parse_detail_lines.
  destruct (detail_head_inv (typed Q) P (λ l t _, typed_fx l t)
              (λ l t x _, typed_misc l t x) lines (Walk 0 tx []) HP HT)
    as [H1 H2].
  pose proof (detail_head_extras lines (Walk 0 tx [])) as (_ & read & Hr & _).
  destruct (detail_head lines (Walk 0 tx [])) as [st1 [|main_line rest]];
    simpl in *; [done|].
  inversion H2 as [|? ? Hm Hrest]; subst.
  pose proof (typed_main main_line (w_tx st1) Hm H1) as H.
  destruct (parse_detail_main_line main_line) as [detail_info ?].
  intros [He (l & t & Hl & Hu)]%detail_tail_raise; [|done..].
  split; [done|]. exists l, t. split; [|done].
  apply elem_of_app. right. by right.
Qed.

Lemma typed_seed line header :
  parse_header_line line = Some header →
  typed Q (header ∪ list_to_map ((λ col, (col, VNone)) <$> COLUMNS)).
Proof.
  unfold parse_header_line.
  destruct (rmatch_ DATE_RE line); [|done]. cbv zeta. intros [= <-].
  left. split; (rewrite lookup_union_r;
    [done | by rewrite !lookup_insert_ne, lookup_singleton_ne by done]).
Qed.

Lemma process_block_raise block e :
  Forall P block → process_block block = Raise e →
  e = IndexError ∧ (block = [] ∨ unsafe Q block).
Proof.
  intros HP. destruct block as [|line0 rest].
  { intros [= <-]. split; [done | by left]. }
  inversion HP as [|? ? H0 Hrest]; subst. unfold process_block.
  destruct (parse_header_line line0) as [header|] eqn:Hh; [|done].
  pose proof (typed_seed line0 header Hh) as HT.
  set (tx0 := header ∪ _) in *.
  destruct (find_label (line0 :: rest) 0) as [label_idx|]; [|done].
  assert (Hpre : Forall P (drop 1 (take label_idx (line0 :: rest)))).
  { destruct label_idx; simpl; [constructor|].
    rewrite drop_0. by apply Forall_take. }
  assert (Hpost : Forall P (drop (S label_idx) (line0 :: rest)))
    by (simpl; by apply Forall_drop).
  pose proof (before_label_inv (typed Q) P (λ l t _, typed_fx l t)
                (λ l t x _, typed_misc l t x) _ tx0 [] Hpre HT) as H1.
  destruct (before_label _ tx0 []) as [tx1 extra1]. simpl in H1.
  destruct (parse_detail_lines _ tx1) as [st|e'] eqn:Est; simpl.
  { by destruct (after_walk _ _ _). }
  intros [= <-].
  destruct (parse_detail_lines_raise _ _ _ Hpost H1 Est)
    as [? (l & t & Hl & Hu)].
  split; [done|]. right. exists l, t. split; [|done].
  right. eapply subseteq_drop, Hl.
Qed.

End walk_exceptions.

(** ** Streams that raise no exception *)

Lemma normalize_text_app (a b : list N) :
  normalize_text (a ++ b) = normalize_text a ++ normalize_text b.
Proof.
  unfold normalize_text, Str.lower.
  by rewrite bind_app, List.filter_app, bind_app.
Qed.

Lemma normalize_text_elem (y : N) (t : list N) :
  y ∈ normalize_text t ↔ ∃ c, c ∈ t ∧ y ∈ normalize_text [c].
Proof.
  induction t as [|a t IH].
  - split; [by intros ?%elem_of_nil | by intros (c & ?%elem_of_nil & _)].
  - change (a :: t) with ([a] ++ t). rewrite normalize_text_app, elem_of_app, IH.
    split.
    + intros [H|(c & Hc & H)]; [exists a | exists c];
        (split; [|done]); [by left | by right].
    + intros (c & [->|Hc]%elem_of_cons & H); [by left|]. right. by exists c.
Qed.

Lemma nfkd_char_above (c : N) : 384 ≤ c → nfkd_char c = [c].
Proof.
  intros Hc. unfold nfkd_char.
  by rewrite (assoc_above 384 c nfkd_table) by (done || by vm_compute).
Qed.

Lemma normalize_text_above (c : N) : 384 ≤ c → normalize_text [c] = [].
Proof.
  intros Hc. unfold normalize_text. rewrite bind_singleton, nfkd_char_above by done.
  simpl. destruct (N.ltb_spec c 128); [lia|done].
Qed.

(** The normalization of a blank has blanks alone. *)
Lemma normalize_blank (c y : N) :
  is_space c = true → y ∈ normalize_text [c] → is_space y = true.
Proof.
  intros Hc Hy.
  pose (B := λ c, negb (is_space c) || forallb is_space (normalize_text [c])).
  assert (HB : B c = true).
  { apply by_table; [by vm_compute|].
    intros x Hx. unfold B. rewrite normalize_text_above by done.
    apply orb_true_r. }
  unfold B in HB. rewrite Hc in HB. simpl in HB.
  rewrite forallb_forall in HB. by apply HB, list_elem_of_In.
Qed.

Lemma split_go_nil (s cur : list N) :
  Str.split_go s cur = [] ↔ cur = [] ∧ Forall (λ c, is_space c = true) s.
Proof.
  revert cur. induction s as [|a t IH]; intros cur; simpl.
  - destruct cur; split; try done. by intros [? _].
  - destruct (is_space a) eqn:E.
    + destruct cur.
      * rewrite IH. split; intros [? H]; (split; [done|]);
          [by constructor | by inversion H].
      * split; [done | by intros [? _]].
    + rewrite IH. split; [by intros [? _]|].
      intros [_ H]. inversion H; congruence.
Qed.

Lemma split_word (s : list N) :
  Str.split s ≠ [] ↔ ∃ y, y ∈ s ∧ is_space y = false.
Proof.
  unfold Str.split. rewrite split_go_nil. split.
  - intros H. induction s as [|a t IH].
    + destruct H. by split.
    + destruct (is_space a) eqn:E; [|exists a; split; [by left|done]].
      destruct IH as (y & Hy & Hs).
      * intros [_ Ht]. apply H. split; [done | by constructor].
      * exists y. split; [by right|done].
  - intros (y & Hy & Hs) [_ H]. rewrite Forall_forall in H.
    apply H in Hy. congruence.
Qed.

Lemma strip_keeps (c : N) (x : list N) :
  c ∈ x → is_space c = false → c ∈ Str.strip x.
Proof.
  intros Hc Hs. destruct (strip_decompose x) as (a & b & E & Ha & Hb).
  rewrite E in Hc. rewrite Forall_forall in Ha, Hb.
  apply elem_of_app in Hc as [Hc|Hc]; [apply Ha in Hc; congruence|].
  apply elem_of_app in Hc as [Hc|Hc]; [done | apply Hb in Hc; congruence].
Qed.

Lemma strip_sub (c : N) (x : list N) : c ∈ Str.strip x → c ∈ x.
Proof.
  intros Hc. destruct (strip_decompose x) as (a & b & E & _).
  rewrite E. apply elem_of_app. right. apply elem_of_app. by left.
Qed.

Lemma split_go_sub (s cur tok : list N) (c : N) :
  tok ∈ Str.split_go s cur → c ∈ tok → c ∈ s ∨ c ∈ cur.
Proof.
  revert cur. induction s as [|a t IH]; intros cur; simpl.
  - destruct cur; [by intros ?%elem_of_nil|].
    intros ->%list_elem_of_singleton Hc. right. by rewrite elem_of_reverse in Hc.
  - destruct (is_space a).
    + destruct cur.
      * intros Ht Hc. destruct (IH _ Ht Hc) as [?|?]; [left; by right | by right].
      * intros [->|Ht]%elem_of_cons Hc.
        -- right. by rewrite elem_of_reverse in Hc.
        -- destruct (IH _ Ht Hc) as [?|?%elem_of_nil]; [left; by right | done].
    + intros Ht Hc. destruct (IH _ Ht Hc) as [?|[->|?]%elem_of_cons];
        [left; by right | left; by left | by right].
Qed.

Lemma split_sub (s tok : list N) (c : N) :
  tok ∈ Str.split s → c ∈ tok → c ∈ s.
Proof.
  intros Ht Hc. by destruct (split_go_sub s [] tok c Ht Hc) as [?|?%elem_of_nil].
Qed.

Lemma join_sub (sep : list N) (l : list (list N)) (c : N) :
  c ∈ Str.join sep l → c ∈ sep ∨ ∃ x, x ∈ l ∧ c ∈ x.
Proof.
  induction l as [|x l IH]; simpl; [by intros ?%elem_of_nil|].
  destruct l as [|x' l'].
  - intros Hc. right. exists x. split; [by left|done].
  - intros [Hc|[Hc|Hc]%elem_of_app]%elem_of_app.
    + right. exists x. split; [by left|done].
    + by left.
    + destruct (IH Hc) as [?|(z & Hz & ?)]; [by left|].
      right. exists z. split; [by right|done].
Qed.

Lemma plain_word (t : list N) (c : N) :
  c ∈ t → is_space c = false → plain c = true →
  Str.split (normalize_text t) ≠ [].
Proof.
  intros Hc Hs Hp. unfold plain in Hp. rewrite Hs in Hp. simpl in Hp.
  apply existsb_exists in Hp as (y & Hy%list_elem_of_In & Hn).
  apply split_word. exists y. split; [|by destruct (is_space y)].
  apply normalize_text_elem. by exists c.
Qed.

Lemma plain_stripped (x : list N) :
  Forall (λ c, plain c = true) x → worded (Str.strip x).
Proof.
  intros Hx. destruct (Str.strip x) as [|c r] eqn:E; [by left|]. right.
  assert (Hc : c ∈ Str.strip x) by (rewrite E; by left).
  rewrite <- E. apply (plain_word _ c); [done|..].
  - apply (proj1 (strip_ends x)). by rewrite E.
  - rewrite Forall_forall in Hx. by apply Hx, strip_sub.
Qed.

Lemma plain_joined (line : list N) (toks : list (list N)) :
  Forall (λ c, plain c = true) line →
  (∀ tok, tok ∈ toks → ∀ c, c ∈ tok → c ∈ line) →
  Forall (λ c, plain c = true) (Str.join (u " ") toks).
Proof.
  intros Hl Ht. rewrite Forall_forall in Hl. apply Forall_forall.
  intros c [Hc|(tok & Htok & Hc)]%join_sub.
  - by apply list_elem_of_singleton in Hc as ->.
  - by apply Hl, (Ht tok).
Qed.

Lemma worded_main (line t : list N) :
  Forall (λ c, plain c = true) line →
  (parse_detail_main_line line).2 = Some t → worded t.
Proof.
  intros Hl. unfold parse_detail_main_line.
  destruct (rmatch_ DATE_RE line) as [m|]; cbv zeta; [|done].
  destruct (_ <? 4)%nat; cbn [snd]; [done|]. intros [= <-].
  apply plain_stripped, (plain_joined line); [done|].
  intros tok Htok c Hc.
  apply (subseteq_drop 1), (subseteq_take _) in Htok.
  apply (split_sub _ _ c) in Htok; [|done].
  apply strip_sub in Htok. by apply (subseteq_drop _) in Htok.
Qed.

Lemma plain_addition (line x : list N) :
  Forall (λ c, plain c = true) line → type_addition line x →
  Forall (λ c, plain c = true) x ∧ no_blank_ends x.
Proof.
  intros Hl [->| ->]; (split; [|apply strip_ends]).
  - rewrite Forall_forall in Hl. apply Forall_forall.
    intros c Hc%strip_sub. by apply Hl.
  - apply Forall_forall. intros c Hc%strip_sub. revert c Hc.
    apply Forall_forall, (plain_joined line); [done|].
    intros tok Htok%(subseteq_drop 1) c Hc.
    by apply (split_sub _ _ c), strip_sub in Htok.
Qed.

Lemma normalize_text_nil (t : list N) :
  normalize_text t = [] ↔ ∀ c, c ∈ t → normalize_text [c] = [].
Proof.
  split.
  - intros E c Hc. destruct (normalize_text [c]) as [|y r] eqn:Ec; [done|].
    assert (Hy : y ∈ normalize_text t).
    { apply normalize_text_elem. exists c. split; [done|]. rewrite Ec. by left. }
    rewrite E in Hy. by apply elem_of_nil in Hy.
  - intros H. destruct (normalize_text t) as [|y r] eqn:E; [done|].
    assert (Hy : y ∈ normalize_text t) by (rewrite E; by left).
    apply normalize_text_elem in Hy as (c & Hc & Hy).
    rewrite (H c Hc) in Hy. by apply elem_of_nil in Hy.
Qed.

Lemma worded_step (line t x : list N) :
  Forall (λ c, plain c = true) line → worded t → type_addition line x →
  worded (Str.strip (t ++ u " " ++ x)).
Proof.
  intros Hl [Ht|Ht] Hx.
  - destruct (plain_addition line x Hl Hx) as [Hp [Hh _]].
    destruct x as [|c r].
    + left. change (t ++ u " " ++ []) with ([] ++ t ++ u " " ++ []).
      rewrite (strip_pad [] t (u " " ++ [])) by (by repeat constructor).
      apply normalize_text_nil. intros c Hc%strip_sub.
      by apply (proj1 (normalize_text_nil t)).
    + right. apply (plain_word _ c).
      * apply strip_keeps; [|by apply Hh].
        apply elem_of_app. right. apply elem_of_app. right. by left.
      * by apply Hh.
      * by inversion Hp.
  - right. apply split_word in Ht as (y & Hy & Hs).
    apply normalize_text_elem in Hy as (c & Hc & Hy).
    apply split_word. exists y. split; [|done].
    apply normalize_text_elem. exists c. split; [|done].
    apply strip_keeps; [apply elem_of_app; by left|].
    destruct (is_space c) eqn:E; [|done].
    pose proof (normalize_blank c y E Hy). congruence.
Qed.

Lemma worded_safe (lines : list (list N)) : ¬ unsafe worded lines.
Proof.
  intros (line & t & _ & [Hw|Hw] & Hs);
    by apply should_append_str in Hs as (_ & Hn & He).
Qed.

Lemma emit_raise (S : list (list N) → Prop) blocks acc e :
  (∀ block, block ∈ blocks → S block) →
  emit blocks acc = Raise e →
  ∃ block, S block ∧ process_block block = Raise e.
Proof.
  revert acc. induction blocks as [|b rest IH]; intros acc Hs; simpl; [done|].
  destruct (process_block b) as [[tx|]|e'] eqn:Hp; simpl.
  - destruct (bool_decide (tx = ∅)); apply IH; intros ? ?; apply Hs; by right.
  - apply IH. intros ? ?. apply Hs. by right.
  - intros [= <-]. exists b. split; [apply Hs; by left | done].
Qed.

(** X6: no block and no stream raises a [TypeError]: whenever the walk
    adds text to the transaction code or type, the field holds a
    string. *)
Theorem no_type_error :
  (∀ block, process_block block ≠ Raise TypeError)
  ∧ (∀ lines, extract_transactions lines ≠ Raise TypeError).
Proof.
  assert (H : ∀ block, process_block block ≠ Raise TypeError).
  { intros block Hp.
    by destruct (process_block_raise (λ _, True) (λ _, True)
                   (λ _ _ _ _, I) (λ _ _ _ _ _ _, I) block TypeError
                   ltac:(by apply Forall_true) Hp). }
  split; [done|]. intros lines He.
  destruct (emit_raise (λ _, True) _ _ _ (λ _ _, I) He) as (block & _ & Hp).
  by apply H in Hp.
Qed.

(** X7: a stream of plain characters (blanks, and characters of which
    the normalization keeps a character that is no blank) raises no
    exception: its extraction ends with a list of records. *)
Theorem plain_stream_extracted (lines : list (list N)) :
  Forall (Forall (λ c, plain c = true)) lines →
  ∃ txs, extract_transactions lines = Ok txs.
Proof.
  intros Hl. destruct (extract_transactions lines) as [txs|e] eqn:He;
    [by exists txs|].
  unfold extract_transactions in He.
  assert (Hs : ∀ block, block ∈ segment lines →
            headed_block block
            ∧ Forall (Forall (λ c, plain c = true)) block).
  { intros block Hb. split.
    - pose proof (segment_all_headed lines) as H.
      rewrite Forall_forall in H. by apply H.
    - rewrite Forall_forall in Hl. apply Forall_forall. intros line Hin.
      by apply Hl, (segment_sub lines block). }
  destruct (emit_raise _ _ _ _ Hs He) as (block & [Hh Hb] & Hp).
  destruct (process_block_raise worded (Forall (λ c, plain c = true))
              worded_main worded_step block e Hb Hp) as [_ [->|Hu]].
  - by destruct Hh as (? & ? & ? & _).
  - by apply worded_safe in Hu.
Qed.

(** X7 at the purchase block, read as a stream. *)
Lemma plain_stream_extracted_witness :
  ∃ txs, extract_transactions purchase_block = Ok txs.
Proof.
  apply plain_stream_extracted.
  apply Forall_forall. intros line Hl. apply Forall_forall. intros c Hc.
  revert Hl Hc. rewrite !list_elem_of_In.
  assert (H : forallb (forallb plain) purchase_block = true)
    by (vm_compute; reflexivity).
  rewrite forallb_forall in H. intros Hl Hc.
  specialize (H line Hl). rewrite forallb_forall in H. by apply H.
Defined.

(** ** Normalized text *)

Lemma normalize_char_normal (c : N) :
  forallb normal_char (normalize_text [c]) = true.
Proof.
  apply (by_table (λ c, forallb normal_char (normalize_text [c])));
    [by vm_compute|].
  intros x Hx. by rewrite normalize_text_above.
Qed.

Lemma normalize_normal_char (c : N) :
  normal_char c = true → normalize_text [c] = [c].
Proof.
  intros Hc.
  pose (B := λ c, negb (normal_char c) || bool_decide (normalize_text [c] = [c])).
  assert (HB : B c = true).
  { apply by_table; [by vm_compute|].
    intros x Hx. unfold B, normal_char.
    destruct (N.ltb_spec x 128); [lia|done]. }
  unfold B in HB. rewrite Hc in HB. by apply bool_decide_eq_true in HB.
Qed.

(** X8: [normalize_text] works one character at a time; what it yields
    is ASCII without capital letters, and normalizing it again changes
    nothing. *)
Theorem normalize_text_normal (text : list N) :
  (∀ more, normalize_text (text ++ more)
           = normalize_text text ++ normalize_text more)
  ∧ Forall (λ c, normal_char c = true) (normalize_text text)
  ∧ normalize_text (normalize_text text) = normalize_text text.
Proof.
  assert (Hn : Forall (λ c, normal_char c = true) (normalize_text text)).
  { apply Forall_forall. intros y (c & _ & Hy)%normalize_text_elem.
    pose proof (normalize_char_normal c) as H. rewrite forallb_forall in H.
    by apply H, list_elem_of_In. }
  split; [intros more; apply normalize_text_app|]. split; [done|].
  induction Hn as [|y l Hy _ IH]; [done|].
  change (y :: l) with ([y] ++ l).
  by rewrite normalize_text_app, IH, normalize_normal_char.
Qed.

(** ** Values appended to a field *)

Lemma join_cons (sep x : list N) (l : list (list N)) :
  Str.join sep (x :: l) = x ++ (l ≫= λ y, sep ++ y).
Proof.
  revert x. induction l as [|y l IH]; intros x; [by rewrite app_nil_r|].
  change (Str.join sep (x :: y :: l)) with (x ++ sep ++ Str.join sep (y :: l)).
  by rewrite (IH y), bind_cons, <- app_assoc.
Qed.

Lemma append_field_more (tx : gmap string pyval) (key : string)
    (a : list N) (values : list (list N)) :
  a ≠ [] →
  foldl (λ tx v, append_field tx key v) (<[key := VStr a]> tx) values
  = <[key := VStr (a ++ (List.filter (λ v, negb (Str.eqb v [])) values
                         ≫= λ y, u " | " ++ y))]> tx.
Proof.
  revert a. induction values as [|v values IH]; intros a Ha; simpl.
  - by rewrite app_nil_r.
  - unfold append_field at 2.
    destruct (Str.eqb v []) eqn:Ev; simpl; [by apply IH|].
    unfold get. rewrite lookup_insert_eq. simpl.
    assert (Str.eqb a [] = false) as ->.
    { unfold Str.eqb. by apply bool_decide_eq_false. }
    simpl. rewrite insert_insert_eq, IH by (by destruct a).
    by rewrite <- !app_assoc.
Qed.

(** X9: values appended in turn to a field that is unset make up the
    non-empty ones among them joined by [" | "]; when all are empty the
    record is as it was. *)
Theorem append_field_joins (tx : gmap string pyval) (key : string)
    (values : list (list N)) :
  truthy (get tx key) = false →
  foldl (λ tx v, append_field tx key v) tx values
  = match List.filter (λ v, negb (Str.eqb v [])) values with
    | [] => tx
    | vs => <[key := VStr (Str.join (u " | ") vs)]> tx
    end.
Proof.
  intros Ht. induction values as [|v values IH]; [done|].
  cbn [foldl List.filter]. unfold append_field at 2.
  destruct (Str.eqb v []) eqn:Ev; cbn [negb]; [exact IH|].
  rewrite Ht, append_field_more, join_cons; [done|].
  intros ->. unfold Str.eqb in Ev. by rewrite bool_decide_true in Ev.
Qed.

(** X9 at two messages and an empty one, on a record without message. *)
Lemma append_field_joins_witness :
  foldl (λ tx v, append_field tx "Zprava" v) ∅ [u "a"; []; u "b"]
  = <["Zprava" := VStr (u "a | b")]> ∅.
Proof.
  etrans; [apply append_field_joins; vm_compute; reflexivity | reflexivity].
Defined.

(** ** The header fields, once more *)

(** X5 at the counterparty of the purchase block. *)
Lemma header_fields_final_witness :
  is_Some (default ∅ (parse_header_line purchase_header) !! "Protistrana")
  ∧ purchase_record !! "Protistrana"
    = default ∅ (parse_header_line purchase_header) !! "Protistrana".
Proof.
  apply (header_fields_final purchase_header [label_line; purchase_detail]).
  - apply list_elem_of_In. vm_compute. tauto.
  - vm_compute. reflexivity.
  - apply emitted_record. vm_compute. reflexivity.
Defined.

(** ** The lines of the pages *)

Lemma splitlines_go_line (x s cur : list N) :
  Forall (λ c, is_linebreak c = false) x →
  splitlines_go (x ++ s) cur = splitlines_go s (reverse x ++ cur).
Proof.
  intros Hx. revert cur. induction Hx as [|c x Hc _ IH]; intros cur; [done|].
  rewrite reverse_cons, <- app_assoc. simpl. by rewrite <- IH, Hc.
Qed.

Lemma splitlines_go_clean (s cur line : list N) :
  Forall (λ c, is_linebreak c = false) cur →
  line ∈ splitlines_go s cur → Forall (λ c, is_linebreak c = false) line.
Proof.
  remember (length s) as n eqn:En. revert s cur En.
  induction n as [n IH] using lt_wf_ind. intros s cur -> Hcur.
  destruct s as [|c t]; simpl.
  - destruct cur; [by intros ?%elem_of_nil|].
    intros ->%list_elem_of_singleton. by apply Forall_reverse.
  - destruct (is_linebreak c) eqn:Ec.
    + intros [->|Hl]%elem_of_cons; [by apply Forall_reverse|].
      destruct t as [|c2 t2]; [by apply elem_of_nil in Hl|].
      destruct ((c =? 13) && (c2 =? 10)).
      * apply (IH (length t2)) with (s := t2) (cur := []); simpl; (lia || done).
      * apply (IH (length (c2 :: t2))) with (s := c2 :: t2) (cur := []);
          simpl; (lia || done).
    + apply (IH (length t)); simpl; [lia | done | by constructor].
Qed.

Lemma splitlines_go_feed (c : N) (t cur : list N) :
  splitlines_go (10 :: c :: t) cur = reverse cur :: splitlines_go (c :: t) [].
Proof. done. Qed.

Lemma splitlines_join (lines : list (list N)) :
  Forall (Forall (λ c, is_linebreak c = false)) lines →
  (∀ l, last lines = Some l → l ≠ []) →
  splitlines (Str.join [10] lines) = lines.
Proof.
  unfold splitlines. intros Hl. induction Hl as [|x l Hx _ IH]; [done|].
  intros Hlast. destruct l as [|y l].
  - simpl. rewrite <- (app_nil_r x) at 1.
    rewrite splitlines_go_line, app_nil_r by done.
    simpl. specialize (Hlast x eq_refl).
    destruct (reverse x) eqn:E; [|by rewrite <- E, reverse_involutive].
    apply (f_equal reverse) in E. by rewrite reverse_involutive in E.
  - change (Str.join [10] (x :: y :: l))
      with (x ++ 10 :: Str.join [10] (y :: l)).
    rewrite splitlines_go_line, app_nil_r by done.
    specialize (IH Hlast).
    destruct (Str.join [10] (y :: l)) as [|c2 t2] eqn:Ej.
    + simpl in IH. done.
    + by rewrite splitlines_go_feed, reverse_involutive, IH.
Qed.

(** X10: the lines read off the pages hold no line break, a page without
    text gives no line, and a page whose text is lines joined by line
    feeds is read as these lines. *)
Theorem read_pages_lines :
  (∀ pdf line, line ∈ read_pages pdf →
     Forall (λ c, is_linebreak c = false) line)
  ∧ (∀ pdf, read_pages (None :: pdf) = read_pages pdf
            ∧ read_pages (Some [] :: pdf) = read_pages pdf)
  ∧ (∀ lines,
       Forall (Forall (λ c, is_linebreak c = false)) lines →
       (∀ l, last lines = Some l → l ≠ []) →
       read_pages [Some (Str.join [10] lines)] = lines).
Proof.
  split; [|split].
  - intros pdf line (text & Hl & _)%list_elem_of_bind.
    by apply (splitlines_go_clean _ []) in Hl.
  - done.
  - intros lines H1 H2. unfold read_pages.
    rewrite bind_singleton. by apply splitlines_join.
Qed.

(** ** The table written *)

(** X11: when [main] writes the table, the document is a file, the table
    goes to [transakce.csv] with the columns of the schema, and it has one
    row for each line of header shape read off the pages, at least one,
    each row with one cell for every column. *)
Theorem main_writes_table (is_file : bool) (pdf : list (option (list N)))
    (path : string) (columns : list string) (rows : list (list pyval)) :
  ToCsv path columns rows ∈ effects_of (main is_file pdf) →
  is_file = true ∧ path = OUTPUT_CSV ∧ columns = COLUMNS
  ∧ rows ≠ []
  ∧ length rows = length (header_lines (read_pages pdf))
  ∧ Forall (λ row, length row = length COLUMNS) rows.
Proof.
  unfold main. destruct is_file; simpl; [|by intros ?%elem_of_nil].
  destruct (extract_transactions (read_pages pdf)) as [txs|e] eqn:He;
    [|by intros ?%elem_of_nil].
  destruct (emit_spec _ _ _ (segment_all_headed (read_pages pdf)) He)
    as (new & -> & H).
  destruct new as [|tx new].
  { by intros [[=]|?%elem_of_nil]%elem_of_cons. }
  intros [[= -> -> ->]|[[=]|?%elem_of_nil]%elem_of_cons]%elem_of_cons;
    [|done].
  split; [done|]. split; [done|]. split; [done|]. split; [done|]. split.
  - change (length (DataFrame (tx :: new) COLUMNS)
            = length (header_lines (read_pages pdf))).
    unfold DataFrame.
    by rewrite length_fmap, <- segment_length, (Forall2_length _ _ _ H).
  - change (Forall (λ row, length row = length COLUMNS)
                   (DataFrame (tx :: new) COLUMNS)).
    unfold DataFrame. apply Forall_fmap, Forall_true. intros tx'.
    apply length_fmap.
Qed.

(** X11 at the purchase block on one page. *)
Lemma main_writes_table_witness :
  true = true ∧ OUTPUT_CSV = OUTPUT_CSV ∧ COLUMNS = COLUMNS
  ∧ DataFrame [purchase_record] COLUMNS ≠ []
  ∧ length (DataFrame [purchase_record] COLUMNS)
    = length (header_lines (read_pages [Some (Str.join [10] purchase_block)]))
  ∧ Forall (λ row, length row = length COLUMNS)
           (DataFrame [purchase_record] COLUMNS).
Proof.
  apply (main_writes_table true [Some (Str.join [10] purchase_block)]).
  vm_compute. left.
Defined.

(** ** Where the supplement comes from

    [G] holds of every line that the walk over lines of which [P] holds
    adds to the supplement, and the walk leaves the supplement field of
    the record alone. *)

Section supplement_walk.

Context (G : list N → Prop) (P : list N → Prop).

Hypothesis G_line : ∀ line,
  P line → is_ignored_line line = false → fx_recognized line = false →
  G (Str.strip line).

Lemma handle_misc_line_sound line tx extra :
  P line → fx_recognized line = false → Forall G extra →
  Forall G (handle_misc_line line tx extra).2
  ∧ (handle_misc_line line tx extra).1 !! "Doplnek" = tx !! "Doplnek".
Proof.
  intros HP Hfx Hg. split.
  - unfold handle_misc_line.
    destruct (is_ignored_line line) eqn:Ei; [done|]. cbv zeta.
    repeat match goal with
           | |- context [if ?x then _ else _] => destruct x; [done|]
           end.
    apply Forall_app. split; [done|]. repeat constructor. by apply G_line.
  - apply handle_misc_line_lookup. rewrite list_elem_of_In. vm_compute.
    intuition congruence.
Qed.

Lemma fx_or_misc_sound line tx extra :
  P line → Forall G extra →
  Forall G (fx_or_misc line tx extra).2
  ∧ (fx_or_misc line tx extra).1 !! "Doplnek" = tx !! "Doplnek".
Proof.
  intros HP Hg. unfold fx_or_misc.
  pose proof (parse_fx_line_verdict line tx) as Hv.
  assert (Hk : (parse_fx_line line tx).2 !! "Doplnek" = tx !! "Doplnek").
  { apply parse_fx_line_lookup. rewrite list_elem_of_In. vm_compute.
    intuition congruence. }
  destruct (parse_fx_line line tx) as [[] tx']; simpl in *; [done|].
  rewrite <- Hk. by apply handle_misc_line_sound.
Qed.

Lemma before_label_sound lines tx extra :
  Forall P lines → Forall G extra →
  Forall G (before_label lines tx extra).2
  ∧ (before_label lines tx extra).1 !! "Doplnek" = tx !! "Doplnek".
Proof.
  unfold before_label. intros HP. revert tx extra.
  induction HP as [|line rest Hl _ IH]; intros tx extra Hg; simpl; [done|].
  destruct (fx_or_misc_sound line tx extra Hl Hg) as [H1 H2].
  destruct (fx_or_misc line tx extra) as [tx' extra']. simpl in *.
  rewrite <- H2. by apply IH.
Qed.

Lemma detail_head_sound lines st :
  Forall P lines → Forall G (w_extra st) →
  Forall G (w_extra (detail_head lines st).1)
  ∧ w_tx (detail_head lines st).1 !! "Doplnek" = w_tx st !! "Doplnek"
  ∧ Forall P (detail_head lines st).2.
Proof.
  intros HP. revert st.
  induction HP as [|line rest Hl Hr IH]; intros st Hg; simpl; [done|].
  destruct (matches DATE_RE line); simpl; [by repeat split; [|constructor]|].
  destruct (fx_or_misc_sound line (w_tx st) (w_extra st) Hl Hg) as [H1 H2].
  destruct (fx_or_misc line (w_tx st) (w_extra st)) as [tx' extra'].
  simpl in *. rewrite <- H2. by apply IH.
Qed.

Lemma detail_tail_sound lines st st' :
  Forall P lines → Forall G (w_extra st) → detail_tail lines st = Ok st' →
  Forall G (w_extra st') ∧ w_tx st' !! "Doplnek" = w_tx st !! "Doplnek".
Proof.
  intros HP. revert st.
  induction HP as [|line rest Hl Hr IH]; intros st Hg; simpl.
  { by intros [= <-]. }
  destruct (is_message_line line); [by intros [= <-]|].
  pose proof (parse_fx_line_verdict line (w_tx st)) as Hv.
  assert (Hk : (parse_fx_line line (w_tx st)).2 !! "Doplnek"
               = w_tx st !! "Doplnek").
  { apply parse_fx_line_lookup. rewrite list_elem_of_In. vm_compute.
    intuition congruence. }
  destruct (parse_fx_line line (w_tx st)) as [fx tx]. simpl in Hv, Hk.
  rewrite <- Hk.
  destruct fx; [by intros [= <-]|].
  destruct (matches DATE_RE line); [by intros [= <-]|].
  destruct (is_ignored_line line); [by apply IH|].
  assert (Hmisc :
    (ok ← should_append_type line (get tx "Typ_transakce");
     if ok : bool then
       t ← str_add (default (VStr []) (tx !! "Typ_transakce"))
                   (u " " ++ Str.strip line);
       detail_tail rest
         (Walk (S (w_idx st)) (<["Typ_transakce" := VStr (Str.strip t)]> tx)
               (w_extra st))
     else
       let '(tx', extra') := handle_misc_line line tx (w_extra st) in
       detail_tail rest (Walk (S (w_idx st)) tx' extra')) = Ok st' →
    Forall G (w_extra st') ∧ w_tx st' !! "Doplnek" = tx !! "Doplnek").
  { destruct (should_append_type line (get tx "Typ_transakce")) as [[]|];
      simpl; [| |done].
    - destruct (str_add _ _) as [t|]; simpl; [|done].
      intros [H1 H2]%IH; [|done]. split; [done|].
      rewrite H2. simpl. by rewrite lookup_insert_ne.
    - destruct (handle_misc_line_sound line tx (w_extra st) Hl (eq_sym Hv) Hg)
        as [H1 H2].
      destruct (handle_misc_line line tx (w_extra st)) as [tx' extra'].
      simpl in *. rewrite <- H2. by apply IH. }
  destruct (Str.split (Str.strip line)) as [|first others]; [done|].
  destruct (truthy (get tx "Kod_transakce") && looks_like_code_fragment first);
    [|done].
  destruct (str_add _ first) as [c|]; simpl; [|done].
  destruct others as [|o os].
  { intros [H1 H2]%IH; [|done]. split; [done|].
    rewrite H2. simpl. by rewrite lookup_insert_ne. }
  destruct (Str.strip (Str.join (u " ") (o :: os))) as [|e es].
  { intros [H1 H2]%IH; [|done]. split; [done|].
    rewrite H2. simpl. by rewrite lookup_insert_ne. }
  destruct (str_add (default (VStr []) (<[_:=_]> tx !! _)) _) as [t|];
    simpl; [|done].
  intros [H1 H2]%IH; [|done]. split; [done|].
  rewrite H2. simpl. by rewrite !lookup_insert_ne.
Qed.

Lemma parse_detail_lines_sound lines tx st :
  Forall P lines → parse_detail_lines lines tx = Ok st →
  Forall G (w_extra st) ∧ w_tx st !! "Doplnek" = tx !! "Doplnek".
Proof.
  intros HP. unfold parse_detail_lines.
  destruct (detail_head_sound lines (Walk 0 tx []) HP) as (H1 & H2 & H3);
    [constructor|].
  destruct (detail_head lines (Walk 0 tx [])) as [st1 [|main_line rest]];
    simpl in *; [by intros [= <-]|].
  inversion H3 as [|? ? Hm Hrest]; subst.
  assert (Hk : ((parse_detail_main_line main_line).1 ∪ w_tx st1) !! "Doplnek"
               = w_tx st1 !! "Doplnek").
  { apply main_line_lookup. rewrite list_elem_of_In. vm_compute.
    intuition congruence. }
  destruct (parse_detail_main_line main_line) as [detail_info ?].
  intros [H4 H5]%detail_tail_sound; [|done..]. split; [done|].
  by rewrite H5, <- H2.
Qed.

Lemma after_walk_sound lines tx extra :
  Forall P lines → Forall G extra →
  Forall G (after_walk lines tx extra).2
  ∧ (after_walk lines tx extra).1 !! "Doplnek" = tx !! "Doplnek".
Proof.
  intros HP. revert tx extra.
  induction HP as [|line rest Hl _ IH]; intros tx extra Hg; simpl; [done|].
  destruct (is_ignored_line line); [by apply IH|].
  destruct (is_message_line line).
  { destruct (IH (append_field tx "Zprava"
                    (if Str.contains (u ":") line
                     then Str.strip (Str.after_first_colon line)
                     else Str.strip line)) extra Hg) as [H1 H2].
    split; [done|]. rewrite H2. by apply append_field_lookup. }
  destruct (fx_or_misc_sound line tx extra Hl Hg) as [H1 H2].
  destruct (fx_or_misc line tx extra) as [tx' extra']. simpl in *.
  rewrite <- H2. by apply IH.
Qed.

End supplement_walk.

Lemma not_ignored_stripped line :
  is_ignored_line line = false → Str.strip line ≠ [].
Proof.
  unfold is_ignored_line. intros H E. rewrite E in H.
  by rewrite orb_true_r in H.
Qed.

Lemma filter_nonempty (l : list (list N)) :
  Forall (λ e, e ≠ []) l → List.filter (λ e, negb (Str.eqb e [])) l = l.
Proof.
  induction 1 as [|e l He _ IH]; simpl; [done|].
  unfold Str.eqb at 1. by rewrite bool_decide_false, IH.
Qed.

(** X12: the supplement of a record is null, or it is made of lines of
    the body of its block, trimmed and joined by [" | "], at least one,
    none of them empty, ignorable, or recognized by the FX parser. *)
Theorem supplement_sound (block : list (list N)) (tx : gmap string pyval) :
  process_block block = Ok (Some tx) →
  tx !! "Doplnek" = Some VNone
  ∨ ∃ extras, extras ≠ []
      ∧ Forall (supplement_entry block) extras
      ∧ tx !! "Doplnek" = Some (VStr (Str.join (u " | ") extras)).
Proof.
  destruct block as [|line0 rest]; [done|]. unfold process_block.
  destruct (parse_header_line line0) as [header|] eqn:Hh; [|done].
  set (tx0 := header ∪ _).
  assert (H0 : tx0 !! "Doplnek" = Some VNone).
  { unfold tx0. rewrite lookup_union_r; [done|].
    revert Hh. unfold parse_header_line.
    destruct (rmatch_ DATE_RE line0); [|done]. cbv zeta. intros [= <-].
    by rewrite !lookup_insert_ne, lookup_singleton_ne by done. }
  destruct (find_label (line0 :: rest) 0) as [label_idx|].
  2:{ intros [= <-]. left. by rewrite finish_lookup. }
  set (G := supplement_entry (line0 :: rest)).
  set (P := λ line, line ∈ rest).
  assert (HG : ∀ line, P line → is_ignored_line line = false →
            fx_recognized line = false → G (Str.strip line)).
  { intros line Hl Hi Hf. split; [by apply not_ignored_stripped|].
    by exists line. }
  assert (Hrest : Forall P rest) by (by apply Forall_forall).
  assert (Hpre : Forall P (drop 1 (take label_idx (line0 :: rest)))).
  { destruct label_idx; simpl; [constructor|].
    rewrite drop_0. by apply Forall_take. }
  assert (Hpost : Forall P (drop (S label_idx) (line0 :: rest)))
    by (simpl; by apply Forall_drop).
  destruct (before_label_sound G P HG _ tx0 [] Hpre) as [H1 H1'];
    [constructor|].
  destruct (before_label _ tx0 []) as [tx1 extra1]. simpl in H1, H1'.
  destruct (parse_detail_lines _ tx1) as [st|] eqn:Est; simpl; [|done].
  destruct (parse_detail_lines_sound G P HG _ _ _ Hpost Est) as [H2 H2'].
  destruct (after_walk_sound G P HG
              (drop (w_idx st) (drop (S label_idx) (line0 :: rest)))
              (w_tx st) (extra1 ++ w_extra st)
              (Forall_drop _ _ _ Hpost)) as [H3 H3'];
    [by apply Forall_app|].
  destruct (after_walk _ (w_tx st) _) as [tx3 extra3]. simpl in H3, H3'.
  intros [= <-]. destruct extra3 as [|e es].
  - left. by rewrite finish_lookup, H3', H2', H1'.
  - right. exists (e :: es). split; [done|]. split; [done|].
    rewrite finish_lookup by done. rewrite lookup_insert_eq, filter_nonempty.
    + done.
    + eapply Forall_impl; [exact H3|]. by intros ? [? _].
Qed.

(** X12 at the block with a remark. *)
Lemma supplement_sound_witness :
  record_of (process_block remark_block) !! "Doplnek" = Some VNone
  ∨ ∃ extras, extras ≠ []
      ∧ Forall (supplement_entry remark_block) extras
      ∧ record_of (process_block remark_block) !! "Doplnek"
        = Some (VStr (Str.join (u " | ") extras)).
Proof.
  apply supplement_sound, emitted_record. vm_compute. reflexivity.
Defined.

(** ** What a match consumes *)

Lemma moves_refl st : moves st st [].
Proof. unfold moves. simpl. split; [done|]. split; [lia|done]. Qed.

Lemma moves_trans st y x w1 w2 :
  moves st y w1 → moves y x w2 → moves st x (w1 ++ w2).
Proof.
  intros (H1 & H2 & H3) (H4 & H5 & H6). unfold moves.
  rewrite H1, H4, H5, H2, H6, H3, length_app, <- app_assoc.
  split; [done|]. split; [lia|].
  rewrite last_app. by destruct (last w2).
Qed.

Lemma rep_loop_sound (step : mstate → list mstate) (L : list N → Prop)
    greedy fuel lo hi st x :
  (∀ st x, x ∈ step st → ∃ w, moves st x w ∧ L w) →
  x ∈ rep_loop step greedy fuel lo hi st →
  ∃ ws, moves st x (concat ws) ∧ Forall L ws ∧ (lo ≤ length ws)%nat
        ∧ match hi with Some h => (length ws ≤ h)%nat | None => True end.
Proof.
  intros Hstep. revert lo hi st.
  induction fuel as [|fuel IH]; intros lo hi st; simpl.
  - destruct lo; [|by intros ?%elem_of_nil].
    intros ->%list_elem_of_singleton. exists []. simpl.
    split; [apply moves_refl|]. split; [done|]. split; [done|].
    destruct hi; [lia|done].
  - assert (Hstop : x ∈ match lo with O => [st] | S _ => [] end →
      ∃ ws, moves st x (concat ws) ∧ Forall L ws ∧ (lo ≤ length ws)%nat
        ∧ match hi with Some h => (length ws ≤ h)%nat | None => True end).
    { destruct lo; [|by intros ?%elem_of_nil].
      intros ->%list_elem_of_singleton. exists []. simpl.
      split; [apply moves_refl|]. split; [done|]. split; [done|].
      destruct hi; [lia|done]. }
    assert (Hmore : x ∈ match hi with
                        | Some O => []
                        | _ => step st ≫= λ st',
                            if (m_pos st <? m_pos st')%nat
                            then rep_loop step greedy fuel (pred lo)
                                   (pred <$> hi) st'
                            else []
                        end →
      ∃ ws, moves st x (concat ws) ∧ Forall L ws ∧ (lo ≤ length ws)%nat
        ∧ match hi with Some h => (length ws ≤ h)%nat | None => True end).
    { assert (Hb : x ∈ step st ≫= (λ st',
                     if (m_pos st <? m_pos st')%nat
                     then rep_loop step greedy fuel (pred lo) (pred <$> hi) st'
                     else []) →
                   hi ≠ Some O →
        ∃ ws, moves st x (concat ws) ∧ Forall L ws ∧ (lo ≤ length ws)%nat
          ∧ match hi with Some h => (length ws ≤ h)%nat | None => True end).
      { intros (st' & Hx & Hs)%list_elem_of_bind Hhi.
        destruct (m_pos st <? m_pos st')%nat; [|by apply elem_of_nil in Hx].
        destruct (Hstep _ _ Hs) as (w & Hw & HL).
        destruct (IH _ _ _ Hx) as (ws & Hm & Hf & Hlo & Hh).
        exists (w :: ws). simpl.
        split; [by apply (moves_trans st st')|]. split; [by constructor|].
        split; [lia|]. destruct hi as [[|h]|]; simpl in *; (done || lia). }
      destruct hi as [[|h]|]; [by intros ?%elem_of_nil|..];
        intros H; by apply Hb. }
    destruct greedy; intros [?|?]%elem_of_app; auto.
Qed.

(** A match of [r] from [st] to [x] consumes a text of the language of
    [r]. *)
Lemma run_sound (r : regex) (st x : mstate) :
  x ∈ run r st → ∃ w, moves st x w ∧ lang r w.
Proof.
  revert st x. induction r as
    [|cs|a IHa b IHb|a IHa b IHb|lo hi greedy a IHa|name a IHa| | | |cs];
    intros st x.
  - intros ->%list_elem_of_singleton. exists []. split; [apply moves_refl|done].
  - simpl. destruct (m_rest st) as [|c t] eqn:E; [by intros ?%elem_of_nil|].
    destruct (cset_mem cs c) eqn:Ec; [|by intros ?%elem_of_nil].
    intros ->%list_elem_of_singleton. exists [c]. split; [|by exists c].
    unfold moves. simpl. rewrite E. split; [done|]. split; [lia|done].
  - simpl. intros (y & Hx & Hy)%list_elem_of_bind.
    destruct (IHa _ _ Hy) as (w1 & H1 & L1).
    destruct (IHb _ _ Hx) as (w2 & H2 & L2).
    exists (w1 ++ w2). split; [by apply (moves_trans st y)|].
    by exists w1, w2.
  - simpl. intros [H|H]%elem_of_app.
    + destruct (IHa _ _ H) as (w & ? & ?). exists w. split; [done | by left].
    + destruct (IHb _ _ H) as (w & ? & ?). exists w. split; [done | by right].
  - change (run (RRep lo hi greedy a) st)
      with (rep_loop (run a) greedy (S (length (m_rest st))) lo hi st).
    intros H. destruct (rep_loop_sound (run a) (lang a) _ _ _ _ _ _ IHa H)
      as (ws & Hm & Hf & Hlo & Hhi).
    exists (concat ws). split; [done|]. by exists ws.
  - simpl. intros (y & -> & Hy)%list_elem_of_fmap.
    destruct (IHa _ _ Hy) as (w & Hm & HL). exists w. split; [|done].
    exact Hm.
  - simpl. destruct (m_pos st =? 0)%nat; [|by intros ?%elem_of_nil].
    intros ->%list_elem_of_singleton. exists []. split; [apply moves_refl|done].
  - simpl. assert (H : x ∈ [st] → ∃ w, moves st x w ∧ w = []).
    { intros ->%list_elem_of_singleton. exists [].
      split; [apply moves_refl|done]. }
    repeat match goal with
           | |- context [match ?v with _ => _ end] => destruct v
           end; (done || by intros ?%elem_of_nil).
  - simpl. destruct (xorb _ _); [|by intros ?%elem_of_nil].
    intros ->%list_elem_of_singleton. exists []. split; [apply moves_refl|done].
  - simpl. assert (H : x ∈ [st] → ∃ w, moves st x w ∧ w = []).
    { intros ->%list_elem_of_singleton. exists [].
      split; [apply moves_refl|done]. }
    destruct (m_prev st) as [c|]; [|done].
    destruct (cset_mem cs c); [by intros ?%elem_of_nil | done].
Qed.

Lemma rep_loop_rel (step : mstate → list mstate) (R : relation mstate)
    greedy fuel lo hi st x :
  Reflexive R → Transitive R →
  (∀ st x, x ∈ step st → R st x) →
  x ∈ rep_loop step greedy fuel lo hi st → R st x.
Proof.
  intros Hr Ht Hstep. revert lo hi st.
  induction fuel as [|fuel IH]; intros lo hi st; simpl.
  - destruct lo; [|by intros ?%elem_of_nil]. by intros ->%list_elem_of_singleton.
  - assert (Hstop : x ∈ match lo with O => [st] | S _ => [] end → R st x).
    { destruct lo; [|by intros ?%elem_of_nil].
      by intros ->%list_elem_of_singleton. }
    assert (Hmore : x ∈ match hi with
                        | Some O => []
                        | _ => step st ≫= λ st',
                            if (m_pos st <? m_pos st')%nat
                            then rep_loop step greedy fuel (pred lo)
                                   (pred <$> hi) st'
                            else []
                        end → R st x).
    { assert (Hb : x ∈ step st ≫= (λ st',
                     if (m_pos st <? m_pos st')%nat
                     then rep_loop step greedy fuel (pred lo) (pred <$> hi) st'
                     else []) → R st x).
      { intros (st' & Hx & Hs)%list_elem_of_bind.
        destruct (m_pos st <? m_pos st')%nat; [|by apply elem_of_nil in Hx].
        etrans; [by apply Hstep | by eapply IH]. }
      destruct hi as [[|h]|]; [by intros ?%elem_of_nil|..]; exact Hb. }
    destruct greedy; intros [?|?]%elem_of_app; auto.
Qed.

(** A pattern without groups captures none. *)
Lemma run_groups (r : regex) (st x : mstate) :
  group_free r = true → x ∈ run r st → m_groups x = m_groups st.
Proof.
  revert st x. induction r as
    [|cs|a IHa b IHb|a IHa b IHb|lo hi greedy a IHa|name a IHa| | | |cs];
    intros st x Hg.
  - by intros ->%list_elem_of_singleton.
  - simpl. destruct (m_rest st) as [|c t]; [by intros ?%elem_of_nil|].
    destruct (cset_mem cs c); [|by intros ?%elem_of_nil].
    by intros ->%list_elem_of_singleton.
  - simpl in *. apply andb_prop in Hg as [Ha Hb].
    intros (y & Hx & Hy)%list_elem_of_bind.
    by rewrite (IHb _ _ Hb Hx), (IHa _ _ Ha Hy).
  - simpl in *. apply andb_prop in Hg as [Ha Hb].
    intros [H|H]%elem_of_app; [by apply IHa | by apply IHb].
  - change (run (RRep lo hi greedy a) st)
      with (rep_loop (run a) greedy (S (length (m_rest st))) lo hi st).
    intros H. symmetry.
    apply (rep_loop_rel (run a) (λ st x, m_groups st = m_groups x)
             greedy (S (length (m_rest st))) lo hi st x); [done| | |done].
    + intros ? ? ? ? ?. by etrans.
    + intros st1 x1 H1. symmetry. by apply IHa.
  - done.
  - simpl. destruct (m_pos st =? 0)%nat; [|by intros ?%elem_of_nil].
    by intros ->%list_elem_of_singleton.
  - simpl.
    repeat match goal with
           | |- context [match ?v with _ => _ end] => destruct v
           end; (by intros ->%list_elem_of_singleton
                 || by intros ?%elem_of_nil).
  - simpl. destruct (xorb _ _); [|by intros ?%elem_of_nil].
    by intros ->%list_elem_of_singleton.
  - simpl. destruct (m_prev st) as [c|];
      [destruct (cset_mem cs c); [by intros ?%elem_of_nil|]|];
      by intros ->%list_elem_of_singleton.
Qed.

Lemma rep_loop_map (f : mstate → mstate) (step1 step2 : mstate → list mstate)
    greedy fuel lo hi st :
  (∀ st, m_pos (f st) = m_pos st) →
  (∀ st, f <$> step1 st = step2 (f st)) →
  f <$> rep_loop step1 greedy fuel lo hi st
  = rep_loop step2 greedy fuel lo hi (f st).
Proof.
  intros Hpos Hstep. revert lo hi st.
  induction fuel as [|fuel IH]; intros lo hi st; simpl.
  - by destruct lo.
  - assert (Hstop : f <$> match lo with O => [st] | S _ => [] end
                    = match lo with O => [f st] | S _ => [] end)
      by (by destruct lo).
    assert (Hmore :
      f <$> match hi with
            | Some O => []
            | _ => step1 st ≫= λ st',
                if (m_pos st <? m_pos st')%nat
                then rep_loop step1 greedy fuel (pred lo) (pred <$> hi) st'
                else []
            end
      = match hi with
        | Some O => []
        | _ => step2 (f st) ≫= λ st',
            if (m_pos (f st) <? m_pos st')%nat
            then rep_loop step2 greedy fuel (pred lo) (pred <$> hi) st'
            else []
        end).
    { assert (Hb :
        f <$> (step1 st ≫= λ st',
                 if (m_pos st <? m_pos st')%nat
                 then rep_loop step1 greedy fuel (pred lo) (pred <$> hi) st'
                 else [])
        = step2 (f st) ≫= λ st',
            if (m_pos (f st) <? m_pos st')%nat
            then rep_loop step2 greedy fuel (pred lo) (pred <$> hi) st'
            else []).
      { rewrite <- Hstep. generalize (step1 st). intros l.
        induction l as [|y l IHl]; [done|].
        rewrite fmap_cons, !bind_cons, fmap_app, IHl, !Hpos. f_equal.
        destruct (m_pos st <? m_pos y)%nat; [apply IH|done]. }
      by destruct hi as [[|h]|]. }
    destruct greedy; by rewrite fmap_app, Hstop, Hmore.
Qed.

(** Taking the groups off a pattern changes the positions of no match. *)
Lemma erase_run (r : regex) (st : mstate) :
  clear_groups <$> run r st = run (erase r) (clear_groups st).
Proof.
  revert st. induction r as
    [|cs|a IHa b IHb|a IHa b IHb|lo hi greedy a IHa|name a IHa| | | |cs];
    intros st.
  - done.
  - simpl. destruct (m_rest st) as [|c t]; [done|].
    by destruct (cset_mem cs c).
  - simpl. rewrite <- IHa. generalize (run a st). intros l.
    induction l as [|y l IHl]; [done|].
    by rewrite fmap_cons, !bind_cons, fmap_app, IHl, IHb.
  - simpl. by rewrite fmap_app, IHa, IHb.
  - change (run (RRep lo hi greedy a) st)
      with (rep_loop (run a) greedy (S (length (m_rest st))) lo hi st).
    change (run (erase (RRep lo hi greedy a)) (clear_groups st))
      with (rep_loop (run (erase a)) greedy (S (length (m_rest st))) lo hi
              (clear_groups st)).
    by apply rep_loop_map.
  - simpl. rewrite <- IHa, <- list_fmap_compose.
    by apply list_fmap_ext.
  - simpl. by destruct (m_pos st =? 0)%nat.
  - simpl.
    repeat match goal with
           | |- context [match ?v with _ => _ end] => destruct v
           end; done.
  - simpl. by destruct (xorb _ _).
  - simpl. destruct (m_prev st) as [c|]; [|done]. by destruct (cset_mem cs c).
Qed.

(** ** Where [search] finds a match *)

Lemma search_from_some (r : regex) prev rest pos m :
  search_from r prev rest pos = Some m →
  ∃ st x, m_groups st = [] ∧ head (run r st) = Some x ∧ m = mk_match st x.
Proof.
  revert prev pos. induction rest as [|c t IH]; intros prev pos; simpl.
  - unfold match_at.
    destruct (head (run r (MState prev [] pos []))) as [x|] eqn:E; [|done].
    intros [= <-]. by exists (MState prev [] pos []), x.
  - unfold match_at at 1.
    destruct (head (run r (MState prev (c :: t) pos []))) as [x|] eqn:E.
    + intros [= <-]. by exists (MState prev (c :: t) pos []), x.
    + apply IH.
Qed.

Lemma search_from_finds (r : regex) prev rest pos k :
  (k ≤ length rest)%nat →
  is_Some (match_at r (at_offset prev rest pos k)) →
  is_Some (search_from r prev rest pos).
Proof.
  revert prev pos k. induction rest as [|c t IH]; intros prev pos k Hk.
  - assert (k = 0)%nat as -> by (simpl in Hk; lia).
    unfold at_offset. simpl. rewrite Nat.add_0_r.
    by destruct (match_at _ _).
  - simpl. destruct (match_at r (MState prev (c :: t) pos [])) eqn:E; [done|].
    destruct k as [|k].
    + unfold at_offset. simpl. rewrite Nat.add_0_r, E. by intros [? ?].
    + intros H. apply (IH (Some c) (S pos) k); [simpl in Hk; lia|].
      unfold at_offset in *. simpl in H.
      rewrite last_cons, Nat.add_succ_r in H. simpl.
      by destruct (last (take k t)).
Qed.

(** A match of a pattern without groups, begun at a position without
    groups, ends at a position of the text. *)
Lemma run_offset (r : regex) prev rest pos x :
  group_free r = true → x ∈ run r (MState prev rest pos []) →
  ∃ k, (k ≤ length rest)%nat ∧ x = at_offset prev rest pos k.
Proof.
  intros Hg Hx. pose proof (run_groups r _ x Hg Hx) as Hgr.
  destruct (run_sound r _ x Hx) as (w & (H1 & H2 & H3) & _). simpl in *.
  exists (length w). split; [rewrite H1, length_app; lia|].
  unfold at_offset. rewrite H1, take_app_length, drop_app_length.
  destruct x as [p r' q g]. simpl in *. by subst.
Qed.

(** ** The amount of a line of header shape *)

Lemma run_group (name : string) (a : regex) (st x : mstate) :
  group_free a = true → x ∈ run (RGroup name a) st →
  ∃ w y, moves st y w ∧ lang a w
         ∧ x = set_group name w y ∧ m_groups y = m_groups st.
Proof.
  intros Hg. simpl. intros (y & -> & Hy)%list_elem_of_fmap.
  destruct (run_sound a st y Hy) as (w & Hm & HL).
  exists w, y. split; [done|]. split; [done|].
  split; [|by apply (run_groups a)].
  destruct Hm as (H1 & H2 & _). f_equal.
  rewrite H1, H2. replace (m_pos st + length w - m_pos st)%nat
    with (length w) by lia.
  apply take_app_length.
Qed.

Lemma moves_set_group st y w name text :
  moves st y w → moves st (set_group name text y) w.
Proof. done. Qed.

Lemma header_has_amount (line : list N) :
  matches HEADER_RE line = true → is_Some (search HEADER_AMOUNT_RE line).
Proof.
  intros [x Hx]%matches_run.
  change HEADER_RE
    with (RSeq RBol (RSeq (star s) (RSeq HEADER_DATE_RE
            (RSeq (lazy_star (RChar CAny)) (erase HEADER_AMOUNT_RE))))) in Hx.
  apply run_seq in Hx as (y1 & H1 & Hx).
  apply run_seq in Hx as (y2 & H2 & Hx).
  apply run_seq in Hx as (y3 & H3 & Hx).
  apply run_seq in Hx as (y4 & H4 & Hx).
  assert (Hpre : y4 ∈ run (RSeq RBol (RSeq (star s) (RSeq HEADER_DATE_RE
                               (lazy_star (RChar CAny)))))
                          (MState None line 0 [])).
  { apply run_seq. exists y1. split; [done|].
    apply run_seq. exists y2. split; [done|].
    apply run_seq. by exists y3. }
  apply run_offset in Hpre as (k & Hk & ->); [|done].
  unfold search. apply (search_from_finds _ None line 0%nat k Hk).
  unfold match_at.
  destruct (run HEADER_AMOUNT_RE (at_offset None line 0 k)) as [|z l] eqn:E;
    [|by eexists].
  pose proof (erase_run HEADER_AMOUNT_RE (at_offset None line 0 k)) as He.
  rewrite E in He. change (clear_groups (at_offset None line 0 k))
    with (at_offset None line 0 k) in He.
  rewrite <- He in Hx. by apply elem_of_nil in Hx.
Qed.

Lemma header_amount_groups (line : list N) (m : rmatch) :
  search HEADER_AMOUNT_RE line = Some m →
  lang AMOUNT_TOKEN_RE (group "amount" m)
  ∧ lang CURRENCY_TOKEN_RE (group "currency" m).
Proof.
  intros (st & x & Hg & Hx%head_Some_elem_of & ->)%search_from_some.
  change HEADER_AMOUNT_RE
    with (RSeq (RNotBehind CDigit) (RSeq (RGroup "amount" AMOUNT_TOKEN_RE)
            (RSeq (plus s) (RSeq (RGroup "currency" CURRENCY_TOKEN_RE)
               (RSeq (star s) (RSeq REol REps)))))) in Hx.
  apply run_seq in Hx as (y1 & H1 & Hx).
  apply run_seq in Hx as (y2 & H2 & Hx).
  apply run_seq in Hx as (y3 & H3 & Hx).
  apply run_seq in Hx as (y4 & H4 & Hx).
  apply run_groups in H1; [|done].
  apply run_group in H2 as (w & a & _ & Hw & -> & Ha); [|done].
  apply run_groups in H3; [|done].
  apply run_group in H4 as (w' & c & _ & Hw' & -> & Hc); [|done].
  apply run_groups in Hx; [|done].
  assert (Hgs : m_groups x = [("currency", w'); ("amount", w)]).
  { rewrite Hx.
    change (m_groups (set_group "currency" w' c))
      with (("currency", w') :: m_groups c).
    rewrite Hc, H3.
    change (m_groups (set_group "amount" w a))
      with (("amount", w) :: m_groups a).
    by rewrite Ha, H1, Hg. }
  unfold group, mk_match. cbn [r_groups]. rewrite Hgs.
  split; [exact Hw | exact Hw'].
Qed.

Lemma lang_class_rep (cs : cset) lo hi greedy (w : list N) :
  lang (RRep lo hi greedy (RChar cs)) w →
  Forall (λ c, cset_mem cs c = true) w ∧ (lo ≤ length w)%nat
  ∧ match hi with Some h => (length w ≤ h)%nat | None => True end.
Proof.
  intros (ws & -> & Hf & Hlo & Hhi).
  assert (H : Forall (λ c, cset_mem cs c = true) (concat ws)
              ∧ length (concat ws) = length ws).
  { clear Hlo Hhi. induction Hf as [|x l (c & -> & Hc) _ [IH1 IH2]]; [done|].
    simpl. split; [by constructor | by rewrite IH2]. }
  destruct H as [H1 H2]. rewrite H2. done.
Qed.

Lemma digit_amount_char (c : N) : is_digit c = true → amount_char c = true.
Proof. unfold amount_char. by intros ->. Qed.

Lemma amount_body (w : list N) :
  lang (RAlt (cat [between 1 3 d;
                   star (cat [RChar (CUnion (CChar 32) (CChar 46)); times 3 d])])
             (plus d)) w →
  Forall (λ c, amount_char c = true) w
  ∧ ∃ c, head w = Some c ∧ is_digit c = true.
Proof.
  intros [H|H].
  - destruct H as (a & r & -> & Ha & b & e & -> & Hb & ->).
    apply lang_class_rep in Ha as (Ha & Hl & _).
    destruct Hb as (ws & -> & Hb & _).
    split.
    + apply Forall_app. split.
      * eapply Forall_impl; [exact Ha|]. intros c. apply digit_amount_char.
      * rewrite app_nil_r. induction Hb as [|x l Hx _ IH]; [done|].
        simpl. apply Forall_app. split; [|done].
        destruct Hx as (p & q & -> & (c & -> & Hc) & t & e' & -> & Ht & ->).
        apply lang_class_rep in Ht as (Ht & _).
        constructor.
        -- cbn [cset_mem] in Hc.
           by apply orb_prop in Hc as [Hc|Hc]; apply N.eqb_eq in Hc as <-.
        -- rewrite app_nil_r. eapply Forall_impl; [exact Ht|].
           intros c'. apply digit_amount_char.
    + destruct a as [|c a]; [simpl in Hl; lia|]. exists c. split; [done|].
      by inversion Ha.
  - apply lang_class_rep in H as (Ha & Hl & _). split.
    + eapply Forall_impl; [exact Ha|]. intros c. apply digit_amount_char.
    + destruct w as [|c a]; [simpl in Hl; lia|]. exists c. split; [done|].
      by inversion Ha.
Qed.

Lemma amount_token_shape (w : list N) :
  lang AMOUNT_TOKEN_RE w → amount_shape w.
Proof.
  intros (sgn & r1 & -> & Hs & ws & r2 & -> & Hw & body & r3 & -> & Hb
          & cm & r4 & -> & (c & -> & Hc) & dd & e & -> & Hd & ->).
  apply lang_class_rep in Hs as (Hs & _ & Hs1).
  apply lang_class_rep in Hw as (Hw & _).
  apply amount_body in Hb as (Hb & Hh).
  apply lang_class_rep in Hd as (Hd & Hd1 & Hd2).
  destruct dd as [|d1 [|d2 [|? ?]]]; simpl in Hd1, Hd2; try lia.
  inversion Hd as [|? ? Hx1 Hd']; subst. inversion Hd' as [|? ? Hx2 _]; subst.
  apply N.eqb_eq in Hc as <-.
  exists sgn, ws, body, d1, d2. rewrite app_nil_r.
  split; [done|]. split.
  - destruct sgn as [|x [|? ?]]; simpl in Hs1; [by left| |lia].
    right. inversion Hs as [|? ? Hx _]; subst. cbn [cset_mem] in Hx.
    by apply N.eqb_eq in Hx as <-.
  - done.
Qed.

(** ** The number of an amount token *)

Lemma digit_cases (c : N) :
  is_digit c = true → c ∈ [48; 49; 50; 51; 52; 53; 54; 55; 56; 57].
Proof.
  unfold is_digit, in_range. intros [H1%N.leb_le H2%N.leb_le]%andb_prop.
  assert (c = 48 ∨ c = 49 ∨ c = 50 ∨ c = 51 ∨ c = 52 ∨ c = 53 ∨ c = 54
          ∨ c = 55 ∨ c = 56 ∨ c = 57) as H by lia.
  repeat (destruct H as [->|H]; [apply list_elem_of_In; vm_compute; tauto|]).
  subst. apply list_elem_of_In. vm_compute. tauto.
Qed.

(** A property of characters that holds of the ten digits. *)
Lemma by_digits (P : N → bool) (c : N) :
  forallb P [48; 49; 50; 51; 52; 53; 54; 55; 56; 57] = true →
  is_digit c = true → P c = true.
Proof.
  intros H Hc%digit_cases. rewrite forallb_forall in H.
  by apply H, list_elem_of_In.
Qed.

Lemma digit_not_space (c : N) : is_digit c = true → is_space c = false.
Proof.
  intros Hc. apply negb_true_iff.
  by apply (by_digits (λ c, negb (is_space c))).
Qed.

Lemma read_digits_go_app (ds rest : list N) :
  Forall (λ c, is_digit c = true) ds →
  read_digits_go rest = ([], rest) →
  read_digits_go (ds ++ rest) = (ds, rest).
Proof.
  intros Hd Hr. induction Hd as [|c ds Hc _ IH]; [done|].
  simpl. by rewrite Hc, IH.
Qed.

Lemma read_digits_app (c : N) (ds rest : list N) :
  Forall (λ c, is_digit c = true) (c :: ds) →
  read_digits_go rest = ([], rest) →
  read_digits ((c :: ds) ++ rest) = (c :: ds, rest).
Proof.
  intros Hd Hr. unfold read_digits.
  change ((c :: ds) ++ rest) with (c :: (ds ++ rest)). cbv iota.
  inversion Hd as [|? ? Hc _]; subst. rewrite Hc.
  by apply (read_digits_go_app (c :: ds)).
Qed.

Lemma read_sign_digit (c : N) (t : list N) :
  is_digit c = true → read_sign (c :: t) = (false, c :: t).
Proof.
  intros Hc%digit_cases.
  repeat (apply elem_of_cons in Hc as [->|Hc]; [done|]).
  by apply elem_of_nil in Hc.
Qed.

Lemma lower_digit (c : N) (t : list N) :
  is_digit c = true → Str.lower (c :: t) = c :: Str.lower t.
Proof.
  intros Hc. unfold Str.lower. rewrite bind_cons.
  assert (lower_char c = [c]) as ->; [|done].
  assert (H : Str.eqb (lower_char c) [c] = true)
    by (by apply (by_digits (λ c, Str.eqb (lower_char c) [c]))).
  unfold Str.eqb in H. by apply bool_decide_eq_true in H.
Qed.

Lemma digit_not_float_space (c : N) :
  is_digit c = true → is_float_space c = false.
Proof.
  intros Hc. unfold is_float_space. by rewrite (digit_not_space c Hc).
Qed.

Lemma fneg_to_double (neg : bool) (m : N) (e : Z) :
  fneg (to_double neg m e) = to_double (negb neg) m e.
Proof. unfold to_double. by destruct (nearest_double m e) as [[? ?]|]. Qed.

(** [float] on digits, a point and two digits. *)
Lemma py_float_decimal (c d1 d2 : N) (ds : list N) :
  Forall (λ c, is_digit c = true) (c :: ds) →
  is_digit d1 = true → is_digit d2 = true →
  py_float ((c :: ds) ++ [46; d1; d2])
  = Some (to_double false (digits_value ((c :: ds) ++ [d1; d2])) (-2)).
Proof.
  intros Hd H1 H2. inversion Hd as [|? ? Hc Hds]; subst.
  unfold py_float.
  assert (float_strip ((c :: ds) ++ [46; d1; d2]) = (c :: ds) ++ [46; d1; d2])
    as ->.
  { apply strip_by_fixed; intros x.
    - intros [= <-]. by apply digit_not_float_space.
    - rewrite last_app. simpl. intros [= <-]. by apply digit_not_float_space. }
  change ((c :: ds) ++ [46; d1; d2]) with (c :: (ds ++ [46; d1; d2])).
  rewrite read_sign_digit, lower_digit by done.
  assert (Hne : ∀ x t, is_digit c = true → x ≠ c →
            Str.eqb (c :: Str.lower (ds ++ [46; d1; d2])) (x :: t) = false).
  { intros x t _ Hx. unfold Str.eqb. apply bool_decide_eq_false.
    intros [= E]. by apply Hx. }
  assert (Hi : 105 ≠ c) by (intros <-; done).
  assert (Hn : 110 ≠ c) by (intros <-; done).
  change (u "inf") with [105; 110; 102].
  change (u "infinity") with [105; 110; 102; 105; 110; 105; 116; 121].
  change (u "nan") with [110; 97; 110].
  rewrite !Hne by done. cbn [orb].
  change (c :: (ds ++ [46; d1; d2])) with ((c :: ds) ++ [46; d1; d2]).
  rewrite read_digits_app by done.
  change [d1; d2] with ([d1; d2] ++ []) at 1.
  rewrite (read_digits_app d1 [d2] []) by (by repeat constructor).
  reflexivity.
Qed.

Lemma decimal_char_digit (c : N) :
  is_digit c = true → decimal_char true c = [c].
Proof.
  intros Hc.
  assert (H : Str.eqb (decimal_char true c) [c] = true)
    by (by apply (by_digits (λ c, Str.eqb (decimal_char true c) [c]))).
  unfold Str.eqb in H. by apply bool_decide_eq_true in H.
Qed.

Lemma amount_char_cases (c : N) :
  amount_char c = true → is_digit c = true ∨ c = 32 ∨ c = 46.
Proof.
  unfold amount_char.
  intros [[?|?%N.eqb_eq]%orb_prop|?%N.eqb_eq]%orb_prop; auto.
Qed.

Lemma decimal_digits (body : list N) :
  Forall (λ c, amount_char c = true) body →
  body ≫= decimal_char true = List.filter is_digit body.
Proof.
  induction 1 as [|c body Hc _ IH]; [done|].
  rewrite bind_cons, IH. simpl.
  destruct (amount_char_cases c Hc) as [Hd|[->| ->]]; [|done..].
  by rewrite Hd, decimal_char_digit.
Qed.

Lemma filter_digits_blank (ws : list N) :
  Forall (λ c, is_space c = true) ws → List.filter is_digit ws = [].
Proof.
  induction 1 as [|c ws Hc _ IH]; [done|]. simpl. rewrite IH.
  destruct (is_digit c) eqn:E; [|done].
  apply digit_not_space in E. congruence.
Qed.

Lemma filter_digits_digits (ds : list N) :
  Forall (λ c, is_digit c = true) ds → List.filter is_digit ds = ds.
Proof.
  induction 1 as [|c ds Hc _ IH]; [done|]. simpl. by rewrite Hc, IH.
Qed.

Lemma filter_is_digit (l : list N) :
  Forall (λ c, is_digit c = true) (List.filter is_digit l).
Proof.
  apply Forall_forall. intros c Hc%list_elem_of_In.
  by apply filter_In in Hc as [_ ?].
Qed.

(** The amount parser on the text of an amount token. *)
Lemma cz_amount_of_shape (w : list N) :
  amount_shape w →
  Str.strip w ≠ []
  ∧ ∃ f, cz_amount_to_float (Str.strip w) = Some f
         ∧ hundredths_of (Str.strip w) f.
Proof.
  intros (sgn & ws & body & d1 & d2 & -> & Hs & Hws & Hb & (c & Hh & Hc)
          & H1 & H2).
  destruct body as [|c' body]; [done|]. injection Hh as ->.
  inversion Hb as [|? ? _ Hb']; subst.
  set (core := (c :: body) ++ [44; d1; d2]).
  assert (Hends : no_blank_ends core).
  { split; intros x.
    - intros [= <-]. by apply digit_not_space.
    - unfold core. rewrite last_app. simpl. intros [= <-].
      by apply digit_not_space. }
  assert (Hcore : Str.strip (ws ++ core) = core).
  { rewrite <- (app_nil_r core) at 1.
    rewrite strip_pad by done. by apply strip_fixed. }
  assert (H45 : 45 ∉ ws ++ core).
  { intros [H|H]%elem_of_app.
    - rewrite Forall_forall in Hws. by apply Hws in H.
    - unfold core in H. apply elem_of_app in H as [H|H].
      + rewrite Forall_forall in Hb. by apply Hb in H.
      + apply elem_of_cons in H as [?|H]; [done|].
        apply elem_of_cons in H as [<-|H]; [done|].
        apply list_elem_of_singleton in H as <-. done. }
  assert (Hrep : Str.replace [45] [] (ws ++ core) = ws ++ core).
  { apply replace_absent. rewrite contains_char. by apply bool_decide_eq_false. }
  assert (Hdec : decimal_text core
                 = (c :: List.filter is_digit body) ++ [46; d1; d2]).
  { rewrite decimal_text_chars.
    assert (bool_decide (44 ∈ core) = true) as ->.
    { apply bool_decide_eq_true. unfold core. apply elem_of_app. right.
      by left. }
    unfold core. rewrite bind_app, (decimal_digits (c :: body)) by done.
    simpl. rewrite Hc, !decimal_char_digit by done. done. }
  assert (Hf : py_float ((c :: List.filter is_digit body) ++ [46; d1; d2])
               = Some (to_double false
                         (digits_value
                            ((c :: List.filter is_digit body) ++ [d1; d2]))
                         (-2))).
  { apply py_float_decimal; [|done..].
    constructor; [done | apply filter_is_digit]. }
  assert (Hdig : List.filter is_digit core
                 = (c :: List.filter is_digit body) ++ [d1; d2]).
  { unfold core. rewrite List.filter_app. simpl. by rewrite Hc, H1, H2. }
  assert (Hcz : ∀ raw, Str.strip raw = raw →
            Str.strip (Str.replace (u "-") [] raw) = core →
            cz_amount_to_float raw
            = Some (to_double (Str.startswith raw (u "-"))
                      (digits_value
                         ((c :: List.filter is_digit body) ++ [d1; d2]))
                      (-2))).
  { intros raw Hr1 Hr2. unfold cz_amount_to_float. rewrite Hr1, Hr2.
    change (Str.replace (u ",") (u ".") _) with (decimal_text core).
    rewrite Hdec, Hf.
    destruct (Str.startswith raw (u "-")); [|done].
    by rewrite fneg_to_double. }
  destruct Hs as [->| ->].
  - rewrite app_nil_l, Hcore. split; [done|].
    eexists. split.
    + apply Hcz; [by apply strip_fixed|].
      change (u "-") with [45]. rewrite replace_absent.
      * by apply strip_fixed.
      * rewrite contains_char. apply bool_decide_eq_false.
        intros H. apply H45, elem_of_app. by right.
    + unfold hundredths_of. by rewrite Hdig.
  - assert (Hraw : Str.strip ([45] ++ ws ++ core) = [45] ++ ws ++ core).
    { apply strip_fixed. split; intros x.
      - by intros [= <-].
      - rewrite !last_app. destruct Hends as [_ Hl].
        destruct (last core) as [y|] eqn:E; [intros [= <-]; by apply Hl|].
        by apply last_None in E. }
    rewrite Hraw. split; [done|].
    eexists. split.
    + apply Hcz; [done|].
      change (u "-") with [45]. rewrite replace_char.
      change ([45] ++ ws ++ core) with (45 :: (ws ++ core)).
      rewrite bind_cons, N.eqb_refl, app_nil_l.
      by rewrite <- (replace_char 45 [] (ws ++ core)), Hrep, Hcore.
    + unfold hundredths_of.
      rewrite !List.filter_app, (filter_digits_blank ws), Hdig by done.
      done.
Qed.

Lemma header_amount (line : list N) (header : gmap string pyval) :
  matches HEADER_RE line = true →
  parse_header_line line = Some header →
  ∃ raw f, header !! "Castka_raw" = Some (VStr raw) ∧ raw ≠ []
           ∧ header !! "Castka_CZK" = Some (VFloat f)
           ∧ hundredths_of raw f.
Proof.
  intros Hh. destruct (header_has_amount line Hh) as [m Hm].
  destruct (header_amount_groups line m Hm) as [Hl _].
  apply amount_token_shape, cz_amount_of_shape in Hl as (Hne & f & Hf & Hv).
  unfold parse_header_line.
  destruct (rmatch_ DATE_RE line) as [m_date|]; [|done].
  cbv zeta. rewrite Hm. cbn [fmap option_fmap option_map].
  intros [= <-]. exists (Str.strip (group "amount" m)), f.
  split; [|split; [done|split; [|done]]].
  - rewrite !lookup_insert_ne by done. by rewrite lookup_insert_eq.
  - rewrite !lookup_insert_ne by done. rewrite lookup_insert_eq.
    destruct (Str.strip (group "amount" m)) as [|c t] eqn:E; [done|].
    by rewrite Hf.
Qed.

(** X13: every record of a stream has the raw amount of its header line,
    which is not empty, and a number for it: the double nearest to the
    digits of the raw amount read as a count of hundredths (infinity when
    they are beyond the doubles), negated when the raw amount begins with
    a minus sign. *)
Theorem record_amount (lines : list (list N)) (block : list (list N))
    (tx : gmap string pyval) :
  block ∈ segment lines →
  process_block block = Ok (Some tx) →
  ∃ raw f, tx !! "Castka_raw" = Some (VStr raw) ∧ raw ≠ []
           ∧ tx !! "Castka_CZK" = Some (VFloat f)
           ∧ hundredths_of raw f.
Proof.
  intros Hb Hp.
  pose proof (segment_all_headed lines) as Hall.
  rewrite Forall_forall in Hall.
  destruct (Hall block Hb) as (line0 & rest & -> & Hh & _).
  destruct (parse_header_line line0) as [header|] eqn:Hhd;
    [|by unfold process_block in Hp; rewrite Hhd in Hp].
  destruct (header_amount line0 header Hh Hhd) as (raw & f & H1 & H2 & H3 & H4).
  exists raw, f.
  rewrite (header_field_kept line0 rest header tx "Castka_raw"),
    (header_field_kept line0 rest header tx "Castka_CZK"); try done;
    apply list_elem_of_In; vm_compute; tauto.
Qed.

(** X13 at the purchase block. *)
Lemma record_amount_witness :
  ∃ raw f, purchase_record !! "Castka_raw" = Some (VStr raw) ∧ raw ≠ []
           ∧ purchase_record !! "Castka_CZK" = Some (VFloat f)
           ∧ hundredths_of raw f.
Proof.
  apply (record_amount purchase_block purchase_block).
  - vm_compute. left.
  - apply emitted_record. vm_compute. reflexivity.
Defined.

(** The number is a double: ten hundredths are the double nearest to
    them, an amount of eighteen digits keeps seventeen, and an amount of
    310 digits is infinity. *)
Lemma cz_amount_rounded :
  cz_amount_to_float (u "0,10")
  = Some (FNum false
            1000000000000000055511151231257827021181583404541015625 (-55))
  ∧ cz_amount_to_float (u "123 456 789 012 345 678,90")
    = Some (FNum false 12345678901234568 1)
  ∧ cz_amount_to_float (u "1" ++ replicate 309 48 ++ u ",00")
    = Some (FInf false).
Proof. by vm_compute. Qed.

(** ** The FX currency is a currency code *)

Lemma lang_code (w : list N) : lang (times 3 AZ) w → currency_code w.
Proof.
  intros (H1 & H2 & H3)%lang_class_rep. split; [lia | exact H1].
Qed.

Lemma fx_date_amount_currency (line : list N) (m : rmatch) :
  search FX_DATE_AMOUNT_RE line = Some m →
  currency_code (group "currency" m).
Proof.
  intros (st & x & Hg & Hx%head_Some_elem_of & ->)%search_from_some.
  change FX_DATE_AMOUNT_RE
    with (RSeq (RGroup "date" (cat [between 1 2 d; lit "."; between 1 2 d;
                                    lit "."; times 4 d]))
            (RSeq (plus s) (RSeq (RGroup "amount" FX_AMOUNT)
               (RSeq (plus s) (RSeq (RGroup "currency" (times 3 AZ))
                  (RSeq RWordB REps)))))) in Hx.
  apply run_seq in Hx as (y1 & H1 & Hx).
  apply run_seq in Hx as (y2 & H2 & Hx).
  apply run_seq in Hx as (y3 & H3 & Hx).
  apply run_seq in Hx as (y4 & H4 & Hx).
  apply run_seq in Hx as (y5 & H5 & Hx).
  apply run_group in H5 as (w & c & _ & Hw & -> & Hc); [|done].
  apply run_groups in Hx; [|done].
  unfold group, mk_match. cbn [r_groups]. rewrite Hx.
  by apply lang_code.
Qed.

Lemma fx_amount_only_currency (line : list N) (m : rmatch) :
  rmatch_ FX_AMOUNT_ONLY_RE line = Some m →
  currency_code (group "currency" m).
Proof.
  unfold rmatch_, match_at.
  destruct (head (run FX_AMOUNT_ONLY_RE (MState None line 0 []))) as [x|] eqn:E;
    [|done].
  intros [= <-]. apply head_Some_elem_of in E as Hx.
  change FX_AMOUNT_ONLY_RE
    with (RSeq RBol (RSeq (star s) (RSeq (RGroup "amount" FX_AMOUNT)
            (RSeq (plus s) (RSeq (RGroup "currency" (times 3 AZ))
               (RSeq RWordB REps)))))) in Hx.
  apply run_seq in Hx as (y1 & H1 & Hx).
  apply run_seq in Hx as (y2 & H2 & Hx).
  apply run_seq in Hx as (y3 & H3 & Hx).
  apply run_seq in Hx as (y4 & H4 & Hx).
  apply run_seq in Hx as (y5 & H5 & Hx).
  apply run_group in H5 as (w & c & _ & Hw & -> & Hc); [|done].
  apply run_groups in Hx; [|done].
  unfold group, mk_match. cbn [r_groups]. rewrite Hx.
  by apply lang_code.
Qed.

(** A property of characters that holds of the capital letters of
    ASCII. *)
Lemma by_capitals (P : N → bool) (c : N) :
  forallb P (N.of_nat <$> seq 65 26) = true →
  in_range 65 90 c = true → P c = true.
Proof.
  intros H. unfold in_range. intros [H1%N.leb_le H2%N.leb_le]%andb_prop.
  rewrite forallb_forall in H. apply H, list_elem_of_In, list_elem_of_fmap.
  exists (N.to_nat c). split; [lia|]. apply elem_of_seq. lia.
Qed.

Lemma code_stripped (w : list N) :
  Forall (λ c, in_range 65 90 c = true) w → Str.strip w = w.
Proof.
  intros Hw. rewrite Forall_forall in Hw. apply strip_fixed.
  split; intros c Hc.
  - apply negb_true_iff, (by_capitals (λ c, negb (is_space c))); [done|].
    apply Hw. by apply head_Some_elem_of.
  - apply negb_true_iff, (by_capitals (λ c, negb (is_space c))); [done|].
    apply Hw. by apply last_Some_elem_of.
Qed.

Lemma code_upper (w : list N) :
  Forall (λ c, in_range 65 90 c = true) w → Str.upper w = w.
Proof.
  unfold Str.upper. induction 1 as [|c w Hc _ IH]; [done|].
  rewrite bind_cons, IH.
  assert (H : Str.eqb (upper_char c) [c] = true)
    by (by apply (by_capitals (λ c, Str.eqb (upper_char c) [c]))).
  unfold Str.eqb in H. apply bool_decide_eq_true in H. by rewrite H.
Qed.

Lemma normalize_currency_code (w : list N) :
  lang CURRENCY_TOKEN_RE w →
  ∃ cur, normalize_currency_token (Some w) = Some cur ∧ currency_code cur.
Proof.
  assert (Hczk : currency_code (u "CZK")) by (split; [done|by repeat constructor]).
  intros [H|H].
  - destruct H as (k & r & -> & (c1 & -> & Hk) & r2 & e & -> & (c2 & -> & Hc2)
                   & ->).
    apply N.eqb_eq in Hk as <-. exists (u "CZK"). split; [|done].
    change ([N_of_ascii "K"] ++ [c2] ++ []) with [75; c2].
    unfold normalize_currency_token, Str.strip.
    change (Str.lstrip [75; c2]) with [75; c2].
    destruct (rstrip_cons 75 [c2]) as [r ->]; [done|].
    unfold Str.upper. rewrite bind_cons.
    change (upper_char 75) with [75]. done.
  - apply lang_code in H as [Hl Hc].
    destruct w as [|c w]; [done|].
    unfold normalize_currency_token.
    rewrite code_stripped, code_upper by done.
    destruct (Str.startswith _ _); eexists; (split; [done|]); [done|].
    by split.
Qed.

Lemma header_currency_code (line : list N) :
  header_currency line = VNone
  ∨ ∃ cur, header_currency line = VStr cur ∧ currency_code cur.
Proof.
  unfold header_currency, parse_header_line.
  destruct (rmatch_ DATE_RE line) as [m_date|]; [|by left]. cbv zeta.
  unfold get. rewrite !lookup_insert_ne, lookup_singleton_eq by done.
  cbn [default from_option id].
  destruct (search HEADER_AMOUNT_RE line) as [m|] eqn:Hm; [|by left].
  destruct (header_amount_groups line m Hm) as [_ Hl].
  destruct (normalize_currency_code _ Hl) as (cur & -> & Hc).
  right. by exists cur.
Qed.

Lemma coded_ext (tx tx' : gmap string pyval) :
  tx' !! "FX_mena" = tx !! "FX_mena" → coded tx → coded tx'.
Proof. unfold coded, get. by intros ->. Qed.

Lemma coded_set (cur : list N) (tx : gmap string pyval) :
  currency_code cur → coded tx → coded (set_if_unset "FX_mena" cur tx).
Proof.
  intros Hc H. unfold set_if_unset.
  destruct (truthy (get tx "FX_mena")); [done|].
  right. exists cur. split; [|done]. unfold get. by rewrite lookup_insert_eq.
Qed.

Lemma coded_fx (line : list N) (tx : gmap string pyval) :
  coded tx → coded (parse_fx_line line tx).2.
Proof.
  intros H. unfold parse_fx_line.
  destruct (rmatch_ FX_RATE_RE line) as [m|]; simpl.
  { apply (coded_ext tx); [|done].
    unfold fx_rate. by rewrite !set_if_unset_other. }
  destruct (search FX_DATE_AMOUNT_RE line) as [m|] eqn:E2; simpl.
  { unfold fx_date_amount.
    assert (H3 : coded
              (set_if_unset "FX_mena" (group "currency" m)
                 (set_if_unset "FX_castka"
                    (Str.replace (u " ") [] (group "amount" m))
                    (set_if_unset "FX_datum" (group "date" m) tx)))).
    { apply coded_set; [by apply (fx_date_amount_currency line)|].
      apply (coded_ext tx); [|done]. by rewrite !set_if_unset_other. }
    destruct (Str.strip (take (r_start m) line)); [done|].
    eapply coded_ext; [|exact H3]. by rewrite set_if_unset_other. }
  destruct (rmatch_ FX_AMOUNT_ONLY_RE line) as [m|] eqn:E3; simpl.
  { unfold fx_amount_only.
    apply coded_set; [by apply (fx_amount_only_currency line)|].
    apply (coded_ext tx); [|done]. by rewrite set_if_unset_other. }
  by destruct (Str.contains _ _).
Qed.

(** An invariant of the FX currency and the header currency alone, which
    the FX parser keeps, holds before the closing steps of a block. *)
Lemma process_block_currency_inv (I : gmap string pyval → Prop)
    line0 rest header tx :
  (∀ t t', t' !! "FX_mena" = t !! "FX_mena" →
           t' !! "Mena_hlavicka" = t !! "Mena_hlavicka" → I t → I t') →
  (∀ line t, I t → I (parse_fx_line line t).2) →
  parse_header_line line0 = Some header →
  I (header ∪ list_to_map ((λ col, (col, VNone)) <$> COLUMNS)) →
  process_block (line0 :: rest) = Ok (Some tx) →
  ∃ tx0, I tx0 ∧ tx = finish (line0 :: rest) tx0.
Proof.
  intros Hext Hfx Hh Hinit Hp.
  apply (process_block_inv I (λ _, True)) with (line0 := line0) (rest := rest)
    (header := header); try done.
  - intros line t _. apply Hfx.
  - intros line t extra _. apply Hext; apply handle_misc_line_lookup;
      rewrite list_elem_of_In; vm_compute; intuition congruence.
  - intros k v t Hk. apply Hext; apply lookup_insert_ne;
      by destruct Hk as [-> | [-> | ->]].
  - intros line t _. apply Hext; apply main_line_lookup;
      rewrite list_elem_of_In; vm_compute; intuition congruence.
  - intros t v. apply Hext; by apply append_field_lookup.
  - by apply Forall_true.
Qed.

(** X14: the FX currency of every record is a currency code, three capital
    letters of ASCII: the one captured from an FX line, the currency of
    the header line, or CZK. *)
Theorem fx_currency_is_code (block : list (list N))
    (tx : gmap string pyval) :
  process_block block = Ok (Some tx) →
  ∃ cur, tx !! "FX_mena" = Some (VStr cur) ∧ currency_code cur.
Proof.
  intros Hp.
  assert (Hczk : currency_code (u "CZK"))
    by (split; [done | by repeat constructor]).
  destruct block as [|line0 rest]; [done|].
  destruct (parse_header_line line0) as [header|] eqn:Hh;
    [|by unfold process_block in Hp; rewrite Hh in Hp].
  set (seed := header ∪ list_to_map ((λ col, (col, VNone)) <$> COLUMNS)).
  assert (Hseed : seed !! "FX_mena" = Some VNone
                  ∧ get seed "Mena_hlavicka" = header_currency line0).
  { unfold header_currency. rewrite Hh. unfold parse_header_line in Hh.
    destruct (rmatch_ DATE_RE line0); [|done].
    injection Hh as <-. cbv zeta in seed. split.
    - unfold seed. rewrite lookup_union_r; [done|].
      by rewrite !lookup_insert_ne, lookup_singleton_ne.
    - unfold get, seed. rewrite lookup_union_l'; [done|].
      rewrite !lookup_insert_ne, lookup_singleton_eq by done. by eexists. }
  destruct Hseed as [Hs1 Hs2].
  assert (Hinit : coded seed) by (left; unfold get; by rewrite Hs1).
  destruct (process_block_currency_inv
              (λ t, t !! "Mena_hlavicka" = seed !! "Mena_hlavicka" ∧ coded t)
              line0 rest header tx) as (tx0 & [H1 H2] & ->); try done.
  - intros t t' Hf Hm [H3 H4]. split; [by rewrite Hm | by apply (coded_ext t)].
  - intros line t [H3 H4]. split; [|by apply coded_fx].
    rewrite <- H3. apply parse_fx_line_lookup. rewrite list_elem_of_In.
    vm_compute. intuition congruence.
  - rewrite finish_fx_mena.
    assert (Hm : get tx0 "Mena_hlavicka" = header_currency line0)
      by (unfold get at 1; rewrite H1; exact Hs2).
    rewrite Hm. destruct H2 as [H2|(cur & H2 & Hc)]; rewrite H2.
    + cbn [truthy]. unfold py_or.
      destruct (header_currency_code line0) as [->|(cur & -> & Hc)].
      * by exists (u "CZK").
      * exists cur. split; [|done].
        destruct Hc as [Hl _]. by destruct cur.
    + exists cur. split; [|done].
      destruct Hc as [Hl _]. by destruct cur.
Qed.

(** X14 at the purchase block. *)
Lemma fx_currency_is_code_witness :
  ∃ cur, purchase_record !! "FX_mena" = Some (VStr cur) ∧ currency_code cur.
Proof.
  apply (fx_currency_is_code purchase_block), emitted_record.
  vm_compute. reflexivity.
Defined.

(** ** Matches of a repeated class *)

Lemma rep_loop_elem (step : mstate → list mstate) greedy fuel lo hi st x :
  x ∈ rep_loop step greedy (S fuel) lo hi st
  ↔ (lo = 0%nat ∧ x = st)
    ∨ (hi ≠ Some 0%nat
       ∧ ∃ st', st' ∈ step st ∧ (m_pos st < m_pos st')%nat
                ∧ x ∈ rep_loop step greedy fuel (pred lo) (pred <$> hi) st').
Proof.
  change (rep_loop step greedy (S fuel) lo hi st)
    with (if greedy
          then match hi with
               | Some O => []
               | _ => step st ≫= λ st',
                   if (m_pos st <? m_pos st')%nat
                   then rep_loop step greedy fuel (pred lo) (pred <$> hi) st'
                   else []
               end ++ match lo with O => [st] | S _ => [] end
          else match lo with O => [st] | S _ => [] end
               ++ match hi with
                  | Some O => []
                  | _ => step st ≫= λ st',
                      if (m_pos st <? m_pos st')%nat
                      then rep_loop step greedy fuel (pred lo) (pred <$> hi) st'
                      else []
                  end).
  assert (Hstop : x ∈ match lo with O => [st] | S _ => [] end
                  ↔ lo = 0%nat ∧ x = st).
  { destruct lo.
    - rewrite list_elem_of_singleton. split; [by intros -> | by intros [_ ->]].
    - rewrite elem_of_nil. split; [done | by intros [? _]]. }
  assert (Hmore : x ∈ match hi with
                      | Some O => []
                      | _ => step st ≫= λ st',
                          if (m_pos st <? m_pos st')%nat
                          then rep_loop step greedy fuel (pred lo)
                                 (pred <$> hi) st'
                          else []
                      end
                  ↔ hi ≠ Some 0%nat
                    ∧ ∃ st', st' ∈ step st ∧ (m_pos st < m_pos st')%nat
                        ∧ x ∈ rep_loop step greedy fuel (pred lo)
                                (pred <$> hi) st').
  { assert (Hb : x ∈ step st ≫= (λ st',
                   if (m_pos st <? m_pos st')%nat
                   then rep_loop step greedy fuel (pred lo) (pred <$> hi) st'
                   else [])
                 ↔ ∃ st', st' ∈ step st ∧ (m_pos st < m_pos st')%nat
                     ∧ x ∈ rep_loop step greedy fuel (pred lo)
                             (pred <$> hi) st').
    { rewrite list_elem_of_bind. split.
      - intros (st' & Hx & Hs).
        destruct (Nat.ltb_spec (m_pos st) (m_pos st'));
          [|by apply elem_of_nil in Hx].
        by exists st'.
      - intros (st' & Hs & Hlt & Hx). exists st'. split; [|done].
        by rewrite (proj2 (Nat.ltb_lt _ _) Hlt). }
    destruct hi as [[|h]|].
    - rewrite elem_of_nil. split; [done | by intros [? _]].
    - rewrite Hb. split; [by intros ? | by intros [_ ?]].
    - rewrite Hb. split; [by intros ? | by intros [_ ?]]. }
  destruct greedy; rewrite elem_of_app, Hstop, Hmore; tauto.
Qed.

(** The matcher can stop a repetition of a class after any run of its
    characters that is within the bounds. *)
Lemma rep_class_complete (cs : cset) greedy (w rest : list N) prev pos gs
    fuel lo hi :
  Forall (λ c, cset_mem cs c = true) w →
  (lo ≤ length w)%nat →
  match hi with Some h => (length w ≤ h)%nat | None => True end →
  (length (w ++ rest) < fuel)%nat →
  MState (match last w with Some c => Some c | None => prev end) rest
         (pos + length w) gs
  ∈ rep_loop (run (RChar cs)) greedy fuel lo hi (MState prev (w ++ rest) pos gs).
Proof.
  intros Hw. revert prev pos fuel lo hi.
  induction Hw as [|c w Hc _ IH]; intros prev pos fuel lo hi Hlo Hhi Hf.
  - destruct fuel as [|fuel]; [simpl in Hf; lia|].
    assert (lo = 0)%nat as -> by (simpl in Hlo; lia).
    apply rep_loop_elem. left. split; [done|].
    simpl. by rewrite Nat.add_0_r.
  - destruct fuel as [|fuel]; [simpl in Hf; lia|].
    apply rep_loop_elem. right. split.
    { intros ->. simpl in Hhi. lia. }
    exists (MState (Some c) (w ++ rest) (S pos) gs). split; [|split].
    + simpl. rewrite Hc. by left.
    + simpl. lia.
    + rewrite last_cons.
      replace (pos + length (c :: w))%nat with (S pos + length w)%nat
        by (simpl; lia).
      specialize (IH (Some c) (S pos) fuel (pred lo) (pred <$> hi)).
      destruct (last w); apply IH; simpl in *; try lia;
        destruct hi as [[|h]|]; simpl in *; (done || lia).
Qed.

(** [fullmatch] of a class repeated one or more times: the text is not
    empty and all of the class. *)
Lemma fullmatch_plus_class (cs : cset) (t : list N) :
  is_Some (fullmatch (plus (RChar cs)) t)
  ↔ t ≠ [] ∧ Forall (λ c, cset_mem cs c = true) t.
Proof.
  unfold fullmatch.
  set (st := MState None t 0 []).
  set (l := List.filter (λ st', bool_decide (m_rest st' = []))
              (run (plus (RChar cs)) st)).
  assert (Hl : ∀ x, x ∈ l ↔ x ∈ run (plus (RChar cs)) st ∧ m_rest x = []).
  { intros x. unfold l. rewrite list_elem_of_In, filter_In, <- list_elem_of_In.
    by rewrite bool_decide_eq_true. }
  split.
  - intros [m Hm]. destruct (head l) as [x|] eqn:E; [|done].
    apply head_Some_elem_of, Hl in E as [Hx Hr].
    apply run_sound in Hx as (w & (H1 & _) & HL). simpl in H1.
    rewrite Hr, app_nil_r in H1. subst w.
    apply lang_class_rep in HL as (HL & Hlen & _).
    split; [|done]. intros ->. simpl in Hlen. lia.
  - intros [Hne Ht].
    assert (Hx : MState (match last t with Some c => Some c | None => None end)
                   [] (0 + length t) [] ∈ l).
    { apply Hl. split; [|done].
      pose proof (rep_class_complete cs true t [] None 0%nat []
                    (S (length t)) 1 None Ht) as H.
      rewrite app_nil_r in H. apply H; [|done|lia].
      destruct t; [done | simpl; lia]. }
    destruct l as [|y l']; [by apply elem_of_nil in Hx | by eexists].
Qed.

(** [search] for one character of a class: the text has one. *)
Lemma search_class (cs : cset) prev (t : list N) pos :
  is_Some (search_from (RChar cs) prev t pos)
  ↔ existsb (cset_mem cs) t = true.
Proof.
  revert prev pos. induction t as [|c t IH]; intros prev pos; simpl.
  - unfold match_at. simpl. split; [by intros [? ?] | done].
  - unfold match_at at 1. simpl. destruct (cset_mem cs c); simpl.
    + split; [done | by eexists].
    + apply IH.
Qed.

Lemma forallb_alnum (t : list N) :
  forallb is_alnum t = true
  ↔ Forall (λ c, cset_mem (CUnion (CRange 65 90)
                             (CUnion (CRange 97 122) (CRange 48 57))) c
                 = true) t.
Proof.
  assert (Hc : ∀ c, cset_mem (CUnion (CRange 65 90)
                      (CUnion (CRange 97 122) (CRange 48 57))) c = is_alnum c).
  { intros c. unfold is_alnum. cbn [cset_mem]. apply orb_assoc. }
  rewrite forallb_forall, Forall_forall.
  split; intros H c Hin.
  - rewrite Hc. by apply H, list_elem_of_In.
  - rewrite <- Hc. by apply H, list_elem_of_In.
Qed.

(** X15: a token looks like a fragment of a transaction code exactly when,
    trimmed, it has eight characters or more, all of them letters or
    digits of ASCII, one of them a digit. *)
Theorem looks_like_code_fragment_spec (token : list N) :
  looks_like_code_fragment token
  = (8 <=? length (Str.strip token))%nat
    && forallb is_alnum (Str.strip token)
    && existsb is_digit (Str.strip token).
Proof.
  unfold looks_like_code_fragment. cbv zeta.
  set (t := Str.strip token).
  destruct (Nat.ltb_spec (length t) 8) as [Hlt|Hge].
  { by rewrite (proj2 (Nat.leb_gt _ _) Hlt). }
  rewrite (proj2 (Nat.leb_le _ _) Hge). cbn [andb].
  assert (Hfull : bool_decide (is_Some (fullmatch ALNUM_RE t))
                  = forallb is_alnum t).
  { destruct (forallb is_alnum t) eqn:E.
    - apply bool_decide_eq_true, fullmatch_plus_class.
      split; [|by apply forallb_alnum]. intros Ht. rewrite Ht in Hge.
      simpl in Hge. lia.
    - apply bool_decide_eq_false. intros [_ H]%fullmatch_plus_class.
      apply forallb_alnum in H. congruence. }
  rewrite Hfull. destruct (forallb is_alnum t); cbn [negb andb]; [|done].
  unfold found, search.
  destruct (existsb is_digit t) eqn:E.
  - apply bool_decide_eq_true, search_class. exact E.
  - apply bool_decide_eq_false. intros H%search_class.
    change (existsb is_digit t = true) in H. congruence.
Qed.

(** ** The payment symbols of a record *)

Lemma from_end_elem (k : nat) (tokens : list (list N)) :
  (0 < k ≤ length tokens)%nat → from_end k tokens ∈ tokens.
Proof.
  intros Hk. unfold from_end.
  destruct (lookup_lt_is_Some_2 tokens (length tokens - k)) as [x Hx]; [lia|].
  rewrite Hx. simpl. by eapply list_elem_of_lookup_2.
Qed.

Lemma clean_symbol_value (tok : list N) :
  Forall (λ c, is_space c = false) tok → symbol_value (VStr (clean_symbol tok)).
Proof.
  intros Ht. right. unfold clean_symbol, Str.eqb.
  destruct (bool_decide_reflect (tok = u "-")) as [_|Hne].
  - by exists [].
  - by exists tok.
Qed.

Lemma main_line_symbol (line : list N) (k : string) :
  k ∈ SYMBOL_KEYS →
  (parse_detail_main_line line).1 !! k = None
  ∨ ∃ v, (parse_detail_main_line line).1 !! k = Some v ∧ symbol_value v.
Proof.
  intros Hk. unfold parse_detail_main_line.
  destruct (rmatch_ DATE_RE line) as [m|]; cbv zeta; [|by left].
  set (tokens := Str.split (Str.strip (drop (r_end m) line))).
  destruct (Nat.ltb_spec (length tokens) 4) as [Hlt|Hge]; cbn [fst].
  { left. apply lookup_singleton_ne.
    by repeat (apply elem_of_cons in Hk as [->|Hk]; [done|]);
      apply elem_of_nil in Hk. }
  assert (Htok : ∀ j, (0 < j ≤ 3)%nat →
            symbol_value (VStr (clean_symbol (from_end j tokens)))).
  { intros j Hj. apply clean_symbol_value.
    apply (split_go_tokens (Str.strip (drop (r_end m) line)) []); [done|].
    change (from_end j tokens ∈ tokens). apply from_end_elem. lia. }
  right.
  repeat (apply elem_of_cons in Hk as [->|Hk];
          [rewrite ?lookup_insert_ne by done; rewrite ?lookup_insert_eq,
             ?lookup_singleton_eq;
           eexists; split; [done|]; apply Htok; lia|]).
  by apply elem_of_nil in Hk.
Qed.

Lemma header_no_symbol (line : list N) (header : gmap string pyval)
    (k : string) :
  k ∈ SYMBOL_KEYS → parse_header_line line = Some header →
  (header ∪ list_to_map ((λ col, (col, VNone)) <$> COLUMNS)) !! k
  = Some VNone.
Proof.
  intros Hk. unfold parse_header_line.
  destruct (rmatch_ DATE_RE line); [|done]. cbv zeta. intros [= <-].
  repeat (apply elem_of_cons in Hk as [->|Hk];
          [rewrite lookup_union_r;
           [done | by rewrite !lookup_insert_ne, lookup_singleton_ne by done]|]).
  by apply elem_of_nil in Hk.
Qed.

(** X16: the variable, specific and constant symbol of a record are each
    null or a string without a blank, and never the dash that stands for
    a missing symbol on the detail line. *)
Theorem record_symbols (block : list (list N)) (tx : gmap string pyval)
    (k : string) :
  k ∈ SYMBOL_KEYS →
  process_block block = Ok (Some tx) →
  ∃ v, tx !! k = Some v ∧ symbol_value v.
Proof.
  intros Hk Hp.
  destruct block as [|line0 rest]; [done|].
  destruct (parse_header_line line0) as [header|] eqn:Hh;
    [|unfold process_block in Hp; by rewrite Hh in Hp].
  assert (Hfx : k ∉ FX_KEYS).
  { intros Hin. revert Hk Hin. rewrite !list_elem_of_In. vm_compute.
    intuition congruence. }
  assert (Hmisc : k ∉ MISC_KEYS).
  { intros Hin. revert Hk Hin. rewrite !list_elem_of_In. vm_compute.
    intuition congruence. }
  assert (Hne : ∀ k', k' ∉ SYMBOL_KEYS → k ≠ k') by (by intros k' H <-).
  destruct (process_block_inv
              (λ tx, ∃ v, tx !! k = Some v ∧ symbol_value v) (λ _, True))
    with (block := line0 :: rest) (line0 := line0) (rest := rest)
         (header := header) (tx := tx) as (tx0 & H0 & ->); try done.
  - intros line t _. by rewrite parse_fx_line_lookup.
  - intros line t extra _. by rewrite handle_misc_line_lookup.
  - intros k' v t Hk' H. rewrite lookup_insert_ne; [done|].
    apply not_eq_sym, Hne. rewrite list_elem_of_In.
    destruct Hk' as [-> | [-> | ->]]; vm_compute; intuition congruence.
  - intros line t _ (v & Hv & Hs).
    destruct (main_line_symbol line k Hk) as [Hn|(v' & Hv' & Hs')].
    + exists v. by rewrite lookup_union_r.
    + exists v'. split; [|done]. by apply lookup_union_Some_l.
  - intros t v H. rewrite append_field_lookup; [done|].
    apply Hne. rewrite list_elem_of_In. vm_compute. intuition congruence.
  - by apply Forall_true.
  - exists VNone. split; [by eapply header_no_symbol | by left].
  - rewrite finish_lookup; [done|..];
      apply Hne; rewrite list_elem_of_In; vm_compute; intuition congruence.
Qed.

(** X16 at the purchase block, whose detail line has three dashes. *)
Lemma record_symbols_witness :
  ∃ v, purchase_record !! "VS" = Some v ∧ symbol_value v.
Proof.
  apply (record_symbols purchase_block purchase_record "VS").
  - apply list_elem_of_In. vm_compute. tauto.
  - apply emitted_record. vm_compute. reflexivity.
Defined.

(** ** The dates of a record *)

Lemma date_group (line : list N) (m : rmatch) :
  rmatch_ DATE_RE line = Some m →
  lang (cat [between 1 2 d; lit "."; star s; between 1 2 d; lit "."; star s;
             times 4 d]) (group "1" m).
Proof.
  unfold rmatch_, match_at.
  destruct (head (run DATE_RE (MState None line 0 []))) as [x|] eqn:E; [|done].
  intros [= <-]. apply head_Some_elem_of in E.
  change DATE_RE
    with (RSeq RBol (RSeq (star s)
            (RSeq (RGroup "1" (cat [between 1 2 d; lit "."; star s;
                                    between 1 2 d; lit "."; star s;
                                    times 4 d])) REps))) in E.
  apply run_seq in E as (y1 & H1 & E).
  apply run_seq in E as (y2 & H2 & E).
  apply run_seq in E as (y3 & H3 & E).
  apply run_groups in H1; [|done].
  apply run_groups in H2; [|done].
  apply run_group in H3 as (w & a & _ & Hw & -> & Ha); [|done].
  apply run_groups in E; [|done].
  unfold group, mk_match. cbn [r_groups]. rewrite E.
  change (m_groups (set_group "1" w a)) with (("1", w) :: m_groups a).
  exact Hw.
Qed.

Lemma date_body_shape (w : list N) :
  lang (cat [between 1 2 d; lit "."; star s; between 1 2 d; lit "."; star s;
             times 4 d]) w →
  date_shape w ∧ Str.strip w = w.
Proof.
  intros (dd & r1 & -> & Hdd & p1 & r2 & -> & (c1 & -> & Hc1)
          & sp1 & r3 & -> & Hsp1 & mm & r4 & -> & Hmm
          & p2 & r5 & -> & (c2 & -> & Hc2) & sp2 & r6 & -> & Hsp2
          & yyyy & e & -> & Hy & ->).
  apply lang_class_rep in Hdd as (Hdd & Hd1 & Hd2).
  apply lang_class_rep in Hsp1 as (Hsp1 & _).
  apply lang_class_rep in Hmm as (Hmm & Hm1 & Hm2).
  apply lang_class_rep in Hsp2 as (Hsp2 & _).
  apply lang_class_rep in Hy as (Hy & Hy1 & Hy2).
  cbn [cset_mem] in *.
  apply N.eqb_eq in Hc1 as <-. apply N.eqb_eq in Hc2 as <-.
  rewrite app_nil_r.
  split.
  - exists dd, sp1, mm, sp2, yyyy. repeat split; (done || lia).
  - apply strip_fixed. split; intros c.
    + destruct dd as [|x dd]; [simpl in Hd1; lia|]. intros [= <-].
      apply digit_not_space. by inversion Hdd.
    + rewrite !app_assoc.
      destruct (decide (yyyy = [])) as [->|Hne]; [simpl in Hy1; lia|].
      destruct (exists_last Hne) as (l & z & ->).
      rewrite app_assoc, last_snoc. intros [= <-].
      apply digit_not_space.
      apply Forall_app in Hy as [_ Hz]. by inversion Hz.
Qed.

Lemma header_date (line : list N) (header : gmap string pyval) :
  parse_header_line line = Some header →
  ∃ t, header !! "Datum" = Some (VStr t) ∧ date_shape t.
Proof.
  unfold parse_header_line.
  destruct (rmatch_ DATE_RE line) as [m|] eqn:Em; [|done].
  cbv zeta. intros [= <-].
  destruct (date_body_shape _ (date_group line m Em)) as [Hs Hf].
  exists (group "1" m). split; [|done].
  by rewrite lookup_insert_eq, Hf.
Qed.

Lemma main_line_date (line : list N) :
  (parse_detail_main_line line).1 !! "Datum_provedeni" = None
  ∨ ∃ t, (parse_detail_main_line line).1 !! "Datum_provedeni" = Some (VStr t)
         ∧ date_shape t.
Proof.
  unfold parse_detail_main_line.
  destruct (rmatch_ DATE_RE line) as [m|] eqn:Em; cbv zeta; [|by left].
  destruct (date_body_shape _ (date_group line m Em)) as [Hs Hf].
  right. exists (group "1" m). split; [|done].
  destruct (_ <? 4)%nat; cbn [fst].
  - by rewrite lookup_singleton_eq, Hf.
  - by rewrite lookup_insert_eq, Hf.
Qed.

(** X17: the transaction date of a record has the shape of a date, and its
    execution date is null or has the shape of a date: a day and a month
    of one or two digits, each with a dot and maybe blanks after it, and
    a year of four digits. *)
Theorem record_dates (block : list (list N)) (tx : gmap string pyval) :
  process_block block = Ok (Some tx) →
  (∃ t, tx !! "Datum" = Some (VStr t) ∧ date_shape t)
  ∧ (∃ v, tx !! "Datum_provedeni" = Some v ∧ date_value v).
Proof.
  intros Hp.
  destruct block as [|line0 rest]; [done|].
  destruct (parse_header_line line0) as [header|] eqn:Hh;
    [|unfold process_block in Hp; by rewrite Hh in Hp].
  split.
  - destruct (header_date line0 header Hh) as (t & Ht & Hs).
    exists t. split; [|done]. rewrite <- Ht.
    apply (header_field_kept line0 rest); [|done..].
    apply list_elem_of_In. vm_compute. tauto.
  - destruct (process_block_inv
                (λ tx, ∃ v, tx !! "Datum_provedeni" = Some v ∧ date_value v)
                (λ _, True))
      with (block := line0 :: rest) (line0 := line0) (rest := rest)
           (header := header) (tx := tx) as (tx0 & H0 & ->); try done.
    + intros line t _. rewrite parse_fx_line_lookup; [done|].
      rewrite list_elem_of_In. vm_compute. intuition congruence.
    + intros line t extra _. rewrite handle_misc_line_lookup; [done|].
      rewrite list_elem_of_In. vm_compute. intuition congruence.
    + intros k' v t Hk' H. rewrite lookup_insert_ne; [done|].
      by destruct Hk' as [-> | [-> | ->]].
    + intros line t _ (v & Hv & Hs).
      destruct (main_line_date line) as [Hn|(t' & Ht' & Hs')].
      * exists v. by rewrite lookup_union_r.
      * exists (VStr t'). split; [by apply lookup_union_Some_l|].
        right. by exists t'.
    + intros t v H. by rewrite append_field_lookup.
    + by apply Forall_true.
    + exists VNone. split; [|by left].
      revert Hh. unfold parse_header_line.
      destruct (rmatch_ DATE_RE line0); [|done]. cbv zeta. intros [= <-].
      rewrite lookup_union_r;
        [done | by rewrite !lookup_insert_ne, lookup_singleton_ne by done].
    + by rewrite finish_lookup.
Qed.

(** X17 at the purchase block. *)
Lemma record_dates_witness :
  (∃ t, purchase_record !! "Datum" = Some (VStr t) ∧ date_shape t)
  ∧ (∃ v, purchase_record !! "Datum_provedeni" = Some v ∧ date_value v).
Proof.
  apply (record_dates purchase_block purchase_record), emitted_record.
  vm_compute. reflexivity.
Defined.

(** ** Where the message comes from *)

Lemma join_snoc (sep x : list N) (l : list (list N)) :
  l ≠ [] → Str.join sep (l ++ [x]) = Str.join sep l ++ sep ++ x.
Proof.
  destruct l as [|a l]; [done|]. intros _.
  change ((a :: l) ++ [x]) with (a :: (l ++ [x])).
  rewrite !join_cons, bind_app, <- app_assoc. f_equal. f_equal.
  simpl. by rewrite app_nil_r.
Qed.

Lemma join_not_empty (sep : list N) (l : list (list N)) :
  l ≠ [] → Forall (λ e, e ≠ []) l → Str.join sep l ≠ [].
Proof.
  destruct l as [|a l]; [done|]. intros _ Hl. rewrite join_cons.
  inversion Hl; subst. by destruct a.
Qed.

Lemma append_message (G : list N → Prop) (tx : gmap string pyval)
    (msg : list N) :
  (∀ e, G e → e ≠ []) → (msg ≠ [] → G msg) →
  messages_of G (tx !! "Zprava") →
  messages_of G (append_field tx "Zprava" msg !! "Zprava").
Proof.
  intros Gne Hmsg H. unfold append_field, Str.eqb.
  case_bool_decide as Hne; [done|].
  right. destruct H as [H|(msgs & Hn & Hg & H)]; unfold get; rewrite H; simpl.
  - exists [msg]. split; [done|]. split; [by repeat constructor; auto|].
    by rewrite lookup_insert_eq.
  - assert (Hj : Str.join (u " | ") msgs ≠ []).
    { apply join_not_empty; [done|]. eapply Forall_impl; [exact Hg|].
      exact Gne. }
    unfold Str.eqb. rewrite bool_decide_false by done. simpl.
    exists (msgs ++ [msg]). split; [by destruct msgs|].
    split; [apply Forall_app; split; [done | by repeat constructor; auto]|].
    by rewrite lookup_insert_eq, join_snoc.
Qed.

Lemma fx_or_misc_lookup (line : list N) (tx : gmap string pyval)
    (extra : list (list N)) (k : string) :
  k ∉ FX_KEYS → k ∉ MISC_KEYS → (fx_or_misc line tx extra).1 !! k = tx !! k.
Proof.
  intros H1 H2. unfold fx_or_misc.
  pose proof (parse_fx_line_lookup line tx k H1) as Hfx.
  destruct (parse_fx_line line tx) as [[] tx']; simpl in *; [done|].
  by rewrite handle_misc_line_lookup.
Qed.

Lemma after_walk_messages (G P : list N → Prop) (lines : list (list N))
    (tx : gmap string pyval) (extra : list (list N)) :
  (∀ e, G e → e ≠ []) →
  (∀ line, P line → is_ignored_line line = false →
           is_message_line line = true → message_text line ≠ [] →
           G (message_text line)) →
  Forall P lines →
  messages_of G (tx !! "Zprava") →
  messages_of G ((after_walk lines tx extra).1 !! "Zprava").
Proof.
  intros Gne HG HP. revert tx extra.
  induction HP as [|line rest Hl _ IH]; intros tx extra H; simpl; [done|].
  destruct (is_ignored_line line) eqn:Ei; [by apply IH|].
  destruct (is_message_line line) eqn:Em.
  { apply IH. apply (append_message G tx (message_text line)); [done| |done].
    by apply HG. }
  pose proof (fx_or_misc_lookup line tx extra "Zprava") as Hk.
  destruct (fx_or_misc line tx extra) as [tx' extra']. simpl in Hk.
  apply IH. rewrite Hk; [done|..];
    rewrite list_elem_of_In; vm_compute; intuition congruence.
Qed.

(** X18: the message of a record is null, or it is made of the messages of
    message lines of the body of its block that are not ignorable, the
    ones that are not empty and at least one, joined by [" | "]. *)
Theorem message_sound (block : list (list N)) (tx : gmap string pyval) :
  process_block block = Ok (Some tx) →
  tx !! "Zprava" = Some VNone
  ∨ ∃ msgs, msgs ≠ []
      ∧ Forall (message_entry block) msgs
      ∧ tx !! "Zprava" = Some (VStr (Str.join (u " | ") msgs)).
Proof.
  destruct block as [|line0 rest]; [done|]. unfold process_block.
  destruct (parse_header_line line0) as [header|] eqn:Hh; [|done].
  set (tx0 := header ∪ _).
  assert (H0 : tx0 !! "Zprava" = Some VNone).
  { unfold tx0. rewrite lookup_union_r; [done|].
    revert Hh. unfold parse_header_line.
    destruct (rmatch_ DATE_RE line0); [|done]. cbv zeta. intros [= <-].
    by rewrite !lookup_insert_ne, lookup_singleton_ne by done. }
  destruct (find_label (line0 :: rest) 0) as [label_idx|].
  2:{ intros [= <-]. left. by rewrite finish_lookup. }
  set (I := λ t : gmap string pyval, t !! "Zprava" = Some VNone).
  assert (Ifx : ∀ line t, True → I t → I (parse_fx_line line t).2).
  { intros line t _ Ht. unfold I. rewrite parse_fx_line_lookup; [done|].
    rewrite list_elem_of_In. vm_compute. intuition congruence. }
  assert (Imisc : ∀ line t extra, True → I t →
            I (handle_misc_line line t extra).1).
  { intros line t extra _ Ht. unfold I.
    rewrite handle_misc_line_lookup; [done|].
    rewrite list_elem_of_In. vm_compute. intuition congruence. }
  assert (Iins : ∀ k v t,
            k = "Kod_transakce" ∨ k = "Typ_transakce" ∨ k = "Doplnek" →
            I t → I (<[k := v]> t)).
  { intros k v t Hk Ht. unfold I. rewrite lookup_insert_ne; [done|].
    by destruct Hk as [-> | [-> | ->]]. }
  assert (Imain : ∀ line t, True → I t →
            I ((parse_detail_main_line line).1 ∪ t)).
  { intros line t _ Ht. unfold I. rewrite main_line_lookup; [done|].
    rewrite list_elem_of_In. vm_compute. intuition congruence. }
  pose proof (before_label_inv I (λ _, True) Ifx Imisc
                (drop 1 (take label_idx (line0 :: rest))) tx0 []
                (Forall_true _ _ (λ _, Logic.I)) H0) as H1.
  destruct (before_label _ tx0 []) as [tx1 extra1]. simpl in H1.
  destruct (parse_detail_lines _ tx1) as [st|] eqn:Est; simpl; [|done].
  pose proof (parse_detail_lines_inv I (λ _, True) Ifx Imisc Iins Imain
                _ _ _ (Forall_true _ _ (λ _, Logic.I)) H1 Est) as H2.
  set (G := message_entry (line0 :: rest)).
  assert (H3 : messages_of G
                 ((after_walk (drop (w_idx st)
                                 (drop (S label_idx) (line0 :: rest)))
                              (w_tx st) (extra1 ++ w_extra st)).1
                  !! "Zprava")).
  { apply (after_walk_messages G (λ line, line ∈ rest)).
    - by intros e [? _].
    - intros line Hl Hi Hm Hne. split; [done|]. by exists line.
    - apply Forall_drop. simpl. apply Forall_drop. by apply Forall_forall.
    - by left. }
  destruct (after_walk _ (w_tx st) _) as [tx3 extra3]. simpl in H3.
  intros [= <-]. rewrite finish_lookup by done.
  destruct extra3 as [|e es]; [exact H3|].
  by rewrite lookup_insert_ne.
Qed.

(** X18 at the purchase block followed by a message line. *)
Lemma message_sound_witness :
  record_of (process_block (purchase_block ++ [u "Zprava: diky"]))
    !! "Zprava" = Some VNone
  ∨ ∃ msgs, msgs ≠ []
      ∧ Forall (message_entry (purchase_block ++ [u "Zprava: diky"])) msgs
      ∧ record_of (process_block (purchase_block ++ [u "Zprava: diky"]))
          !! "Zprava"
        = Some (VStr (Str.join (u " | ") msgs)).
Proof.
  apply message_sound, emitted_record. vm_compute. reflexivity.
Defined.
